(** * yuanwuzhi/sync: structure differ and batch replicator

    A shallow embedding of the two engines of the repository:
    - [Comparer]: [mysql-structure-sync/internal/sync/comparer.go], the
      catalog reader [getTableStructure] and the structure differ
      [Compare] with its DDL templates;
    - [Service]: the data-sync service ([syncTable], [syncBatchData],
      [needSync], [cleanupTargetTable], ...), written against the calls
      it makes on its two gorm handles.

    Go values are modelled as the code has them: [int], [int64] and
    [time.Duration] as [Z], [string] as [string], structs as records,
    [error] as the message string, a function returning [(T, error)] as
    [result T], and a Go [map] as an association list together with an
    explicit iteration order for every [range] over it.  [Z] is not
    bounded: the integers the modelled code computes are loop counters
    and page offsets, which stay below the row count plus one batch. *)

From Stdlib Require Import List String Ascii ZArith Bool Lia Permutation.
From Stdlib Require Import DecimalString.
Import ListNotations.
Local Open Scope list_scope.
Local Open Scope string_scope.

(** ** Errors and results *)

Definition error := string.

Inductive result (A : Type) : Type :=
| Ok (a : A)
| Err (e : error).
Arguments Ok {A} a.
Arguments Err {A} e.

(** [fmt.Errorf("<msg>: %w", err)] *)
Definition wrap (msg : string) (e : error) : error := msg ++ ": " ++ e.

(** ** Go maps keyed by strings

    [m[k] = v] overwrites in place or appends; lookups return the last
    value stored.  The list order is the order of first insertion; it is
    NOT the order of [range], which Go leaves unspecified: every [range]
    takes the order in which it visits the keys as a [RangeOrder]. *)

Module GoMap.

Definition t (V : Type) := list (string * V).

Fixpoint get {V} (m : t V) (k : string) : option V :=
  match m with
  | [] => None
  | (k', v) :: m' => if String.eqb k' k then Some v else get m' k
  end.

Fixpoint set {V} (m : t V) (k : string) (v : V) : t V :=
  match m with
  | [] => [(k, v)]
  | (k', v') :: m' =>
      if String.eqb k' k then (k', v) :: m' else (k', v') :: set m' k v
  end.

Definition keys {V} (m : t V) : list string := List.map fst m.

(** [for _, x := range xs { m[key x] = x }] *)
Definition of_list {V} (key : V -> string) (xs : list V) : t V :=
  fold_left (fun m x => set m (key x) x) xs [].

(** The map holding [f n] under every name [n] of a list. *)
Definition tabulate {V} (f : string -> V) (names : list string) : t V :=
  List.map (fun n => (n, f n)) names.

(** The order in which one [range] statement visits the keys. *)
Definition RangeOrder := list string -> list string.

(** A range visits every key exactly once. *)
Definition fair (o : RangeOrder) : Prop :=
  forall ks, Permutation (o ks) ks.

(** [for k, v := range m { out = append(out, body k v...) }] *)
Definition range {V D} (o : RangeOrder) (m : t V)
           (body : string -> V -> list D) : list D :=
  flat_map (fun k => match get m k with
                     | Some v => body k v
                     | None => []
                     end) (o (keys m)).

End GoMap.

(** [strings.Contains] *)
Fixpoint contains (s sub : string) : bool :=
  if String.prefix sub s then true
  else match s with
       | EmptyString => false
       | String _ s' => contains s' sub
       end.

(** [strings.Join] *)
Definition join (parts : list string) (sep : string) : string :=
  String.concat sep parts.

(** [sql.NullString] *)
Record NullString := { Str : string; Valid : bool }.

Definition nullString_null : NullString := {| Str := ""; Valid := false |}.

(** ** The structure differ: comparer.go *)

Module Comparer.

Record ColumnModel := {
  c_Name : string;
  c_DataType : string;
  c_IsNullable : string;
  c_ColumnKey : string;
  c_DefaultValue : NullString;
  c_Extra : string;
  c_OnUpdate : NullString
}.

Record IndexModel := {
  i_Name : string;
  i_Columns : list string;
  i_NonUnique : Z;
  i_IndexType : string
}.

Record PrimaryKeyModel := {
  pk_Name : string;
  pk_Columns : list string
}.

Record TableModel := {
  t_Name : string;
  t_Columns : list ColumnModel;
  t_Indexes : list IndexModel;
  t_PrimaryKey : option PrimaryKeyModel
}.

(** plan.go: [DifferenceType], [Difference], [SyncPlan]. *)
Inductive DifferenceType :=
| AddColumn | ModifyColumn | DropColumn
| AddIndex | ModifyIndex | DropIndex
| AddPrimaryKey | DropPrimaryKey.

Record Difference := {
  d_Type : DifferenceType;
  d_Name : string;
  d_Description : string;
  d_SQL : string
}.

Record SyncPlan := {
  p_TableName : string;
  p_Differences : list Difference;
  p_Status : string
}.

Definition appendDiffs (plan : SyncPlan) (ds : list Difference) : SyncPlan :=
  {| p_TableName := p_TableName plan;
     p_Differences := p_Differences plan ++ ds;
     p_Status := p_Status plan |}.

(** *** What the catalog returns

    A query either fails or yields a cursor: the rows it delivers (a
    row whose [Scan] fails is an [Err]) and the error [rows.Err()]
    reports once [rows.Next()] has returned false. *)

Record Rows (A : Type) := {
  rows_items : list (result A);
  rows_err : option error
}.
Arguments rows_items {A} r.
Arguments rows_err {A} r.

(** One row of INFORMATION_SCHEMA.COLUMNS as scanned: name, type,
    nullability, key role, default, extra. *)
Record ColumnRow := {
  cr_Name : string;
  cr_DataType : string;
  cr_IsNullable : string;
  cr_ColumnKey : string;
  cr_DefaultValue : NullString;
  cr_Extra : string
}.

(** One row of INFORMATION_SCHEMA.STATISTICS as scanned. *)
Record IndexRow := {
  ir_idxName : string;
  ir_colName : string;
  ir_nonUnique : Z;
  ir_idxType : string
}.

(** A [*sql.DB] as [getTableStructure] uses it. *)
Record Catalog := {
  selectDatabase : result string;
  queryColumns : string -> string -> result (Rows ColumnRow);
  queryIndexes : string -> string -> result (Rows IndexRow)
}.

Definition columnOfRow (r : ColumnRow) : ColumnModel :=
  {| c_Name := cr_Name r;
     c_DataType := cr_DataType r;
     c_IsNullable := cr_IsNullable r;
     c_ColumnKey := cr_ColumnKey r;
     c_DefaultValue := cr_DefaultValue r;
     c_Extra := cr_Extra r;
     c_OnUpdate :=
       if contains (cr_Extra r) "on update CURRENT_TIMESTAMP"
       then {| Str := "CURRENT_TIMESTAMP"; Valid := true |}
       else {| Str := ""; Valid := false |} |}.

(** The primary key after one more column: created on the first "PRI"
    column, extended by the later ones. *)
Definition notePrimary (pk : option PrimaryKeyModel) (col : ColumnModel)
  : option PrimaryKeyModel :=
  if String.eqb (c_ColumnKey col) "PRI" then
    match pk with
    | None => Some {| pk_Name := "PRIMARY"; pk_Columns := [c_Name col] |}
    | Some p => Some {| pk_Name := pk_Name p;
                        pk_Columns := pk_Columns p ++ [c_Name col] |}
    end
  else pk.

(** The loop over the column cursor. *)
Fixpoint scanColumns (items : list (result ColumnRow))
         (cols : list ColumnModel) (pk : option PrimaryKeyModel)
  : result (list ColumnModel * option PrimaryKeyModel) :=
  match items with
  | [] => Ok (cols, pk)
  | Err e :: _ => Err (wrap "failed to scan column row" e)
  | Ok r :: rest =>
      let col := columnOfRow r in
      scanColumns rest (cols ++ [col]) (notePrimary pk col)
  end.

(** The loop over the index cursor, filling [indexMap]. *)
Fixpoint scanIndexes (items : list (result IndexRow))
         (indexMap : GoMap.t IndexModel) : result (GoMap.t IndexModel) :=
  match items with
  | [] => Ok indexMap
  | Err e :: _ => Err (wrap "failed to scan index row" e)
  | Ok r :: rest =>
      if String.eqb (ir_idxName r) "PRIMARY" then scanIndexes rest indexMap
      else
        match GoMap.get indexMap (ir_idxName r) with
        | Some idx =>
            scanIndexes rest
              (GoMap.set indexMap (ir_idxName r)
                 {| i_Name := i_Name idx;
                    i_Columns := i_Columns idx ++ [ir_colName r];
                    i_NonUnique := i_NonUnique idx;
                    i_IndexType := i_IndexType idx |})
        | None =>
            scanIndexes rest
              (GoMap.set indexMap (ir_idxName r)
                 {| i_Name := ir_idxName r;
                    i_Columns := [ir_colName r];
                    i_NonUnique := ir_nonUnique r;
                    i_IndexType := ir_idxType r |})
        end
  end.

(** [getTableStructure]; [o] is the order of [range indexMap]. *)
Definition getTableStructure (o : GoMap.RangeOrder) (db : Catalog)
           (tableName : string) : result TableModel :=
  match selectDatabase db with
  | Err e => Err (wrap "failed to get database name" e)
  | Ok dbName =>
  match queryColumns db dbName tableName with
  | Err e => Err (wrap "failed to query columns" e)
  | Ok rows =>
  match scanColumns (rows_items rows) [] None with
  | Err e => Err e
  | Ok (cols, pk) =>
  match rows_err rows with
  | Some e => Err (wrap "error iterating column rows" e)
  | None =>
  match queryIndexes db dbName tableName with
  | Err e => Err (wrap "failed to query indexes" e)
  | Ok irows =>
  match scanIndexes (rows_items irows) [] with
  | Err e => Err e
  | Ok indexMap =>
  match rows_err irows with
  | Some e => Err (wrap "error iterating index rows" e)
  | None =>
      Ok {| t_Name := tableName;
            t_Columns := cols;
            t_Indexes := GoMap.range o indexMap (fun _ idx => [idx]);
            t_PrimaryKey := pk |}
  end end end end end end end.

(** *** Equality tests of the differ *)

Definition columnsAreDifferent (source target : ColumnModel) : bool :=
  if negb (String.eqb (c_DataType source) (c_DataType target))
     || negb (String.eqb (c_IsNullable source) (c_IsNullable target))
     || negb (String.eqb (c_Extra source) (c_Extra target))
  then true
  else if negb (Bool.eqb (Valid (c_DefaultValue source))
                         (Valid (c_DefaultValue target)))
  then true
  else if Valid (c_DefaultValue source) && Valid (c_DefaultValue target)
          && negb (String.eqb (Str (c_DefaultValue source))
                              (Str (c_DefaultValue target)))
  then true
  else if negb (Bool.eqb (Valid (c_OnUpdate source))
                         (Valid (c_OnUpdate target)))
  then true
  else if Valid (c_OnUpdate source) && Valid (c_OnUpdate target)
          && negb (String.eqb (Str (c_OnUpdate source))
                              (Str (c_OnUpdate target)))
  then true
  else false.

(** [for i, col := range source { if col != target[i] { return true } }]
    after the lengths were found equal; [target[i]] out of range
    cannot happen then, and the model answers [true] there. *)
Fixpoint columnsDifferAt (source target : list string) : bool :=
  match source, target with
  | [], _ => false
  | col :: source', t :: target' =>
      if negb (String.eqb col t) then true
      else columnsDifferAt source' target'
  | _ :: _, [] => true
  end.

Definition indexesAreDifferent (source target : IndexModel) : bool :=
  if negb (Z.eqb (i_NonUnique source) (i_NonUnique target))
     || negb (String.eqb (i_IndexType source) (i_IndexType target))
  then true
  else if negb (Nat.eqb (List.length (i_Columns source))
                        (List.length (i_Columns target)))
  then true
  else columnsDifferAt (i_Columns source) (i_Columns target).

Definition primaryKeysAreDifferent (source target : PrimaryKeyModel) : bool :=
  if negb (Nat.eqb (List.length (pk_Columns source))
                   (List.length (pk_Columns target)))
  then true
  else columnsDifferAt (pk_Columns source) (pk_Columns target).

(** *** DDL templates *)

Definition quoted (col : string) : string := "`" ++ col ++ "`".

Definition columnClauses (column : ColumnModel) : list string :=
  (if String.eqb (c_IsNullable column) "NO" then ["NOT NULL"] else [])
  ++ (if Valid (c_DefaultValue column) then
        if String.eqb (Str (c_DefaultValue column)) "CURRENT_TIMESTAMP"
        then ["DEFAULT CURRENT_TIMESTAMP"]
        else ["DEFAULT '" ++ Str (c_DefaultValue column) ++ "'"]
      else [])
  ++ (if Valid (c_OnUpdate column)
         && String.eqb (Str (c_OnUpdate column)) "CURRENT_TIMESTAMP"
      then ["ON UPDATE CURRENT_TIMESTAMP"] else [])
  ++ (if contains (c_Extra column) "auto_increment"
      then ["AUTO_INCREMENT"] else []).

Definition generateAddColumnSQL (tableName : string) (column : ColumnModel)
  : string :=
  join (("ALTER TABLE `" ++ tableName ++ "` ADD COLUMN `" ++ c_Name column
         ++ "` " ++ c_DataType column) :: columnClauses column) " ".

Definition generateModifyColumnSQL (tableName : string) (column : ColumnModel)
  : string :=
  join (("ALTER TABLE `" ++ tableName ++ "` MODIFY COLUMN `" ++ c_Name column
         ++ "` " ++ c_DataType column) :: columnClauses column) " ".

Definition generateAddIndexSQL (tableName : string) (index : IndexModel)
  : string :=
  let indexType := if Z.eqb (i_NonUnique index) 0 then "UNIQUE" else "INDEX" in
  "CREATE " ++ indexType ++ " INDEX `" ++ i_Name index ++ "` ON `"
    ++ tableName ++ "` (" ++ join (List.map quoted (i_Columns index)) ", "
    ++ ") USING " ++ i_IndexType index.

Definition generateAddPrimaryKeySQL (tableName : string) (pk : PrimaryKeyModel)
  : string :=
  "ALTER TABLE `" ++ tableName ++ "` ADD PRIMARY KEY ("
    ++ join (List.map quoted (pk_Columns pk)) ", " ++ ")".

Definition dropIndexDiff (tableName name : string) : Difference :=
  {| d_Type := DropIndex; d_Name := name;
     d_Description := "Drop index '" ++ name ++ "'";
     d_SQL := "DROP INDEX `" ++ name ++ "` ON `" ++ tableName ++ "`" |}.

Definition dropPrimaryKeyDiff (tableName descr : string) : Difference :=
  {| d_Type := DropPrimaryKey; d_Name := "PRIMARY";
     d_Description := descr;
     d_SQL := "ALTER TABLE `" ++ tableName ++ "` DROP PRIMARY KEY" |}.

Definition addPrimaryKeyDiff (tableName descr : string) (pk : PrimaryKeyModel)
  : Difference :=
  {| d_Type := AddPrimaryKey; d_Name := "PRIMARY";
     d_Description := descr;
     d_SQL := generateAddPrimaryKeySQL tableName pk |}.

(** *** The three passes of the differ

    Each pass appends to [plan.Differences]; [oS] and [oT] are the
    orders of its [range] over the source-side and the target-side
    map. *)

(** Body of the first loop of [compareColumns]: a source column. *)
Definition columnToAdd (source : TableModel)
           (targetColumns : GoMap.t ColumnModel)
           (name : string) (sourceCol : ColumnModel) : list Difference :=
  match GoMap.get targetColumns name with
  | None =>
      [{| d_Type := AddColumn; d_Name := name;
          d_Description := "Add column '" ++ name ++ "'";
          d_SQL := generateAddColumnSQL (t_Name source) sourceCol |}]
  | Some _ => []
  end.

(** Body of the second loop of [compareColumns]: a target column. *)
Definition columnToChange (source : TableModel)
           (sourceColumns : GoMap.t ColumnModel)
           (name : string) (targetCol : ColumnModel) : list Difference :=
  match GoMap.get sourceColumns name with
  | Some sourceCol =>
      if columnsAreDifferent sourceCol targetCol then
        [{| d_Type := ModifyColumn; d_Name := name;
            d_Description := "Modify column '" ++ name ++ "'";
            d_SQL := generateModifyColumnSQL (t_Name source) sourceCol |}]
      else []
  | None =>
      [{| d_Type := DropColumn; d_Name := name;
          d_Description := "Drop column '" ++ name ++ "'";
          d_SQL := "ALTER TABLE `" ++ t_Name source ++ "` DROP COLUMN `"
                     ++ name ++ "`" |}]
  end.

Definition compareColumns (oS oT : GoMap.RangeOrder)
           (source target : TableModel) (plan : SyncPlan) : SyncPlan :=
  let sourceColumns := GoMap.of_list c_Name (t_Columns source) in
  let targetColumns := GoMap.of_list c_Name (t_Columns target) in
  let plan :=
    appendDiffs plan
      (GoMap.range oS sourceColumns (columnToAdd source targetColumns)) in
  appendDiffs plan
    (GoMap.range oT targetColumns (columnToChange source sourceColumns)).

Definition recreateIndexDiff (tableName name : string) (sourceIdx : IndexModel)
  : Difference :=
  {| d_Type := AddIndex; d_Name := name;
     d_Description := "Recreate index '" ++ name ++ "'";
     d_SQL := generateAddIndexSQL tableName sourceIdx |}.

(** Body of the first loop of [compareIndexes]: a source index. *)
Definition indexToAdd (source : TableModel)
           (targetIndexes : GoMap.t IndexModel)
           (name : string) (sourceIdx : IndexModel) : list Difference :=
  match GoMap.get targetIndexes name with
  | None =>
      [{| d_Type := AddIndex; d_Name := name;
          d_Description := "Add index '" ++ name ++ "'";
          d_SQL := generateAddIndexSQL (t_Name source) sourceIdx |}]
  | Some targetIdx =>
      if indexesAreDifferent sourceIdx targetIdx then
        [dropIndexDiff (t_Name source) name;
         recreateIndexDiff (t_Name source) name sourceIdx]
      else []
  end.

(** Body of the second loop of [compareIndexes]: a target index. *)
Definition indexToDrop (source : TableModel)
           (sourceIndexes : GoMap.t IndexModel)
           (name : string) (_ : IndexModel) : list Difference :=
  match GoMap.get sourceIndexes name with
  | None => [dropIndexDiff (t_Name source) name]
  | Some _ => []
  end.

Definition compareIndexes (oS oT : GoMap.RangeOrder)
           (source target : TableModel) (plan : SyncPlan) : SyncPlan :=
  let sourceIndexes := GoMap.of_list i_Name (t_Indexes source) in
  let targetIndexes := GoMap.of_list i_Name (t_Indexes target) in
  let plan :=
    appendDiffs plan
      (GoMap.range oS sourceIndexes (indexToAdd source targetIndexes)) in
  appendDiffs plan
    (GoMap.range oT targetIndexes (indexToDrop source sourceIndexes)).

Definition comparePrimaryKeys (source target : TableModel) (plan : SyncPlan)
  : SyncPlan :=
  match t_PrimaryKey source, t_PrimaryKey target with
  | None, None => plan
  | None, Some _ =>
      appendDiffs plan [dropPrimaryKeyDiff (t_Name source) "Drop primary key"]
  | Some spk, None =>
      appendDiffs plan [addPrimaryKeyDiff (t_Name source) "Add primary key" spk]
  | Some spk, Some tpk =>
      if primaryKeysAreDifferent spk tpk then
        appendDiffs
          (appendDiffs plan
             [dropPrimaryKeyDiff (t_Name source) "Drop existing primary key"])
          [addPrimaryKeyDiff (t_Name source) "Add new primary key" spk]
      else plan
  end.

(** The iteration orders of one [Compare] call, one per [range]. *)
Record Schedule := {
  o_sourceIndexMap : GoMap.RangeOrder;
  o_targetIndexMap : GoMap.RangeOrder;
  o_sourceColumns : GoMap.RangeOrder;
  o_targetColumns : GoMap.RangeOrder;
  o_sourceIndexes : GoMap.RangeOrder;
  o_targetIndexes : GoMap.RangeOrder
}.

Definition fair_schedule (s : Schedule) : Prop :=
  GoMap.fair (o_sourceIndexMap s) /\ GoMap.fair (o_targetIndexMap s) /\
  GoMap.fair (o_sourceColumns s) /\ GoMap.fair (o_targetColumns s) /\
  GoMap.fair (o_sourceIndexes s) /\ GoMap.fair (o_targetIndexes s).

(** The part of [Compare] after the two snapshots were read. *)
Definition comparePlan (s : Schedule) (tableName : string)
           (sourceTable targetTable : TableModel) : SyncPlan :=
  let plan := {| p_TableName := tableName; p_Differences := [];
                 p_Status := "pending" |} in
  let plan := compareColumns (o_sourceColumns s) (o_targetColumns s)
                             sourceTable targetTable plan in
  let plan := compareIndexes (o_sourceIndexes s) (o_targetIndexes s)
                             sourceTable targetTable plan in
  comparePrimaryKeys sourceTable targetTable plan.

Definition Compare (s : Schedule) (sourceDB targetDB : Catalog)
           (tableName : string) : result SyncPlan :=
  match getTableStructure (o_sourceIndexMap s) sourceDB tableName with
  | Err e => Err (wrap "failed to get source table structure" e)
  | Ok sourceTable =>
      match getTableStructure (o_targetIndexMap s) targetDB tableName with
      | Err e => Err (wrap "failed to get target table structure" e)
      | Ok targetTable => Ok (comparePlan s tableName sourceTable targetTable)
      end
  end.

(** Running a list of emitted statements against a snapshot, for any
    meaning [exec] of one statement: statement after statement, in
    list order. *)
Definition applyDifferences (exec : Difference -> TableModel -> TableModel)
           (ds : list Difference) (target : TableModel) : TableModel :=
  fold_left (fun t d => exec d t) ds target.

End Comparer.

(** ** float64 arithmetic of [syncTable]

    [math.Ceil(float64(totalCount) / float64(batchSize))] works on IEEE
    binary64 numbers.  The values met there are finite and not negative,
    and far from the overflow and underflow thresholds, so a value is
    kept as the rational [num / den] it denotes, and every operation
    rounds its exact result to 53 significant bits, to nearest, ties to
    even. *)

Module Float64.

Local Open Scope Z_scope.

Record t := { num : Z; den : Z }.

Definition zero : t := {| num := 0; den := 1 |}.

(** [floor (log2 (n / d))] for positive [n] and [d]. *)
Definition ilog2 (n d : Z) : Z :=
  let k := Z.log2 n - Z.log2 d in
  if d * 2 ^ Z.max 0 k <=? n * 2 ^ Z.max 0 (- k) then k else k - 1.

(** Nearest integer to [a / b], ties to even, for [a >= 0], [b > 0]. *)
Definition nearest_even (a b : Z) : Z :=
  let q := a / b in
  let r := a mod b in
  if 2 * r <? b then q
  else if b <? 2 * r then q + 1
  else if Z.even q then q else q + 1.

(** The binary64 number nearest to [n / d], for positive [n] and [d]:
    with [e] such that [2^52 <= (n/d) / 2^e < 2^53], the significand is
    the nearest integer to [(n/d) / 2^e] and the value is
    [significand * 2^e]. *)
Definition round (n d : Z) : t :=
  let e := ilog2 n d - 52 in
  let m := nearest_even (n * 2 ^ Z.max 0 (- e)) (d * 2 ^ Z.max 0 e) in
  {| num := m * 2 ^ Z.max 0 e; den := 2 ^ Z.max 0 (- e) |}.

(** [float64(n)] for an integer [n >= 0]. *)
Definition of_int (n : Z) : t :=
  if n =? 0 then zero else round n 1.

(** [a / b] for [a >= 0] and [b > 0]. *)
Definition div (a b : t) : t :=
  if num a =? 0 then zero else round (num a * den b) (den a * num b).

(** [int(math.Ceil(a))] *)
Definition ceil (a : t) : Z := - ((- num a) / den a).

End Float64.

(** ** The data-sync service *)

Module Service.

(** The two gorm handles of [SyncService]. *)
Inductive Side := SourceDB | TargetDB.

(** [time.Time], as an instant on a line; the zero value is [0]. *)
Definition Time := Z.

(** A cell of a scanned row, [interface{}]. *)
Inductive Value :=
| VNull
| VInt (z : Z)
| VText (s : string)
| VTime (t : Time).

(** [map[string]interface{}]: one row, column name to value. *)
Definition Row := list (string * Value).

Record ColumnDetail := {
  ColumnName : string;
  ColumnType : string;
  IsNullable : string;
  ColumnDefault : NullString;
  Extra : string;
  ColumnComment : string
}.

Record SyncTask := {
  SourceTable : string;
  TargetTable : string;
  LastSyncTime : Z;
  BatchSize : Z;
  Status : string;
  Error : option error
}.

(** config.go *)
Record TablePair := {
  Source : string;
  Target : string;
  CheckMethod : string;
  UpdateField : string
}.

Record SyncConfig := {
  cfg_BatchSize : Z;
  cfg_Interval : Z;
  SyncMode : string;
  TablePairs : list TablePair
}.

(** Statements run inside a transaction, by the template that builds
    their text in the source. *)
Inductive Stmt :=
| DisableForeignKeyChecks
| Upsert (table : string) (record : Row)
| CreateTempLike (tempTable targetTable : string)
| CopyAll (tempTable sourceTable : string)
| DeleteUnmatched (targetTable tempTable primaryKey : string)
| DropTemp (tempTable : string).

Inductive Notification :=
| OnSyncStart
| OnSyncComplete
| OnSyncError (err : error).

(** Everything the service asks of the outside, indexed by what comes
    back: a query of one of the two databases, a step of the open
    transaction on the target, the clock, the observers. *)
Inductive Call : Type -> Type :=
| QColumnDetails (db : Side) (table : string) : Call (result (list ColumnDetail))
| QColumnNames (db : Side) (table : string) : Call (result (list string))
| QPrimaryKey (db : Side) (table : string) : Call (result string)
| QCount (db : Side) (table : string) : Call (result Z)
| QChecksum (db : Side) (table : string) : Call (result Z)
| QLastUpdate (db : Side) (table field : string) : Call (result Time)
| QFindPage (table : string) (offset limit : Z) : Call (result (list Row))
| QFindPageAfter (table field : string) (floor : Time) (offset limit : Z)
  : Call (result (list Row))
| ExecDDL (db : Side) (sql : string) : Call (option error)
| TxBegin : Call (option error)
| TxCommit : Call (option error)
| TxRollback : Call (option error)
| TxExec (s : Stmt) : Call (result Z)
| TxCount (table : string) : Call (result Z)
| Sleep (delay : Z) : Call unit
| UnixNano : Call Z
| Notify (task : SyncTask) (n : Notification) : Call unit.

(** A call together with its answer. *)
Inductive Event :=
| Ev {R : Type} (c : Call R) (r : R).

Section WithDatabase.

(** The outside world: its state and its answer to every call. *)
Variable W : Type.
Variable handle : forall R, Call R -> W -> R * W.

(** A computation runs from a world, and yields a value, the world
    it leaves and the events it caused, oldest first. *)
Definition M (A : Type) : Type := W -> A * W * list Event.

Definition ret {A} (a : A) : M A := fun w => (a, w, []).

Definition bind {A B} (m : M A) (k : A -> M B) : M B :=
  fun w =>
    let '(a, w1, t1) := m w in
    let '(b, w2, t2) := k a w1 in
    (b, w2, (t1 ++ t2)%list).

Definition call {R} (c : Call R) : M R :=
  fun w => let (r, w') := handle R c w in (r, w', [Ev c r]).

Notation "x <- c ;; k" := (bind c (fun x => k))
  (at level 100, c at next level, right associativity).
Notation "c ;;; k" := (bind c (fun _ => k))
  (at level 100, right associativity).

(** gorm's [db.Transaction(fc)]: [Begin], then [fc]; [Commit] when
    [fc] returned nil, [Rollback] when [fc] or [Commit] failed. *)
Definition Transaction (fc : M (option error)) : M (option error) :=
  b <- call TxBegin ;;
  match b with
  | Some e => ret (Some e)
  | None =>
      r <- fc ;;
      match r with
      | Some e => call TxRollback ;;; ret (Some e)
      | None =>
          c <- call TxCommit ;;
          match c with
          | Some e => call TxRollback ;;; ret (Some e)
          | None => ret None
          end
      end
  end.

Variable s_config : SyncConfig.

(** *** Notifications *)

Definition notifyStart (task : SyncTask) : M unit :=
  call (Notify task OnSyncStart).

Definition notifyComplete (task : SyncTask) : M unit :=
  call (Notify task OnSyncComplete).

Definition setStatus (task : SyncTask) (st : string) (e : option error)
  : SyncTask :=
  {| SourceTable := SourceTable task; TargetTable := TargetTable task;
     LastSyncTime := LastSyncTime task; BatchSize := BatchSize task;
     Status := st; Error := e |}.

Definition notifyError (task : SyncTask) (err : error) : M SyncTask :=
  let task := setStatus task "error" (Some err) in
  call (Notify task (OnSyncError err)) ;;; ret task.

(** *** Catalog helpers *)

Definition getColumnDetails (db : Side) (tableName : string)
  : M (result (list ColumnDetail)) :=
  call (QColumnDetails db tableName).

Definition getAllColumns (db : Side) (tableName : string)
  : M (result (list string)) :=
  r <- call (QColumnNames db tableName) ;;
  match r with
  | Err e => ret (Err (wrap "获取字段列表失败" e))
  | Ok columns =>
      if Nat.eqb (List.length columns) 0
      then ret (Err ("表 " ++ tableName ++ " 没有任何字段"))
      else ret (Ok columns)
  end.

Definition getPrimaryKey (db : Side) (tableName : string)
  : M (result string) :=
  r <- call (QPrimaryKey db tableName) ;;
  match r with
  | Err e => ret (Err e)
  | Ok primaryKey =>
      if String.eqb primaryKey "" then ret (Ok "id") else ret (Ok primaryKey)
  end.

Fixpoint findPair (pairs : list TablePair) (sourceTable : string)
  : option TablePair :=
  match pairs with
  | [] => None
  | p :: rest =>
      if String.eqb (Source p) sourceTable then Some p
      else findPair rest sourceTable
  end.

Definition getTableConfig (sourceTable : string) : TablePair :=
  match findPair (TablePairs s_config) sourceTable with
  | Some p => p
  | None => {| Source := sourceTable; Target := sourceTable;
               CheckMethod := "checksum"; UpdateField := "" |}
  end.

(** *** Change detection *)

Definition checkByChecksum (sourceTable targetTable : string)
  : M (bool * option error) :=
  a <- call (QChecksum SourceDB sourceTable) ;;
  match a with
  | Err e => ret (true, Some (wrap "获取源表校验和失败" e))
  | Ok sourceChecksum =>
      b <- call (QChecksum TargetDB targetTable) ;;
      match b with
      | Err e => ret (true, Some (wrap "获取目标表校验和失败" e))
      | Ok targetChecksum =>
          if negb (Z.eqb sourceChecksum targetChecksum)
          then ret (true, None)
          else ret (false, None)
      end
  end.

Definition checkByCount (sourceTable targetTable : string)
  : M (bool * option error) :=
  a <- call (QCount SourceDB sourceTable) ;;
  match a with
  | Err e => ret (true, Some (wrap "获取源表记录数失败" e))
  | Ok sourceCount =>
      b <- call (QCount TargetDB targetTable) ;;
      match b with
      | Err e => ret (true, Some (wrap "获取目标表记录数失败" e))
      | Ok targetCount =>
          if negb (Z.eqb sourceCount targetCount)
          then ret (true, None)
          else ret (false, None)
      end
  end.

(** [for _, col := range columns { if col == updateField { ... } }] *)
Fixpoint hasField (columns : list string) (updateField : string) : bool :=
  match columns with
  | [] => false
  | col :: rest =>
      if String.eqb col updateField then true else hasField rest updateField
  end.

Definition checkByUpdateTime (sourceTable targetTable updateField : string)
  : M (bool * option error) :=
  r <- getAllColumns SourceDB sourceTable ;;
  match r with
  | Err e => ret (true, Some e)
  | Ok columns =>
      if negb (hasField columns updateField)
      then checkByChecksum sourceTable targetTable
      else
        a <- call (QLastUpdate SourceDB sourceTable updateField) ;;
        match a with
        | Err e => ret (true, Some e)
        | Ok sourceLastUpdate =>
            b <- call (QLastUpdate TargetDB targetTable updateField) ;;
            match b with
            | Err e => ret (true, Some e)
            | Ok targetLastUpdate =>
                ret (negb (Z.eqb sourceLastUpdate targetLastUpdate), None)
            end
        end
  end.

Definition needSync (task : SyncTask) (columns : list string)
  : M (bool * option error) :=
  let tablePair := getTableConfig (SourceTable task) in
  if String.eqb (CheckMethod tablePair) "update_time" then
    if String.eqb (UpdateField tablePair) "" then
      checkByChecksum (SourceTable task) (TargetTable task)
    else
      checkByUpdateTime (SourceTable task) (TargetTable task)
                        (UpdateField tablePair)
  else if String.eqb (CheckMethod tablePair) "count" then
    checkByCount (SourceTable task) (TargetTable task)
  else
    checkByChecksum (SourceTable task) (TargetTable task).

(** *** Schema repair *)

(** [strings.ReplaceAll(comment, "'", "\\'")] *)
Fixpoint escapeQuotes (comment : string) : string :=
  match comment with
  | EmptyString => EmptyString
  | String c rest =>
      if Ascii.eqb c "'"%char
      then String "\"%char (String "'"%char (escapeQuotes rest))
      else String c (escapeQuotes rest)
  end.

Definition addColumnSQL (targetTable : string) (col : ColumnDetail)
  : string :=
  "ALTER TABLE `" ++ targetTable ++ "` ADD COLUMN `" ++ ColumnName col
    ++ "` " ++ ColumnType col
    ++ (if String.eqb (IsNullable col) "NO" then " NOT NULL" else " NULL")
    ++ (if Valid (ColumnDefault col)
        then " DEFAULT '" ++ Str (ColumnDefault col) ++ "'" else "")
    ++ (if negb (String.eqb (ColumnComment col) "")
        then " COMMENT '" ++ escapeQuotes (ColumnComment col) ++ "'"
        else "").

(** The loop over the source columns. *)
Fixpoint addMissingColumns (targetTable : string)
         (targetColMap : GoMap.t bool) (sourceCols : list ColumnDetail)
  : M (option error) :=
  match sourceCols with
  | [] => ret None
  | col :: rest =>
      match GoMap.get targetColMap (ColumnName col) with
      | Some true => addMissingColumns targetTable targetColMap rest
      | _ =>
          r <- call (ExecDDL TargetDB (addColumnSQL targetTable col)) ;;
          match r with
          | Some err => ret (Some err)
          | None => addMissingColumns targetTable targetColMap rest
          end
      end
  end.

Definition syncTableSchema (task : SyncTask) : M (option error) :=
  a <- getColumnDetails SourceDB (SourceTable task) ;;
  match a with
  | Err e => ret (Some (wrap "获取源表结构失败" e))
  | Ok sourceCols =>
      b <- getAllColumns TargetDB (TargetTable task) ;;
      match b with
      | Err e => ret (Some (wrap "获取目标表结构失败" e))
      | Ok targetColNames =>
          let targetColMap :=
            fold_left (fun m name => GoMap.set m name true)
                      targetColNames [] in
          addMissingColumns (TargetTable task) targetColMap sourceCols
      end
  end.

(** *** Batch replication *)

Definition retryCount : nat := 3.
(** [100 * time.Millisecond] and [2 * time.Second], in nanoseconds. *)
Definition baseDelay : Z := 100000000.
Definition maxRetryDelay : Z := 2000000000.

(** [time.Duration(float64(baseDelay) * math.Pow(2, float64(attempt)))],
    capped; the product is an integer below [2^53] for the attempts
    0, 1, 2 of the loop, so the float64 arithmetic is exact. *)
Definition backoff (attempt : Z) : Z :=
  let delay := (baseDelay * 2 ^ attempt)%Z in
  if (delay >? maxRetryDelay)%Z then maxRetryDelay else delay.

(** The INSERT ... ON DUPLICATE KEY UPDATE of one record. *)
Definition syncSingleRecord (table : string) (record : Row)
  : M (option error) :=
  r <- call (TxExec (Upsert table record)) ;;
  match r with
  | Err e => ret (Some (wrap "更新记录失败" e))
  | Ok _ => ret None
  end.

(** One pass [for _, record := range records] of attempt [attempt];
    the value is [lastErr] after the pass. *)
Fixpoint applyRecords (table : string) (attempt : Z)
         (records : list Row) (lastErr : option error)
  : M (option error) :=
  match records with
  | [] => ret lastErr
  | record :: rest =>
      r <- syncSingleRecord table record ;;
      match r with
      | Some err =>
          call (Sleep (backoff attempt)) ;;; ret (Some err)
      | None => applyRecords table attempt rest lastErr
      end
  end.

(** [for attempt := 0; attempt < retryCount; attempt++], with
    [remaining] attempts to go; [lastErr] is declared before the
    loop and carried from attempt to attempt. *)
Fixpoint retryLoop (table : string) (records : list Row)
         (remaining : nat) (attempt : Z) (lastErr : option error)
  : M (option error) :=
  match remaining with
  | O =>
      ret (Some (wrap "批量同步失败，已重试 3 次"
                      (match lastErr with
                       | Some e => e
                       | None => "%!w(<nil>)"
                       end)))
  | S remaining' =>
      lastErr' <- applyRecords table attempt records lastErr ;;
      match lastErr' with
      | None => ret None
      | Some _ =>
          retryLoop table records remaining' (attempt + 1)%Z lastErr'
      end
  end.

Definition syncBatchData (table : string) (records : list Row)
  : M (option error) :=
  Transaction (
    call (TxExec DisableForeignKeyChecks) ;;;
    if Nat.eqb (List.length records) 0 then ret None
    else retryLoop table records retryCount 0%Z None).

(** *** Drift cleanup *)

Definition decimal (n : Z) : string :=
  DecimalString.NilZero.string_of_int (Z.to_int n).

Definition cleanupTargetTable (sourceTable targetTable : string)
           (columns : list string) : M (option error) :=
  pk <- getPrimaryKey TargetDB targetTable ;;
  match pk with
  | Err e => ret (Some (wrap "获取主键失败" e))
  | Ok primaryKey =>
      Transaction (
        call (TxExec DisableForeignKeyChecks) ;;;
        c <- call (TxCount targetTable) ;;
        match c with
        | Err e => ret (Some (wrap "检查目标表记录数失败" e))
        | Ok count =>
            if (count =? 0)%Z then ret None
            else
              nanos <- call UnixNano ;;
              let tempTable :=
                "temp_" ++ targetTable ++ "_" ++ decimal nanos in
              r1 <- call (TxExec (CreateTempLike tempTable targetTable)) ;;
              match r1 with
              | Err e => ret (Some (wrap "创建临时表失败" e))
              | Ok _ =>
              r2 <- call (TxExec (CopyAll tempTable sourceTable)) ;;
              match r2 with
              | Err e => ret (Some (wrap "复制数据到临时表失败" e))
              | Ok _ =>
              r3 <- call (TxExec (DeleteUnmatched targetTable tempTable
                                                  primaryKey)) ;;
              match r3 with
              | Err e => ret (Some (wrap "清理目标表失败" e))
              | Ok _ =>
                  call (TxExec (DropTemp tempTable)) ;;; ret None
              end end end
        end)
  end.

(** *** One task run *)

(** [int(math.Ceil(float64(totalCount) / float64(batchSize)))] for a
    count [>= 0] and a batch size [> 0], the sizes [validateConfig]
    lets through.  A negative batch size gives a quotient that is not
    positive, and the page loop does not run: [0] stands for it.  A
    zero batch size gives an infinity or a NaN, whose conversion to
    [int] Go leaves to the platform; the model answers [0] there. *)
Definition totalPages (totalCount batchSize : Z) : Z :=
  if ((0 <=? totalCount) && (0 <? batchSize))%Z then
    Float64.ceil (Float64.div (Float64.of_int totalCount)
                              (Float64.of_int batchSize))
  else 0%Z.

(** The read of one page: the branch on [sync_mode] at the head of
    the loop body.  [sourceRecords] starts as the nil slice. *)
Definition readPage (task : SyncTask) (offset batchSize : Z)
  : M (result (list Row)) :=
  if String.eqb (SyncMode s_config) "full" then
    call (QFindPage (SourceTable task) offset batchSize)
  else
    let tablePair := getTableConfig (SourceTable task) in
    if String.eqb (CheckMethod tablePair) "update_time"
       && negb (String.eqb (UpdateField tablePair) "")
    then
      f <- call (QLastUpdate TargetDB (TargetTable task)
                             (UpdateField tablePair)) ;;
      match f with
      | Err e => ret (Err e)
      | Ok lastTargetUpdate =>
          call (QFindPageAfter (SourceTable task) (UpdateField tablePair)
                               lastTargetUpdate offset batchSize)
      end
    else ret (Ok []).

(** [for page := 0; page < totalPages; page++], with [remaining]
    pages to go; the value is the error that ended the loop. *)
Fixpoint syncPages (task : SyncTask) (batchSize : Z)
         (remaining : nat) (page : Z) : M (option error) :=
  match remaining with
  | O => ret None
  | S remaining' =>
      let offset := (page * batchSize)%Z in
      rd <- readPage task offset batchSize ;;
      match rd with
      | Err err => ret (Some err)
      | Ok sourceRecords =>
          r <- syncBatchData (TargetTable task) sourceRecords ;;
          match r with
          | Some err => ret (Some err)
          | None => syncPages task batchSize remaining' (page + 1)%Z
          end
      end
  end.

Definition complete (task : SyncTask) : M SyncTask :=
  let task := setStatus task "completed" (Error task) in
  notifyComplete task ;;; ret task.

Definition syncTable (task : SyncTask) : M SyncTask :=
  notifyStart task ;;;
  sr <- syncTableSchema task ;;
  match sr with
  | Some err => notifyError task (wrap "同步表结构失败" err)
  | None =>
  cs <- getAllColumns SourceDB (SourceTable task) ;;
  match cs with
  | Err err => notifyError task err
  | Ok columns =>
  ns <- needSync task columns ;;
  match ns with
  | (_, Some err) => notifyError task err
  | (false, None) => complete task
  | (true, None) =>
  tc <- call (QCount SourceDB (SourceTable task)) ;;
  match tc with
  | Err err => notifyError task err
  | Ok totalCount =>
  let batchSize := BatchSize task in
  pr <- syncPages task batchSize
                  (Z.to_nat (totalPages totalCount batchSize)) 0%Z ;;
  match pr with
  | Some err => notifyError task err
  | None =>
  cl <- cleanupTargetTable (SourceTable task) (TargetTable task) columns ;;
  match cl with
  | Some err => notifyError task (wrap "清理目标表失败" err)
  | None => complete task
  end end end end end end.

End WithDatabase.

End Service.

(** ** A small database to run the service against

    One table on each side, rows kept in insertion order, a scripted
    list of failures for the upserts and a switch that makes the
    primary-key query fail.  It answers every call of [Service.Call];
    the runs below use it where a statement needs a concrete world. *)

Module Mem.

Import Service.
Local Open Scope Z_scope.

Record DB := {
  src_columns : list string;
  tgt_columns : list string;
  src_rows : list Row;
  tgt_rows : list Row;
  tmp_rows : list Row;
  tgt_pk : string;
  saved_rows : list Row;
  upsert_faults : list bool;
  pk_fault : bool;
  clock : Z
}.

Definition value_eqb (a b : Value) : bool :=
  match a, b with
  | VNull, VNull => true
  | VInt x, VInt y => x =? y
  | VText x, VText y => String.eqb x y
  | VTime x, VTime y => x =? y
  | _, _ => false
  end.

Fixpoint field (r : Row) (name : string) : Value :=
  match r with
  | [] => VNull
  | (k, v) :: r' => if String.eqb k name then v else field r' name
  end.

Definition time_of (v : Value) : Time :=
  match v with VTime t => t | _ => 0 end.

Definition int_of (v : Value) : Z :=
  match v with VInt z => z | VTime t => t | _ => 0 end.

Definition rows_of (side : Side) (d : DB) : list Row :=
  match side with SourceDB => src_rows d | TargetDB => tgt_rows d end.

Definition columns_of (side : Side) (d : DB) : list string :=
  match side with SourceDB => src_columns d | TargetDB => tgt_columns d end.

Definition detail_of (name : string) : ColumnDetail :=
  {| ColumnName := name; ColumnType := "bigint"; IsNullable := "YES";
     ColumnDefault := nullString_null; Extra := ""; ColumnComment := "" |}.

(** A stand-in for CHECKSUM TABLE: position-weighted sum of the cells. *)
Definition row_sum (r : Row) : Z :=
  fold_left (fun acc kv => 31 * acc + int_of (snd kv) + 1) r 7.

Definition checksum (rows : list Row) : Z :=
  fold_left (fun acc r => 131 * acc + row_sum r) rows 0.

(** The value of [field] in the row ORDER BY [field] DESC LIMIT 1 puts
    first; scanning an empty result leaves the zero time. *)
Definition last_update (rows : list Row) (name : string) : Time :=
  fold_left (fun acc r => Z.max acc (time_of (field r name))) rows 0.

Definition page (rows : list Row) (offset limit : Z) : list Row :=
  firstn (Z.to_nat limit) (skipn (Z.to_nat offset) rows).

Definition with_target (d : DB) (rows : list Row) : DB :=
  {| src_columns := src_columns d; tgt_columns := tgt_columns d;
     src_rows := src_rows d; tgt_rows := rows; tmp_rows := tmp_rows d;
     tgt_pk := tgt_pk d; saved_rows := saved_rows d;
     upsert_faults := upsert_faults d; pk_fault := pk_fault d;
     clock := clock d |}.

Definition with_tmp (d : DB) (rows : list Row) : DB :=
  {| src_columns := src_columns d; tgt_columns := tgt_columns d;
     src_rows := src_rows d; tgt_rows := tgt_rows d; tmp_rows := rows;
     tgt_pk := tgt_pk d; saved_rows := saved_rows d;
     upsert_faults := upsert_faults d; pk_fault := pk_fault d;
     clock := clock d |}.

Definition with_saved (d : DB) (rows : list Row) : DB :=
  {| src_columns := src_columns d; tgt_columns := tgt_columns d;
     src_rows := src_rows d; tgt_rows := tgt_rows d; tmp_rows := tmp_rows d;
     tgt_pk := tgt_pk d; saved_rows := rows;
     upsert_faults := upsert_faults d; pk_fault := pk_fault d;
     clock := clock d |}.

Definition with_faults (d : DB) (fs : list bool) : DB :=
  {| src_columns := src_columns d; tgt_columns := tgt_columns d;
     src_rows := src_rows d; tgt_rows := tgt_rows d; tmp_rows := tmp_rows d;
     tgt_pk := tgt_pk d; saved_rows := saved_rows d;
     upsert_faults := fs; pk_fault := pk_fault d;
     clock := clock d |}.

Definition with_clock (d : DB) (c : Z) : DB :=
  {| src_columns := src_columns d; tgt_columns := tgt_columns d;
     src_rows := src_rows d; tgt_rows := tgt_rows d; tmp_rows := tmp_rows d;
     tgt_pk := tgt_pk d; saved_rows := saved_rows d;
     upsert_faults := upsert_faults d; pk_fault := pk_fault d;
     clock := c |}.

Definition same_key (pk : string) (a b : Row) : bool :=
  value_eqb (field a pk) (field b pk).

(** Insert, or overwrite the row with the same key. *)
Fixpoint upsert (pk : string) (rows : list Row) (r : Row) : list Row :=
  match rows with
  | [] => [r]
  | x :: rows' =>
      if same_key pk x r then r :: rows' else x :: upsert pk rows' r
  end.

Definition matched (pk : string) (tmp : list Row) (r : Row) : bool :=
  existsb (same_key pk r) tmp.

Definition exec (s : Stmt) (d : DB) : result Z * DB :=
  match s with
  | DisableForeignKeyChecks => (Ok 0, d)
  | Upsert _ r =>
      match upsert_faults d with
      | true :: fs => (Err "Error 1213: deadlock", with_faults d fs)
      | false :: fs =>
          (Ok 1, with_target (with_faults d fs) (upsert (tgt_pk d) (tgt_rows d) r))
      | [] => (Ok 1, with_target d (upsert (tgt_pk d) (tgt_rows d) r))
      end
  | CreateTempLike _ _ => (Ok 0, with_tmp d [])
  | CopyAll _ _ => (Ok (Z.of_nat (List.length (src_rows d))), with_tmp d (src_rows d))
  | DeleteUnmatched _ _ pk =>
      let kept := filter (matched pk (tmp_rows d)) (tgt_rows d) in
      (Ok (Z.of_nat (List.length (tgt_rows d)) - Z.of_nat (List.length kept)),
       with_target d kept)
  | DropTemp _ => (Ok 0, with_tmp d [])
  end.

Definition handle (R : Type) (c : Call R) : DB -> R * DB :=
  match c in Call R0 return DB -> R0 * DB with
  | QColumnDetails side _ =>
      fun d => (Ok (List.map detail_of (columns_of side d)), d)
  | QColumnNames side _ => fun d => (Ok (columns_of side d), d)
  | QPrimaryKey _ _ =>
      fun d => (if pk_fault d then Err "Error 1142: SELECT command denied"
                else Ok (tgt_pk d), d)
  | QCount side _ => fun d => (Ok (Z.of_nat (List.length (rows_of side d))), d)
  | QChecksum side _ => fun d => (Ok (checksum (rows_of side d)), d)
  | QLastUpdate side _ name => fun d => (Ok (last_update (rows_of side d) name), d)
  | QFindPage _ offset limit => fun d => (Ok (page (src_rows d) offset limit), d)
  | QFindPageAfter _ name floor offset limit =>
      fun d =>
        (Ok (page (filter (fun r => floor <? time_of (field r name)) (src_rows d))
                  offset limit), d)
  | ExecDDL _ _ => fun d => (None, d)
  | TxBegin => fun d => (None, with_saved d (tgt_rows d))
  | TxCommit => fun d => (None, d)
  | TxRollback => fun d => (None, with_target d (saved_rows d))
  | TxExec s => exec s
  | TxCount _ => fun d => (Ok (Z.of_nat (List.length (tgt_rows d))), d)
  | Sleep delay => fun d => (tt, with_clock d (clock d + delay))
  | UnixNano => fun d => (clock d, d)
  | Notify _ _ => fun d => (tt, d)
  end.

Definition row (id : Z) (updated : Time) : Row :=
  [("id", VInt id); ("updated_at", VTime updated)].

Definition db (src tgt : list Row) : DB :=
  {| src_columns := ["id"; "updated_at"]; tgt_columns := ["id"; "updated_at"];
     src_rows := src; tgt_rows := tgt; tmp_rows := [];
     tgt_pk := "id"; saved_rows := []; upsert_faults := [];
     pk_fault := false; clock := 0 |}.

(** A database whose two tables have the given columns and no row. *)
Definition db_with_columns (src tgt : list string) : DB :=
  {| src_columns := src; tgt_columns := tgt;
     src_rows := []; tgt_rows := []; tmp_rows := [];
     tgt_pk := "id"; saved_rows := []; upsert_faults := [];
     pk_fault := false; clock := 0 |}.

Definition task (batchSize : Z) : SyncTask :=
  {| SourceTable := "t"; TargetTable := "t"; LastSyncTime := 0;
     BatchSize := batchSize; Status := "ready"; Error := None |}.

Definition config (mode method updateField : string) : SyncConfig :=
  {| cfg_BatchSize := 100; cfg_Interval := 60; SyncMode := mode;
     TablePairs := [{| Source := "t"; Target := "t";
                       CheckMethod := method; UpdateField := updateField |}] |}.

End Mem.

(** ** Reading a Difference list *)

Module Plan.

Import Comparer.

Definition isIndexDiff (d : Difference) : bool :=
  match d_Type d with
  | AddIndex | ModifyIndex | DropIndex => true
  | _ => false
  end.

Definition isPrimaryKeyDiff (d : Difference) : bool :=
  match d_Type d with
  | AddPrimaryKey | DropPrimaryKey => true
  | _ => false
  end.

(** An index difference for the index called [name]. *)
Definition aboutIndex (name : string) (d : Difference) : bool :=
  isIndexDiff d && String.eqb (d_Name d) name.

Definition emptyPlan (tableName : string) : SyncPlan :=
  {| p_TableName := tableName; p_Differences := []; p_Status := "pending" |}.

(** What each pass of the differ contributes. *)
Definition columnDiffs (s : Schedule) (source target : TableModel)
  : list Difference :=
  p_Differences (compareColumns (o_sourceColumns s) (o_targetColumns s)
                                source target (emptyPlan "")).

Definition indexDiffs (s : Schedule) (source target : TableModel)
  : list Difference :=
  p_Differences (compareIndexes (o_sourceIndexes s) (o_targetIndexes s)
                                source target (emptyPlan "")).

Definition primaryKeyDiffs (source target : TableModel) : list Difference :=
  p_Differences (comparePrimaryKeys source target (emptyPlan "")).

(** The order Go happens to range in when it follows insertion. *)
Definition inOrder : GoMap.RangeOrder := fun ks => ks.

(** The order Go happens to range in when it runs backwards. *)
Definition backwards : GoMap.RangeOrder := fun ks => rev ks.

Definition schedule (o : GoMap.RangeOrder) : Schedule :=
  {| o_sourceIndexMap := o; o_targetIndexMap := o;
     o_sourceColumns := o; o_targetColumns := o;
     o_sourceIndexes := o; o_targetIndexes := o |}.

Definition column (name type : string) : ColumnModel :=
  {| c_Name := name; c_DataType := type; c_IsNullable := "YES";
     c_ColumnKey := ""; c_DefaultValue := nullString_null;
     c_Extra := ""; c_OnUpdate := nullString_null |}.

Definition index (name : string) (columns : list string) : IndexModel :=
  {| i_Name := name; i_Columns := columns; i_NonUnique := 1;
     i_IndexType := "BTREE" |}.

Definition table (columns : list ColumnModel) (indexes : list IndexModel)
           (pk : option PrimaryKeyModel) : TableModel :=
  {| t_Name := "t"; t_Columns := columns; t_Indexes := indexes;
     t_PrimaryKey := pk |}.

End Plan.

(** ** What the differ compares *)

Module Agreement.

Import Comparer.

(** Two nullable strings agree when both are NULL or both hold the
    same text. *)
Definition sameNull (x y : NullString) : Prop :=
  Valid x = Valid y /\ (Valid x = true -> Str x = Str y).

Definition sameColumn (a b : ColumnModel) : Prop :=
  c_DataType a = c_DataType b /\ c_IsNullable a = c_IsNullable b
  /\ c_Extra a = c_Extra b
  /\ sameNull (c_DefaultValue a) (c_DefaultValue b)
  /\ sameNull (c_OnUpdate a) (c_OnUpdate b).

Definition sameIndex (a b : IndexModel) : Prop :=
  i_NonUnique a = i_NonUnique b /\ i_IndexType a = i_IndexType b
  /\ i_Columns a = i_Columns b.

Definition samePrimaryKey (a b : PrimaryKeyModel) : Prop :=
  pk_Columns a = pk_Columns b.

(** Present on both sides and alike, or absent on both. *)
Definition agree {V} (same : V -> V -> Prop) (x y : option V) : Prop :=
  match x, y with
  | Some a, Some b => same a b
  | None, None => True
  | _, _ => False
  end.

(** The target matches the source in everything the differ looks at:
    columns by name, indexes by name, the primary key.  The position
    of a column, its key-role tag, the order of the index list and the
    table name are not looked at. *)
Definition comparedEqual (source target : TableModel) : Prop :=
  (forall name,
      agree sameColumn
            (GoMap.get (GoMap.of_list c_Name (t_Columns source)) name)
            (GoMap.get (GoMap.of_list c_Name (t_Columns target)) name))
  /\ (forall name,
         agree sameIndex
               (GoMap.get (GoMap.of_list i_Name (t_Indexes source)) name)
               (GoMap.get (GoMap.of_list i_Name (t_Indexes target)) name))
  /\ agree samePrimaryKey (t_PrimaryKey source) (t_PrimaryKey target).

(** Source [t(a, b)] and target [t(b, a)]: the same two columns in
    another order. *)
Definition tableAB : TableModel :=
  Plan.table [Plan.column "a" "int"; Plan.column "b" "int"] [] None.

Definition tableBA : TableModel :=
  Plan.table [Plan.column "b" "int"; Plan.column "a" "int"] [] None.

End Agreement.

(** ** Two snapshots that differ in key column order only *)

Module Permuted.

Import Comparer.

Definition primaryKey (columns : list string) : PrimaryKeyModel :=
  {| pk_Name := "PRIMARY"; pk_Columns := columns |}.

(** [t(a, b)] with index [idx_ab(a, b)] and primary key [(a, b)]. *)
Definition source : TableModel :=
  Plan.table [Plan.column "a" "int"; Plan.column "b" "int"]
             [Plan.index "idx_ab" ["a"; "b"]]
             (Some (primaryKey ["a"; "b"])).

(** The same with [idx_ab(b, a)] and primary key [(b, a)]. *)
Definition target : TableModel :=
  Plan.table [Plan.column "a" "int"; Plan.column "b" "int"]
             [Plan.index "idx_ab" ["b"; "a"]]
             (Some (primaryKey ["b"; "a"])).

End Permuted.

(** ** What the catalog delivers, in catalog order *)

Module Catalogue.

Import Comparer.

Definition notPrimary (r : IndexRow) : bool :=
  negb (String.eqb (ir_idxName r) "PRIMARY").

(** The names of a list, each once, in order of first appearance. *)
Fixpoint distinct (names : list string) : list string :=
  match names with
  | [] => []
  | n :: rest => n :: filter (fun x => negb (String.eqb x n)) (distinct rest)
  end.

(** Index names in the order the statistics query delivers them,
    ORDER BY INDEX_NAME, the primary index left out. *)
Definition catalogIndexNames (rows : list IndexRow) : list string :=
  distinct (List.map ir_idxName (filter notPrimary rows)).

Definition rowsOfIndex (name : string) (rows : list IndexRow)
  : list IndexRow :=
  filter (fun r => String.eqb (ir_idxName r) name) rows.

(** The index called [name]: its columns in SEQ_IN_INDEX order, its
    uniqueness and method from its first row. *)
Definition catalogIndex (rows : list IndexRow) (name : string) : IndexModel :=
  let group := rowsOfIndex name rows in
  {| i_Name := name;
     i_Columns := List.map ir_colName group;
     i_NonUnique := match group with r :: _ => ir_nonUnique r | [] => 0%Z end;
     i_IndexType := match group with r :: _ => ir_idxType r | [] => "" end |}.

Definition catalogIndexes (rows : list IndexRow) : list IndexModel :=
  List.map (catalogIndex rows) (catalogIndexNames rows).

Definition indexMapOf (rows : list IndexRow) : GoMap.t IndexModel :=
  GoMap.tabulate (catalogIndex rows) (catalogIndexNames rows).

Definition isPrimaryColumn (r : ColumnRow) : bool :=
  String.eqb (cr_ColumnKey r) "PRI".

(** The primary key: the "PRI" columns in ordinal order, if any. *)
Definition catalogPrimaryKey (rows : list ColumnRow)
  : option PrimaryKeyModel :=
  match filter isPrimaryColumn rows with
  | [] => None
  | pri => Some {| pk_Name := "PRIMARY"; pk_Columns := List.map cr_Name pri |}
  end.

(** A database that answers both catalog queries without error. *)
Definition catalogOf (dbName : string) (columns : list ColumnRow)
           (indexes : list IndexRow) : Catalog :=
  {| selectDatabase := Ok dbName;
     queryColumns := fun _ _ =>
       Ok {| rows_items := List.map Ok columns; rows_err := None |};
     queryIndexes := fun _ _ =>
       Ok {| rows_items := List.map Ok indexes; rows_err := None |} |}.

Definition columnRow (name key : string) : ColumnRow :=
  {| cr_Name := name; cr_DataType := "int"; cr_IsNullable := "NO";
     cr_ColumnKey := key; cr_DefaultValue := nullString_null;
     cr_Extra := "" |}.

Definition indexRow (idx col : string) : IndexRow :=
  {| ir_idxName := idx; ir_colName := col; ir_nonUnique := 1%Z;
     ir_idxType := "BTREE" |}.

(** [t(id, a, b)] with primary key [(id)] and the indexes [idx_a(a)]
    and [idx_b(b, a)]. *)
Definition twoIndexColumns : list ColumnRow :=
  [columnRow "id" "PRI"; columnRow "a" "MUL"; columnRow "b" "MUL"].

Definition twoIndexRows : list IndexRow :=
  [indexRow "PRIMARY" "id"; indexRow "idx_a" "a";
   indexRow "idx_b" "b"; indexRow "idx_b" "a"].

Definition twoIndexCatalog : Catalog :=
  catalogOf "shop" twoIndexColumns twoIndexRows.

(** A table the catalog knows nothing about: no column row, no index
    row, no error. *)
Definition ghostCatalog : Catalog := catalogOf "shop" [] [].

End Catalogue.

(** ** Reading a run of the service *)

Module Trace.

Import Service.

(** The statement that writes a row into the target. *)
Definition isUpsert (e : Event) : bool :=
  match e with
  | Ev c _ => match c with TxExec (Upsert _ _) => true | _ => false end
  end.

(** A read of a page of source rows. *)
Definition isSourceRead (e : Event) : bool :=
  match e with
  | Ev c _ =>
      match c with
      | QFindPage _ _ _ => true
      | QFindPageAfter _ _ _ _ _ => true
      | _ => false
      end
  end.

(** The maximum-timestamp query of the update_time strategy. *)
Definition isLastUpdate (e : Event) : bool :=
  match e with
  | Ev c _ => match c with QLastUpdate _ _ _ => true | _ => false end
  end.

Definition isBegin (e : Event) : bool :=
  match e with
  | Ev c _ => match c with TxBegin => true | _ => false end
  end.

(** A step of a transaction on the target, or a backoff sleep. *)
Definition isTransactional (e : Event) : bool :=
  match e with
  | Ev c _ =>
      match c with
      | TxBegin | TxCommit | TxRollback | TxExec _ | TxCount _ | Sleep _ => true
      | _ => false
      end
  end.

(** The transactions begun: one per call of [syncBatchData]. *)
Definition batches (tr : list Event) : nat := List.length (filter isBegin tr).

(** The floors read from the target: the answers to its
    maximum-timestamp query, in order. *)
Definition floorReads (tr : list Event) : list Time :=
  flat_map (fun e =>
    match e with
    | Ev c r =>
        match c in Call R return R -> list Time with
        | QLastUpdate TargetDB _ _ =>
            fun r => match r with Ok t => [t] | Err _ => [] end
        | _ => fun _ => []
        end r
    end) tr.

(** The floors the source pages were filtered against, in order. *)
Definition pageFloors (tr : list Event) : list Time :=
  flat_map (fun e =>
    match e with
    | Ev c _ =>
        match c with
        | QFindPageAfter _ _ floor _ _ => [floor]
        | _ => []
        end
    end) tr.

(** The page reads, filtered or not: table, offset, limit, in order. *)
Definition pageReads (tr : list Event) : list (string * Z * Z) :=
  flat_map (fun e =>
    match e with
    | Ev c _ =>
        match c with
        | QFindPage table offset limit => [(table, offset, limit)]
        | QFindPageAfter table _ _ offset limit => [(table, offset, limit)]
        | _ => []
        end
    end) tr.

(** The delays slept, in order. *)
Definition sleeps (tr : list Event) : list Z :=
  flat_map (fun e =>
    match e with
    | Ev c _ => match c with Sleep delay => [delay] | _ => [] end
    end) tr.

(** Neither a page read from the source nor a row written to the
    target. *)
Definition noReplication (e : Event) : bool :=
  negb (isUpsert e) && negb (isSourceRead e).

(** Every event a computation causes, from any world, satisfies [P]. *)
Definition emits {W A} (P : Event -> bool) (m : M W A) : Prop :=
  forall w, forallb P (snd (m w)) = true.

(** The outcome of a run that came after the events [tr]. *)
Definition after {W A} (tr : list Event) (r : A * W * list Event)
  : A * W * list Event :=
  let '(a, w, t) := r in (a, w, (tr ++ t)%list).

(** From [w] the run of [task] passes schema repair, the column listing
    and change detection with the answer "sync needed", then counts
    [totalCount] source rows: it stands before the page loop in world
    [w'], having caused the events [tr]. *)
Definition reachesPages {W} (handle : forall R, Call R -> W -> R * W)
           (cfg : SyncConfig) (task : SyncTask) (w : W)
           (columns : list string) (totalCount : Z)
           (w' : W) (tr : list Event) : Prop :=
  exists w1 w2 t2 w3 t3 w4 t4,
    handle _ (Notify task OnSyncStart) w = (tt, w1)
    /\ syncTableSchema W handle task w1 = (None, w2, t2)
    /\ getAllColumns W handle SourceDB (SourceTable task) w2
       = (Ok columns, w3, t3)
    /\ needSync W handle cfg task columns w3 = ((true, None), w4, t4)
    /\ handle _ (QCount SourceDB (SourceTable task)) w4 = (Ok totalCount, w')
    /\ tr = (Ev (Notify task OnSyncStart) tt :: t2 ++ t3 ++ t4
               ++ [Ev (QCount SourceDB (SourceTable task)) (Ok totalCount)])%list.

End Trace.

(** ** Runs on the small database *)

Module Runs.

Import Service.
Local Open Scope Z_scope.

(** A page of one record against a target whose first two upserts fail
    and whose third succeeds. *)
Definition flakyTarget : Mem.DB := Mem.with_faults (Mem.db [] []) [true; true].

Definition flakyPage : list Row := [Mem.row 1 10].

Definition flakyRun : option error * Mem.DB * list Event :=
  syncBatchData Mem.DB Mem.handle "t" flakyPage flakyTarget.

(** Incremental mode with the update_time strategy, batch size 1, two
    source rows stamped 10 and 20, an empty target. *)
Definition incrementalConfig : SyncConfig :=
  Mem.config "incremental" "update_time" "updated_at".

Definition twoRows : Mem.DB := Mem.db [Mem.row 1 10; Mem.row 2 20] [].

Definition incrementalPages : option error * Mem.DB * list Event :=
  syncPages Mem.DB Mem.handle incrementalConfig (Mem.task 1) 1 2 0 twoRows.

End Runs.

(** ** The end of a task run *)

Module Closing.

Import Service.

(** The end of [syncTable], after the page loop: drift cleanup, then
    the status update that its result decides. *)
Definition cleanupAndComplete {W} (handle : forall R, Call R -> W -> R * W)
           (task : SyncTask) (columns : list string) : M W SyncTask :=
  bind W (cleanupTargetTable W handle (SourceTable task) (TargetTable task)
                             columns)
       (fun cl =>
          match cl with
          | Some err => notifyError W handle task (wrap "清理目标表失败" err)
          | None => complete W handle task
          end).

(** The page loop of [syncTable] and what follows it. *)
Definition pagesThenCleanup {W} (handle : forall R, Call R -> W -> R * W)
           (cfg : SyncConfig) (task : SyncTask) (columns : list string)
           (totalCount : Z) : M W SyncTask :=
  bind W (syncPages W handle cfg task (BatchSize task)
                    (Z.to_nat (totalPages totalCount (BatchSize task))) 0%Z)
       (fun pr =>
          match pr with
          | Some err => notifyError W handle task err
          | None => cleanupAndComplete handle task columns
          end).

End Closing.

(** ** More runs on the small database *)

Module Scenes.

Import Service.
Local Open Scope Z_scope.

(** Full mode, checksum strategy: an empty source, a target holding one
    row, and a primary-key query that fails. *)
Definition fullConfig : SyncConfig := Mem.config "full" "checksum" "".

Definition emptySourceNoKey : Mem.DB :=
  {| Mem.src_columns := ["id"; "updated_at"];
     Mem.tgt_columns := ["id"; "updated_at"];
     Mem.src_rows := []; Mem.tgt_rows := [Mem.row 3 5]; Mem.tmp_rows := [];
     Mem.tgt_pk := "id"; Mem.saved_rows := []; Mem.upsert_faults := [];
     Mem.pk_fault := true; Mem.clock := 0 |}.

Definition emptySourceRun : SyncTask * Mem.DB * list Event :=
  syncTable Mem.DB Mem.handle fullConfig (Mem.task 100) emptySourceNoKey.

(** The same without the failure. *)
Definition emptySource : Mem.DB := Mem.db [] [Mem.row 3 5].

(** Full mode, three source rows, batch size 2. *)
Definition threeRows : Mem.DB :=
  Mem.db [Mem.row 1 10; Mem.row 2 20; Mem.row 3 30] [].

(** Incremental mode with the checksum strategy: the source holds row 1,
    the target holds row 3. *)
Definition checksumConfig : SyncConfig := Mem.config "incremental" "checksum" "".

Definition drifted : Mem.DB := Mem.db [Mem.row 1 10] [Mem.row 3 5].

Definition driftedRun : SyncTask * Mem.DB * list Event :=
  syncTable Mem.DB Mem.handle checksumConfig (Mem.task 1) drifted.

(** The world and the events of a run when the page loop is reached. *)
Definition beforePages (cfg : SyncConfig) (task : SyncTask) (d : Mem.DB)
  : Mem.DB * list Event :=
  let '(_, d1, t1) := notifyStart Mem.DB Mem.handle task d in
  let '(_, d2, t2) := syncTableSchema Mem.DB Mem.handle task d1 in
  let '(cs, d3, t3) :=
    getAllColumns Mem.DB Mem.handle SourceDB (SourceTable task) d2 in
  let columns := match cs with Ok c => c | Err _ => [] end in
  let '(_, d4, t4) := needSync Mem.DB Mem.handle cfg task columns d3 in
  let '(_, d5, t5) :=
    call Mem.DB Mem.handle (QCount SourceDB (SourceTable task)) d4 in
  (d5, (t1 ++ t2 ++ t3 ++ t4 ++ t5)%list).

(** The page loop of that run, [pages] pages from the world it reaches. *)
Definition pageLoop (cfg : SyncConfig) (task : SyncTask) (pages : nat)
           (d : Mem.DB) : option error * Mem.DB * list Event :=
  syncPages Mem.DB Mem.handle cfg task (BatchSize task) pages 0
            (fst (beforePages cfg task d)).

(** A task that an earlier run left in error, run again against the
    empty source. *)
Definition failedBefore : SyncTask :=
  setStatus (Mem.task 2) "error" (Some "old failure").

Definition rerun : SyncTask * Mem.DB * list Event :=
  syncTable Mem.DB Mem.handle fullConfig failedBefore emptySource.

End Scenes.

(** ** Kinds of differences and one-sided snapshots *)

Module Kinds.

Import Comparer.

Definition isColumnDiff (d : Difference) : bool :=
  match d_Type d with
  | AddColumn | ModifyColumn | DropColumn => true
  | _ => false
  end.

Definition isAdd (d : Difference) : bool :=
  match d_Type d with
  | AddColumn | AddIndex | AddPrimaryKey => true
  | _ => false
  end.

Definition isDrop (d : Difference) : bool :=
  match d_Type d with
  | DropColumn | DropIndex | DropPrimaryKey => true
  | _ => false
  end.

(** A snapshot with no column, no index and no primary key: what
    [getTableStructure] returns for a table the catalog does not know. *)
Definition isBare (t : TableModel) : Prop :=
  t_Columns t = [] /\ t_Indexes t = [] /\ t_PrimaryKey t = None.

(** The differences of a plan that have a given type and name. *)
Definition emitted (plan : SyncPlan) (ty : DifferenceType) (name : string)
  : Prop :=
  exists d, In d (p_Differences plan) /\ d_Type d = ty /\ d_Name d = name.

End Kinds.

(** ** Snapshots with one column to add, one to modify, one to drop *)

Module Mixed.

Import Comparer.

(** Source [t(a int, b int, c varchar(9))] with index [idx_b(b)] and
    [idx_c(c)]. *)
Definition source : TableModel :=
  Plan.table [Plan.column "a" "int"; Plan.column "b" "int";
              Plan.column "c" "varchar(9)"]
             [Plan.index "idx_b" ["b"]; Plan.index "idx_c" ["c"]] None.

(** Target [t(b int, c int, d int)] with index [idx_c(c, b)] and
    [idx_d(d)]. *)
Definition target : TableModel :=
  Plan.table [Plan.column "b" "int"; Plan.column "c" "int";
              Plan.column "d" "int"]
             [Plan.index "idx_c" ["c"; "b"]; Plan.index "idx_d" ["d"]] None.

Definition bare : TableModel := Plan.table [] [] None.

End Mixed.

(** ** What a run does to the outside *)

Module Conduct.

Import Service.

Definition isNotify (e : Event) : bool :=
  match e with
  | Ev c _ => match c with Notify _ _ => true | _ => false end
  end.

(** Anything but a notification of the observers. *)
Definition quiet (e : Event) : bool := negb (isNotify e).

(** A read of the catalog or of a table: nothing is written. *)
Definition isQuery (e : Event) : bool :=
  match e with
  | Ev c _ =>
      match c with
      | QColumnDetails _ _ | QColumnNames _ _ | QPrimaryKey _ _
      | QCount _ _ | QChecksum _ _ | QLastUpdate _ _ _
      | QFindPage _ _ _ | QFindPageAfter _ _ _ _ _ => true
      | _ => false
      end
  end.

(** How a run left its task: completed, with the error field as it
    was, or failed, with the error recorded. *)
Definition outcome (before after : SyncTask) (n : Notification) : Prop :=
  (n = OnSyncComplete
   /\ after = setStatus before "completed" (Error before))
  \/ (exists err, n = OnSyncError err
                  /\ after = setStatus before "error" (Some err)).

(** The DDL statements run outside a transaction, in order: on which
    database, the text, the answer. *)
Definition ddl (tr : list Event) : list (Side * string * option error) :=
  flat_map (fun e =>
    match e with
    | Ev c r =>
        match c in Call R return R -> list (Side * string * option error) with
        | ExecDDL db sql => fun r => [(db, sql, r)]
        | _ => fun _ => []
        end r
    end) tr.

Definition accepted (x : Side * string * option error) : bool :=
  match snd x with None => true | Some _ => false end.

(** The source columns whose name is not among the target's. *)
Definition missingColumns (targetColNames : list string)
           (sourceCols : list ColumnDetail) : list ColumnDetail :=
  filter (fun col =>
            negb (existsb (String.eqb (ColumnName col)) targetColNames))
         sourceCols.

(** The statements run inside transactions, in order, each with whether
    it went through. *)
Definition executed (tr : list Event) : list (Stmt * bool) :=
  flat_map (fun e =>
    match e with
    | Ev c r =>
        match c in Call R return R -> list (Stmt * bool) with
        | TxExec s =>
            fun r => [(s, match r with Ok _ => true | Err _ => false end)]
        | _ => fun _ => []
        end r
    end) tr.

Definition statements (tr : list Event) : list Stmt :=
  List.map fst (executed tr).

(** The statements of a complete drift cleanup. *)
Definition cleanupScript (sourceTable targetTable tempTable primaryKey : string)
  : list Stmt :=
  [DisableForeignKeyChecks;
   CreateTempLike tempTable targetTable;
   CopyAll tempTable sourceTable;
   DeleteUnmatched targetTable tempTable primaryKey;
   DropTemp tempTable].

(** A detector that reports an error also reports "sync needed". *)
Definition cautious {W} (m : M W (bool * option error)) : Prop :=
  forall w, snd (fst (fst (m w))) <> None -> fst (fst (fst (m w))) = true.

(** A run of [task] that ends with one notification, its outcome. *)
Definition ends {W} (task : SyncTask) (r : SyncTask * W * list Event) : Prop :=
  exists body n,
    snd r = (body ++ [Ev (Notify (fst (fst r)) n) tt])%list
    /\ forallb quiet body = true
    /\ outcome task (fst (fst r)) n.

End Conduct.

(** ** Schema repair and batch effort, in the terms of a run *)

Module Effort.

Import Service.

(** The column is not marked present in the map of target columns. *)
Definition wanted (targetColMap : GoMap.t bool) (col : ColumnDetail) : bool :=
  match GoMap.get targetColMap (ColumnName col) with
  | Some true => false
  | _ => true
  end.

(** The upserts of a run. *)
Definition upserts (tr : list Event) : nat :=
  List.length (filter Trace.isUpsert tr).

(** Time slept in a run, in nanoseconds. *)
Definition slept (tr : list Event) : Z :=
  fold_right Z.add 0%Z (Trace.sleeps tr).

(** Target missing the columns [name] and [age] of the source. *)
Definition narrowTarget : Mem.DB :=
  Mem.db_with_columns ["id"; "name"; "age"] ["id"].

(** A page of two records for an empty target. *)
Definition twoRecords : list Row := [Mem.row 1 10%Z; Mem.row 2 20%Z].

(** What the attempts left in the retry loop may sleep at most. *)
Fixpoint budget (attempt : Z) (remaining : nat) : Z :=
  match remaining with
  | O => 0%Z
  | S n => (backoff attempt + budget (attempt + 1) n)%Z
  end.

(** An empty target that rejects nothing. *)
Definition emptyTarget : Mem.DB := Mem.db [] [].

End Effort.

(** ** Configuration and start-up: config.go, [NewSyncService] *)

Module Config.

Import Service.

Record ServerConfig := {
  srv_Port : Z;
  srv_Host : string
}.

Record DBConnection := {
  conn_Host : string;
  conn_Port : Z;
  conn_User : string;
  conn_Password : string;
  conn_Database : string
}.

Record DatabaseConfig := {
  db_Source : DBConnection;
  db_Target : DBConnection
}.

Record Config := {
  Server : ServerConfig;
  Database : DatabaseConfig;
  Sync : SyncConfig
}.

(** The loop of [validateConfig] over the table pairs. *)
Fixpoint validatePairs (pairs : list TablePair) : option error :=
  match pairs with
  | [] => None
  | tp :: rest =>
      if String.eqb (Source tp) "" || String.eqb (Target tp) "" then
        Some "table pair source and target must not be empty"
      else if String.eqb (CheckMethod tp) "update_time"
              && String.eqb (UpdateField tp) "" then
        Some "update_field is required when check_method is update_time"
      else if negb (String.eqb (CheckMethod tp) "checksum")
              && negb (String.eqb (CheckMethod tp) "count")
              && negb (String.eqb (CheckMethod tp) "update_time") then
        Some ("invalid check_method: " ++ CheckMethod tp)
      else validatePairs rest
  end.

Definition validateConfig (cfg : Config) : option error :=
  if String.eqb (conn_Password (db_Source (Database cfg))) "" then
    Some "source database password is required"
  else if String.eqb (conn_Password (db_Target (Database cfg))) "" then
    Some "target database password is required"
  else if (cfg_BatchSize (Sync cfg) <=? 0)%Z then
    Some "batch_size must be greater than 0"
  else if (cfg_Interval (Sync cfg) <=? 0)%Z then
    Some "sync interval must be greater than 0"
  else validatePairs (TablePairs (Sync cfg)).

(** [fmt.Sprintf("%s:%s@tcp(%s:%d)/%s?charset=utf8mb4&parseTime=True", ...)] *)
Definition GetDSN (d : DBConnection) : string :=
  conn_User d ++ ":" ++ conn_Password d ++ "@tcp(" ++ conn_Host d ++ ":"
    ++ decimal (conn_Port d) ++ ")/" ++ conn_Database d
    ++ "?charset=utf8mb4&parseTime=True".

(** The head of [initDB]: the DSN it opens. *)
Definition initDSN (dsn : string) : string :=
  (if negb (contains dsn "?") then dsn ++ "?" else dsn ++ "&")
    ++ "sql_mode='ALLOW_INVALID_DATES'".

Definition AddSyncTask (cfg : Config) (tasks : GoMap.t SyncTask)
           (sourceTable targetTable : string) : GoMap.t SyncTask :=
  GoMap.set tasks sourceTable
            {| SourceTable := sourceTable; TargetTable := targetTable;
               LastSyncTime := 0; BatchSize := cfg_BatchSize (Sync cfg);
               Status := "ready"; Error := None |}.

(** The task map [NewSyncService] leaves: one [AddSyncTask] per table
    pair, in configuration order. *)
Definition initialTasks (cfg : Config) : GoMap.t SyncTask :=
  fold_left (fun tasks tp => AddSyncTask cfg tasks (Source tp) (Target tp))
            (TablePairs (Sync cfg)) [].

(** What [validateConfig] asks of one table pair. *)
Definition validPair (tp : TablePair) : Prop :=
  Source tp <> "" /\ Target tp <> ""
  /\ (CheckMethod tp = "checksum" \/ CheckMethod tp = "count"
      \/ (CheckMethod tp = "update_time" /\ UpdateField tp <> "")).

(** The task [AddSyncTask] makes for a table pair. *)
Definition taskOf (cfg : Config) (tp : TablePair) : SyncTask :=
  {| SourceTable := Source tp; TargetTable := Target tp;
     LastSyncTime := 0; BatchSize := cfg_BatchSize (Sync cfg);
     Status := "ready"; Error := None |}.

Definition connection (password : string) : DBConnection :=
  {| conn_Host := "127.0.0.1"; conn_Port := 3306; conn_User := "root";
     conn_Password := password; conn_Database := "shop" |}.

(** Two table pairs: [orders] by update time, [users] by count. *)
Definition sample : Config :=
  {| Server := {| srv_Port := 28081; srv_Host := "0.0.0.0" |};
     Database := {| db_Source := connection "s3cret";
                    db_Target := connection "t0ken" |};
     Sync := {| cfg_BatchSize := 100; cfg_Interval := 60;
                SyncMode := "incremental";
                TablePairs :=
                  [{| Source := "orders"; Target := "orders_copy";
                      CheckMethod := "update_time";
                      UpdateField := "updated_at" |};
                   {| Source := "users"; Target := "users";
                      CheckMethod := "count"; UpdateField := "" |}] |} |}.

End Config.

(** ** The compare command: cmd/compare.go, plan.go *)

Module Cmd.

Import Comparer.

Record MergedSyncPlan := {
  m_Tables : list SyncPlan;
  m_TotalTables : Z;
  m_TotalDiffs : Z;
  m_Status : string
}.

(** The loop of the merged-output mode over the source's tables;
    [compare] is [comparer.Compare] against the two databases as they
    stand. *)
Fixpoint collectPlans (compare : string -> result SyncPlan)
         (tableNames : list string)
         (allPlans : list SyncPlan) (totalDiffs : Z) : list SyncPlan * Z :=
  match tableNames with
  | [] => (allPlans, totalDiffs)
  | tbl :: rest =>
      match compare tbl with
      | Err _ => collectPlans compare rest allPlans totalDiffs
      | Ok plan =>
          if Nat.eqb (List.length (p_Differences plan)) 0 then
            collectPlans compare rest allPlans totalDiffs
          else
            collectPlans compare rest (allPlans ++ [plan])
                         (totalDiffs
                          + Z.of_nat (List.length (p_Differences plan)))%Z
      end
  end.

(** The merged plan the command saves; [None] when it returns without
    writing a file. *)
Definition mergePlans (compare : string -> result SyncPlan)
           (tableNames : list string) : option MergedSyncPlan :=
  let '(allPlans, totalDiffs) := collectPlans compare tableNames [] 0%Z in
  if Nat.eqb (List.length allPlans) 0 then None
  else Some {| m_Tables := allPlans;
               m_TotalTables := Z.of_nat (List.length allPlans);
               m_TotalDiffs := totalDiffs;
               m_Status := "completed" |}.

(** The tables of the target that the source does not have. *)
Definition extraTables (sourceTableNames targetTableNames : list string)
  : list string :=
  let sourceTableSet :=
    fold_left (fun m t => GoMap.set m t tt) sourceTableNames [] in
  filter (fun t => match GoMap.get sourceTableSet t with
                   | Some _ => false
                   | None => true
                   end) targetTableNames.

(** [s[n:]] *)
Fixpoint skip (n : nat) (s : string) : string :=
  match n, s with
  | O, _ => s
  | S n', String _ s' => skip n' s'
  | S _, EmptyString => EmptyString
  end.

(** [strings.Replace(s, old, new, 1)] *)
Fixpoint replaceFirst (s old new : string) : string :=
  if String.prefix old s then new ++ skip (String.length old) s
  else match s with
       | EmptyString => EmptyString
       | String c s' => String c (replaceFirst s' old new)
       end.

Definition replaceTableNameInCreateSQL (createSQL oldName newName : string)
  : string :=
  replaceFirst createSQL ("CREATE TABLE `" ++ oldName ++ "`")
               ("CREATE TABLE `" ++ newName ++ "`").

(** What one table contributes to the merged plan. *)
Definition keptPlan (compare : string -> result SyncPlan) (tbl : string)
  : list SyncPlan :=
  match compare tbl with
  | Ok plan =>
      if Nat.eqb (List.length (p_Differences plan)) 0 then [] else [plan]
  | Err _ => []
  end.

Definition totalDifferences (plans : list SyncPlan) : Z :=
  fold_right (fun plan acc =>
                (Z.of_nat (List.length (p_Differences plan)) + acc)%Z)
             0%Z plans.

End Cmd.

(** ** Replication and cleanup, as opposed to looking *)

Module Idle.

Import Service.

(** A step of replication or of drift cleanup: a page read from the
    source, the primary-key lookup, the clock read for the temporary
    table, anything in a transaction, a backoff sleep. *)
Definition isSyncWork (e : Event) : bool :=
  match e with
  | Ev c _ =>
      match c with
      | QFindPage _ _ _ | QFindPageAfter _ _ _ _ _ | QPrimaryKey _ _
      | TxBegin | TxCommit | TxRollback | TxExec _ | TxCount _
      | Sleep _ | UnixNano => true
      | _ => false
      end
  end.

Definition idle (e : Event) : bool := negb (isSyncWork e).

(** Source and target hold the same row. *)
Definition inSync : Mem.DB := Mem.db [Mem.row 1 10%Z] [Mem.row 1 10%Z].

End Idle.

(** ** Carrying out a plan

    The statements of a plan are run by the database, which is not part
    of the program.  What is asked of whoever runs them is stated as a
    contract, relative to the source snapshot the statements were
    rendered from; the differ is then judged against every executor
    that keeps the contract. *)

Module RoundTrip.

Import Comparer Agreement.

(** The columns and the indexes of a snapshot by name, as the differ
    keys them. *)
Definition columnsOf (t : TableModel) : GoMap.t ColumnModel :=
  GoMap.of_list c_Name (t_Columns t).

Definition indexesOf (t : TableModel) : GoMap.t IndexModel :=
  GoMap.of_list i_Name (t_Indexes t).

Definition keepsColumns (t t' : TableModel) : Prop :=
  forall k, GoMap.get (columnsOf t') k = GoMap.get (columnsOf t) k.

Definition keepsIndexes (t t' : TableModel) : Prop :=
  forall k, GoMap.get (indexesOf t') k = GoMap.get (indexesOf t) k.

Definition keepsKey (t t' : TableModel) : Prop :=
  t_PrimaryKey t' = t_PrimaryKey t.

Definition keepsOtherColumns (name : string) (t t' : TableModel) : Prop :=
  forall k, k <> name ->
            GoMap.get (columnsOf t') k = GoMap.get (columnsOf t) k.

Definition keepsOtherIndexes (name : string) (t t' : TableModel) : Prop :=
  forall k, k <> name ->
            GoMap.get (indexesOf t') k = GoMap.get (indexesOf t) k.

(** What a statement about a column, and one about an index, leaves
    alone. *)
Definition restOfColumns (t t' : TableModel) : Prop :=
  keepsIndexes t t' /\ keepsKey t t'.

Definition restOfIndexes (t t' : TableModel) : Prop :=
  keepsColumns t t' /\ keepsKey t t'.

Section Contract.

Variable A : TableModel.
Variable exec : Difference -> TableModel -> TableModel.

(** ADD COLUMN, rendered from the source's column of that name and run
    on a table without such a column, leaves a column there that
    compares equal to the source's, and nothing else changes. *)
Definition addsColumn : Prop :=
  forall d t a,
    d_Type d = AddColumn ->
    GoMap.get (columnsOf A) (d_Name d) = Some a ->
    d_SQL d = generateAddColumnSQL (t_Name A) a ->
    GoMap.get (columnsOf t) (d_Name d) = None ->
    agree sameColumn (Some a) (GoMap.get (columnsOf (exec d t)) (d_Name d))
    /\ keepsOtherColumns (d_Name d) t (exec d t)
    /\ keepsIndexes t (exec d t) /\ keepsKey t (exec d t).

(** MODIFY COLUMN, on a table that has the column. *)
Definition modifiesColumn : Prop :=
  forall d t a,
    d_Type d = ModifyColumn ->
    GoMap.get (columnsOf A) (d_Name d) = Some a ->
    d_SQL d = generateModifyColumnSQL (t_Name A) a ->
    GoMap.get (columnsOf t) (d_Name d) <> None ->
    agree sameColumn (Some a) (GoMap.get (columnsOf (exec d t)) (d_Name d))
    /\ keepsOtherColumns (d_Name d) t (exec d t)
    /\ keepsIndexes t (exec d t) /\ keepsKey t (exec d t).

(** DROP COLUMN, on a table that has the column. *)
Definition dropsColumn : Prop :=
  forall d t,
    d_Type d = DropColumn ->
    d_SQL d = "ALTER TABLE `" ++ t_Name A ++ "` DROP COLUMN `"
                ++ d_Name d ++ "`" ->
    GoMap.get (columnsOf t) (d_Name d) <> None ->
    GoMap.get (columnsOf (exec d t)) (d_Name d) = None
    /\ keepsOtherColumns (d_Name d) t (exec d t)
    /\ keepsIndexes t (exec d t) /\ keepsKey t (exec d t).

(** CREATE INDEX, rendered from the source's index of that name and
    run on a table without such an index. *)
Definition addsIndex : Prop :=
  forall d t i,
    d_Type d = AddIndex ->
    GoMap.get (indexesOf A) (d_Name d) = Some i ->
    d_SQL d = generateAddIndexSQL (t_Name A) i ->
    GoMap.get (indexesOf t) (d_Name d) = None ->
    agree sameIndex (Some i) (GoMap.get (indexesOf (exec d t)) (d_Name d))
    /\ keepsOtherIndexes (d_Name d) t (exec d t)
    /\ keepsColumns t (exec d t) /\ keepsKey t (exec d t).

(** DROP INDEX, on a table that has the index. *)
Definition dropsIndex : Prop :=
  forall d t,
    d_Type d = DropIndex ->
    d_SQL d = "DROP INDEX `" ++ d_Name d ++ "` ON `" ++ t_Name A ++ "`" ->
    GoMap.get (indexesOf t) (d_Name d) <> None ->
    GoMap.get (indexesOf (exec d t)) (d_Name d) = None
    /\ keepsOtherIndexes (d_Name d) t (exec d t)
    /\ keepsColumns t (exec d t) /\ keepsKey t (exec d t).

(** DROP PRIMARY KEY, on a table that has one. *)
Definition dropsKey : Prop :=
  forall d t,
    d_Type d = DropPrimaryKey ->
    d_SQL d = "ALTER TABLE `" ++ t_Name A ++ "` DROP PRIMARY KEY" ->
    t_PrimaryKey t <> None ->
    t_PrimaryKey (exec d t) = None
    /\ keepsColumns t (exec d t) /\ keepsIndexes t (exec d t).

(** ADD PRIMARY KEY, rendered from the source's key and run on a table
    without one. *)
Definition addsKey : Prop :=
  forall d t pk,
    d_Type d = AddPrimaryKey ->
    t_PrimaryKey A = Some pk ->
    d_SQL d = generateAddPrimaryKeySQL (t_Name A) pk ->
    t_PrimaryKey t = None ->
    agree samePrimaryKey (Some pk) (t_PrimaryKey (exec d t))
    /\ keepsColumns t (exec d t) /\ keepsIndexes t (exec d t).

(** The executor does for each statement what its kind says, to the
    object it names, and leaves everything else as it is. *)
Definition Executes : Prop :=
  addsColumn /\ modifiesColumn /\ dropsColumn
  /\ addsIndex /\ dropsIndex /\ dropsKey /\ addsKey.

End Contract.

Definition withColumns (t : TableModel) (columns : list ColumnModel)
  : TableModel :=
  {| t_Name := t_Name t; t_Columns := columns; t_Indexes := t_Indexes t;
     t_PrimaryKey := t_PrimaryKey t |}.

Definition withIndexes (t : TableModel) (indexes : list IndexModel)
  : TableModel :=
  {| t_Name := t_Name t; t_Columns := t_Columns t; t_Indexes := indexes;
     t_PrimaryKey := t_PrimaryKey t |}.

Definition withKey (t : TableModel) (pk : option PrimaryKeyModel)
  : TableModel :=
  {| t_Name := t_Name t; t_Columns := t_Columns t; t_Indexes := t_Indexes t;
     t_PrimaryKey := pk |}.

(** An executor that keeps the contract: a new column or index goes to
    the end of its list, a modified column stays in its place, a
    dropped one is taken out; definitions are looked up in [A] by
    name. *)
Definition carryOut (A : TableModel) (d : Difference) (t : TableModel)
  : TableModel :=
  match d_Type d with
  | AddColumn =>
      match GoMap.get (columnsOf A) (d_Name d) with
      | Some a => withColumns t (t_Columns t ++ [a])
      | None => t
      end
  | ModifyColumn =>
      match GoMap.get (columnsOf A) (d_Name d) with
      | Some a =>
          withColumns t
            (List.map (fun c => if String.eqb (c_Name c) (d_Name d)
                                then a else c) (t_Columns t))
      | None => t
      end
  | DropColumn =>
      withColumns t
        (filter (fun c => negb (String.eqb (c_Name c) (d_Name d)))
                (t_Columns t))
  | AddIndex =>
      match GoMap.get (indexesOf A) (d_Name d) with
      | Some i => withIndexes t (t_Indexes t ++ [i])
      | None => t
      end
  | ModifyIndex => t
  | DropIndex =>
      withIndexes t
        (filter (fun i => negb (String.eqb (i_Name i) (d_Name d)))
                (t_Indexes t))
  | AddPrimaryKey => withKey t (t_PrimaryKey A)
  | DropPrimaryKey => withKey t None
  end.

(** Source [t(id, a, c)] keyed on [(id)] with index [idx_a(a)]; target
    [t(id, a, b)] keyed on [(id, a)], column [a] of another type, with
    the indexes [idx_a(a, b)] and [idx_b(b)]. *)
Definition desired : TableModel :=
  Plan.table [Plan.column "id" "int"; Plan.column "a" "int";
              Plan.column "c" "text"]
             [Plan.index "idx_a" ["a"]]
             (Some {| pk_Name := "PRIMARY"; pk_Columns := ["id"] |}).

Definition current : TableModel :=
  Plan.table [Plan.column "id" "int"; Plan.column "a" "bigint";
              Plan.column "b" "int"]
             [Plan.index "idx_a" ["a"; "b"]; Plan.index "idx_b" ["b"]]
             (Some {| pk_Name := "PRIMARY"; pk_Columns := ["id"; "a"] |}).

End RoundTrip.

(** * Properties *)

(** ** Go maps *)

Section GoMapFacts.

Context {V : Type}.
Implicit Types (m : GoMap.t V) (k : string) (v : V).

Lemma get_set m k v k' :
  GoMap.get (GoMap.set m k v) k' =
  if String.eqb k k' then Some v else GoMap.get m k'.
Proof.
  induction m as [|[k0 v0] m IH]; simpl.
  - reflexivity.
  - destruct (String.eqb_spec k0 k) as [->|Hne]; simpl.
    + destruct (String.eqb k k'); reflexivity.
    + rewrite IH.
      destruct (String.eqb_spec k0 k') as [->|Hne'].
      * destruct (String.eqb_spec k k'); [congruence | reflexivity].
      * reflexivity.
Qed.

Lemma get_in_keys m k :
  In k (GoMap.keys m) <-> GoMap.get m k <> None.
Proof.
  induction m as [|[k0 v0] m IH]; simpl.
  - split; [tauto | congruence].
  - destruct (String.eqb_spec k0 k) as [->|Hne].
    + split; [congruence | auto].
    + rewrite <- IH. split; [intros [H|H]; [congruence | exact H] | auto].
Qed.

Lemma keys_set m k v :
  GoMap.keys (GoMap.set m k v) =
  if in_dec string_dec k (GoMap.keys m) then GoMap.keys m
  else (GoMap.keys m ++ [k])%list.
Proof.
  induction m as [|[k0 v0] m IH]; simpl.
  - reflexivity.
  - destruct (String.eqb_spec k0 k) as [->|Hne]; simpl.
    + destruct (string_dec k k); [reflexivity | congruence].
    + rewrite IH. destruct (string_dec k0 k); [congruence|].
      destruct (in_dec string_dec k (GoMap.keys m)); reflexivity.
Qed.

Lemma nodup_keys_set m k v :
  NoDup (GoMap.keys m) -> NoDup (GoMap.keys (GoMap.set m k v)).
Proof.
  intros H. rewrite keys_set.
  destruct (in_dec string_dec k (GoMap.keys m)) as [|Hn]; [exact H|].
  apply NoDup_app; [exact H | repeat constructor; simpl; tauto |].
  intros x Hx [<-|[]]. contradiction.
Qed.

Lemma nodup_keys_fold (key : V -> string) xs m :
  NoDup (GoMap.keys m) ->
  NoDup (GoMap.keys (fold_left (fun m x => GoMap.set m (key x) x) xs m)).
Proof.
  revert m. induction xs as [|x xs IH]; intros m H; simpl.
  - exact H.
  - apply IH, nodup_keys_set, H.
Qed.

Lemma nodup_keys_of_list (key : V -> string) xs :
  NoDup (GoMap.keys (GoMap.of_list key xs)).
Proof. apply nodup_keys_fold. constructor. Qed.

(** In a list whose keys are distinct, every element is the one the map
    holds under its key. *)
Lemma get_of_list_in (key : V -> string) xs x :
  NoDup (List.map key xs) -> In x xs ->
  GoMap.get (GoMap.of_list key xs) (key x) = Some x.
Proof.
  unfold GoMap.of_list.
  induction xs as [|y xs IH] using rev_ind; intros Hnd Hin; [destruct Hin|].
  rewrite fold_left_app. simpl. rewrite get_set.
  rewrite map_app in Hnd. simpl in Hnd.
  apply in_app_iff in Hin. destruct Hin as [Hin|[->|[]]].
  - destruct (String.eqb_spec (key y) (key x)) as [E|_].
    + exfalso. apply NoDup_remove_2 in Hnd. rewrite app_nil_r in Hnd.
      apply Hnd. rewrite E. apply in_map, Hin.
    + apply IH; [|exact Hin].
      apply NoDup_remove_1 in Hnd. rewrite app_nil_r in Hnd. exact Hnd.
  - rewrite String.eqb_refl. reflexivity.
Qed.

End GoMapFacts.

(** A range whose body yields nothing for every entry yields nothing. *)
Lemma range_nil {V D} (o : GoMap.RangeOrder) (m : GoMap.t V)
      (body : string -> V -> list D) :
  (forall k v, GoMap.get m k = Some v -> body k v = []) ->
  GoMap.range o m body = [].
Proof.
  intros H. unfold GoMap.range.
  induction (o (GoMap.keys m)) as [|k ks IH]; simpl.
  - reflexivity.
  - rewrite IH, app_nil_r.
    destruct (GoMap.get m k) eqn:E; [apply (H _ _ E) | reflexivity].
Qed.

(** ** The differ's equality tests *)

Import Comparer.

Lemma columnsDifferAt_refl l : columnsDifferAt l l = false.
Proof.
  induction l as [|x l IH]; simpl; [reflexivity|].
  rewrite String.eqb_refl. exact IH.
Qed.

Lemma columnsDifferAt_false_eq l1 l2 :
  List.length l1 = List.length l2 ->
  columnsDifferAt l1 l2 = false -> l1 = l2.
Proof.
  revert l2. induction l1 as [|x l1 IH]; intros [|y l2] Hlen H;
    simpl in *; try discriminate; [reflexivity|].
  destruct (String.eqb_spec x y) as [->|]; simpl in H; [|discriminate].
  f_equal. apply IH; [lia | exact H].
Qed.

Lemma columnsAreDifferent_refl c : columnsAreDifferent c c = false.
Proof.
  unfold columnsAreDifferent.
  rewrite !String.eqb_refl, !Bool.eqb_reflx. simpl.
  rewrite !andb_false_r. reflexivity.
Qed.

Lemma indexesAreDifferent_refl i : indexesAreDifferent i i = false.
Proof.
  unfold indexesAreDifferent.
  rewrite Z.eqb_refl, String.eqb_refl, Nat.eqb_refl. simpl.
  apply columnsDifferAt_refl.
Qed.

Lemma primaryKeysAreDifferent_refl pk : primaryKeysAreDifferent pk pk = false.
Proof.
  unfold primaryKeysAreDifferent. rewrite Nat.eqb_refl. simpl.
  apply columnsDifferAt_refl.
Qed.

(** C9. Diffing a snapshot against itself yields an empty Difference
    list: no column, index or primary-key difference is emitted, in
    whatever order the maps are ranged over. *)
Theorem compare_self_is_empty (s : Schedule) (tableName : string)
        (snapshot : TableModel) :
  p_Differences (comparePlan s tableName snapshot snapshot) = [].
Proof.
  unfold comparePlan, comparePrimaryKeys, compareIndexes, compareColumns.
  simpl.
  rewrite !range_nil.
  - simpl. destruct (t_PrimaryKey snapshot) as [pk|]; [|reflexivity].
    rewrite primaryKeysAreDifferent_refl. reflexivity.
  - intros k v E. unfold indexToDrop. rewrite E. reflexivity.
  - intros k v E. unfold indexToAdd. rewrite E.
    rewrite indexesAreDifferent_refl. reflexivity.
  - intros k v E. unfold columnToChange. rewrite E.
    rewrite columnsAreDifferent_refl. reflexivity.
  - intros k v E. unfold columnToAdd. rewrite E. reflexivity.
Qed.

(** ** Shape of a Difference list *)

Import Plan.

Lemma fair_inOrder : GoMap.fair inOrder.
Proof. intros ks. apply Permutation_refl. Qed.

Lemma fair_backwards : GoMap.fair backwards.
Proof. intros ks. apply Permutation_sym, Permutation_rev. Qed.

Lemma fair_schedule_of o : GoMap.fair o -> fair_schedule (schedule o).
Proof. intros H. repeat split; exact H. Qed.


Lemma comparePrimaryKeys_appends source target plan :
  p_Differences (comparePrimaryKeys source target plan) =
  (p_Differences plan ++ primaryKeyDiffs source target)%list.
Proof.
  unfold primaryKeyDiffs, comparePrimaryKeys.
  destruct (t_PrimaryKey source) as [spk|], (t_PrimaryKey target) as [tpk|];
    simpl; try rewrite app_nil_r; try reflexivity.
  destruct (primaryKeysAreDifferent spk tpk); simpl;
    [rewrite <- app_assoc | rewrite app_nil_r]; reflexivity.
Qed.

Lemma comparePlan_diffs s tableName source target :
  p_Differences (comparePlan s tableName source target) =
  (columnDiffs s source target ++ indexDiffs s source target
     ++ primaryKeyDiffs source target)%list.
Proof.
  unfold comparePlan. rewrite comparePrimaryKeys_appends.
  unfold columnDiffs, indexDiffs, compareIndexes, compareColumns. simpl.
  rewrite <- !app_assoc. reflexivity.
Qed.

Lemma columnDiffs_not_index s source target d :
  In d (columnDiffs s source target) ->
  isIndexDiff d = false /\ isPrimaryKeyDiff d = false.
Proof.
  unfold columnDiffs, compareColumns, GoMap.range. simpl.
  rewrite in_app_iff, !in_flat_map.
  intros [(k & _ & H)|(k & _ & H)].
  - destruct (GoMap.get _ k); [|destruct H].
    unfold columnToAdd in H.
    destruct (GoMap.get _ k); [destruct H|].
    destruct H as [<-|[]]. split; reflexivity.
  - destruct (GoMap.get _ k) as [tc|]; [|destruct H].
    unfold columnToChange in H.
    destruct (GoMap.get _ k) as [sc|].
    + destruct (columnsAreDifferent sc tc); [|destruct H].
      destruct H as [<-|[]]. split; reflexivity.
    + destruct H as [<-|[]]. split; reflexivity.
Qed.

Lemma primaryKeyDiffs_not_index source target d :
  In d (primaryKeyDiffs source target) -> isIndexDiff d = false.
Proof.
  unfold primaryKeyDiffs, comparePrimaryKeys.
  destruct (t_PrimaryKey source) as [spk|], (t_PrimaryKey target) as [tpk|];
    simpl; try tauto.
  - destruct (primaryKeysAreDifferent spk tpk); simpl; [|tauto].
    intros [<-|[<-|[]]]; reflexivity.
  - intros [<-|[]]; reflexivity.
  - intros [<-|[]]; reflexivity.
Qed.

Lemma indexToAdd_name source targetIndexes k v d :
  In d (indexToAdd source targetIndexes k v) ->
  d_Name d = k /\ d_Type d <> ModifyIndex /\ isPrimaryKeyDiff d = false.
Proof.
  unfold indexToAdd.
  destruct (GoMap.get targetIndexes k) as [ti|].
  - destruct (indexesAreDifferent v ti); [|intros []].
    intros [<-|[<-|[]]]; repeat split; discriminate.
  - intros [<-|[]]; repeat split; discriminate.
Qed.

Lemma indexToDrop_name source sourceIndexes k v d :
  In d (indexToDrop source sourceIndexes k v) ->
  d_Name d = k /\ d_Type d <> ModifyIndex /\ isPrimaryKeyDiff d = false.
Proof.
  unfold indexToDrop.
  destruct (GoMap.get sourceIndexes k); [intros []|].
  intros [<-|[]]; repeat split; discriminate.
Qed.

(** What a range yields comes from one of the keys it visits. *)
Lemma in_range {V D} (o : GoMap.RangeOrder) (m : GoMap.t V)
      (body : string -> V -> list D) d :
  In d (GoMap.range o m body) ->
  exists k v, In k (o (GoMap.keys m)) /\ GoMap.get m k = Some v
              /\ In d (body k v).
Proof.
  unfold GoMap.range. rewrite in_flat_map. intros (k & Hk & H).
  destruct (GoMap.get m k) as [v|] eqn:E; [|destruct H].
  exists k, v. auto.
Qed.

(** A fair range visits a key of the map once: the output splits
    around what the body yields for it. *)
Lemma range_split {V D} (o : GoMap.RangeOrder) (m : GoMap.t V)
      (body : string -> V -> list D) k v :
  GoMap.fair o -> NoDup (GoMap.keys m) -> GoMap.get m k = Some v ->
  exists l1 l2,
    GoMap.range o m body =
      (flat_map (fun k => match GoMap.get m k with
                          | Some v => body k v | None => [] end) l1
       ++ body k v
       ++ flat_map (fun k => match GoMap.get m k with
                             | Some v => body k v | None => [] end) l2)%list
    /\ ~ In k l1 /\ ~ In k l2.
Proof.
  intros Hfair Hnd Hget.
  assert (Hin : In k (o (GoMap.keys m))).
  { apply (Permutation_in _ (Permutation_sym (Hfair _))).
    apply get_in_keys. congruence. }
  assert (Hnd' : NoDup (o (GoMap.keys m))).
  { apply (Permutation_NoDup (Permutation_sym (Hfair _)) Hnd). }
  destruct (in_split _ _ Hin) as (l1 & l2 & E).
  exists l1, l2. unfold GoMap.range. rewrite E in *.
  rewrite flat_map_app. simpl. rewrite Hget.
  split; [reflexivity|].
  apply NoDup_remove_2 in Hnd'. rewrite in_app_iff in Hnd'. tauto.
Qed.

Lemma permuted_columns_differ l1 l2 :
  Permutation l1 l2 -> l1 <> l2 -> columnsDifferAt l1 l2 = true.
Proof.
  intros Hp Hne.
  destruct (columnsDifferAt l1 l2) eqn:E; [reflexivity|].
  exfalso. apply Hne.
  apply columnsDifferAt_false_eq; [apply Permutation_length, Hp | exact E].
Qed.

(** C8. When an index of one name is on both sides (the index each
    side's map holds under that name: with distinct names, the index of
    that name, see [get_of_list_in]) with the same uniqueness and method
    and with column sequences that are permutations of each other but
    not equal, the differ emits for that name exactly a DropIndex
    followed at once by an AddIndex; a ModifyIndex is never emitted; and
    primary keys whose column sequences are permuted give DropPrimaryKey
    followed by AddPrimaryKey, the only primary-key differences of the
    list. *)
Theorem permuted_key_columns_drop_then_add
        (s : Schedule) (tableName : string) (source target : TableModel) :
  (forall name si ti,
      GoMap.fair (o_sourceIndexes s) ->
      GoMap.get (GoMap.of_list i_Name (t_Indexes source)) name = Some si ->
      GoMap.get (GoMap.of_list i_Name (t_Indexes target)) name = Some ti ->
      i_NonUnique si = i_NonUnique ti ->
      i_IndexType si = i_IndexType ti ->
      Permutation (i_Columns si) (i_Columns ti) ->
      i_Columns si <> i_Columns ti ->
      exists before after,
        p_Differences (comparePlan s tableName source target) =
          (before ++ dropIndexDiff (t_Name source) name
                  :: recreateIndexDiff (t_Name source) name si :: after)%list
        /\ forallb (fun d => negb (aboutIndex name d)) (before ++ after) = true)
  /\ (forall d, In d (p_Differences (comparePlan s tableName source target)) ->
                d_Type d <> ModifyIndex)
  /\ (forall spk tpk,
         t_PrimaryKey source = Some spk ->
         t_PrimaryKey target = Some tpk ->
         Permutation (pk_Columns spk) (pk_Columns tpk) ->
         pk_Columns spk <> pk_Columns tpk ->
         exists before,
           p_Differences (comparePlan s tableName source target) =
             (before ++ [dropPrimaryKeyDiff (t_Name source)
                                            "Drop existing primary key";
                         addPrimaryKeyDiff (t_Name source)
                                           "Add new primary key" spk])%list
           /\ forallb (fun d => negb (isPrimaryKeyDiff d)) before = true).
Proof.
  rewrite comparePlan_diffs. split; [|split].
  - intros name si ti Hfair HS HT Hu Hm Hperm Hne.
    unfold indexDiffs, compareIndexes. simpl.
    destruct (range_split (o_sourceIndexes s)
                (GoMap.of_list i_Name (t_Indexes source))
                (indexToAdd source (GoMap.of_list i_Name (t_Indexes target)))
                name si Hfair (nodup_keys_of_list _ _) HS)
      as (l1 & l2 & E & Hn1 & Hn2).
    rewrite E. clear E.
    assert (Hbody : indexToAdd source (GoMap.of_list i_Name (t_Indexes target))
                               name si
                    = [dropIndexDiff (t_Name source) name;
                       recreateIndexDiff (t_Name source) name si]).
    { unfold indexToAdd. rewrite HT. unfold indexesAreDifferent.
      rewrite Hu, Hm, Z.eqb_refl, String.eqb_refl.
      rewrite (Permutation_length Hperm), Nat.eqb_refl. simpl.
      rewrite (permuted_columns_differ _ _ Hperm Hne). reflexivity. }
    rewrite Hbody.
    eexists (columnDiffs s source target ++ flat_map _ l1)%list.
    eexists (flat_map _ l2 ++ GoMap.range _ _ _
               ++ primaryKeyDiffs source target)%list.
    split.
    + rewrite <- !app_assoc. simpl. reflexivity.
    + apply forallb_forall. intros d Hd. unfold aboutIndex.
      assert (Hother : forall l, ~ In name l ->
        In d (flat_map (fun k =>
                 match GoMap.get (GoMap.of_list i_Name (t_Indexes source)) k with
                 | Some v => indexToAdd source
                               (GoMap.of_list i_Name (t_Indexes target)) k v
                 | None => []
                 end) l) ->
        String.eqb (d_Name d) name = false).
      { intros l Hl. rewrite in_flat_map. intros (k & Hk & H).
        destruct (GoMap.get _ k) as [v|]; [|destruct H].
        apply indexToAdd_name in H. destruct H as [-> _].
        apply String.eqb_neq. intros ->. contradiction. }
      rewrite !in_app_iff in Hd.
      destruct Hd as [[Hd|Hd]|[Hd|[Hd|Hd]]].
      * apply columnDiffs_not_index in Hd. destruct Hd as [-> _]. reflexivity.
      * rewrite (Hother _ Hn1 Hd). rewrite andb_false_r. reflexivity.
      * rewrite (Hother _ Hn2 Hd). rewrite andb_false_r. reflexivity.
      * apply in_range in Hd. destruct Hd as (k & v & _ & Hk & Hd).
        unfold indexToDrop in Hd.
        destruct (GoMap.get (GoMap.of_list i_Name (t_Indexes source)) k)
          eqn:Ek; [destruct Hd|].
        destruct Hd as [<-|[]]. simpl.
        apply negb_true_iff, String.eqb_neq. intros ->. congruence.
      * apply primaryKeyDiffs_not_index in Hd. rewrite Hd. reflexivity.
  - intros d. rewrite !in_app_iff. intros [Hd|[Hd|Hd]].
    + apply columnDiffs_not_index in Hd. destruct Hd as [Hd _].
      intros E. unfold isIndexDiff in Hd. rewrite E in Hd. discriminate.
    + unfold indexDiffs, compareIndexes in Hd. simpl in Hd.
      rewrite in_app_iff in Hd.
      destruct Hd as [Hd|Hd]; apply in_range in Hd;
        destruct Hd as (k & v & _ & _ & Hd).
      * apply indexToAdd_name in Hd. tauto.
      * apply indexToDrop_name in Hd. tauto.
    + unfold primaryKeyDiffs, comparePrimaryKeys in Hd.
      destruct (t_PrimaryKey source) as [spk|], (t_PrimaryKey target) as [tpk|];
        simpl in Hd.
      * destruct (primaryKeysAreDifferent spk tpk); simpl in Hd.
        -- destruct Hd as [<-|[<-|[]]]; discriminate.
        -- destruct Hd.
      * destruct Hd as [<-|[]]; discriminate.
      * destruct Hd as [<-|[]]; discriminate.
      * destruct Hd.
  - intros spk tpk HS HT Hperm Hne.
    exists (columnDiffs s source target ++ indexDiffs s source target)%list.
    split.
    + rewrite <- app_assoc. do 2 f_equal.
      unfold primaryKeyDiffs, comparePrimaryKeys. rewrite HS, HT.
      unfold primaryKeysAreDifferent.
      rewrite (Permutation_length Hperm), Nat.eqb_refl. simpl.
      rewrite (permuted_columns_differ _ _ Hperm Hne). reflexivity.
    + apply forallb_forall. intros d Hd. rewrite in_app_iff in Hd.
      destruct Hd as [Hd|Hd].
      * apply columnDiffs_not_index in Hd. destruct Hd as [_ ->]. reflexivity.
      * unfold indexDiffs, compareIndexes in Hd. simpl in Hd.
        rewrite in_app_iff in Hd.
        destruct Hd as [Hd|Hd]; apply in_range in Hd;
          destruct Hd as (k & v & _ & _ & Hd).
        -- apply indexToAdd_name in Hd. destruct Hd as (_ & _ & ->). reflexivity.
        -- apply indexToDrop_name in Hd. destruct Hd as (_ & _ & ->). reflexivity.
Qed.

Example permuted_plan :
  List.map (fun d => (d_Type d, d_Name d, d_SQL d))
           (p_Differences (comparePlan (schedule backwards) "t"
                                       Permuted.source Permuted.target))
  = [(DropIndex, "idx_ab", "DROP INDEX `idx_ab` ON `t`");
     (AddIndex, "idx_ab", "CREATE INDEX INDEX `idx_ab` ON `t` (`a`, `b`) USING BTREE");
     (DropPrimaryKey, "PRIMARY", "ALTER TABLE `t` DROP PRIMARY KEY");
     (AddPrimaryKey, "PRIMARY", "ALTER TABLE `t` ADD PRIMARY KEY (`a`, `b`)")].
Proof. vm_compute. reflexivity. Qed.

Lemma permuted_key_columns_witness :
  (exists before after,
      p_Differences (comparePlan (schedule backwards) "t"
                                 Permuted.source Permuted.target) =
        (before ++ dropIndexDiff "t" "idx_ab"
                :: recreateIndexDiff "t" "idx_ab" (index "idx_ab" ["a"; "b"])
                :: after)%list
      /\ forallb (fun d => negb (aboutIndex "idx_ab" d)) (before ++ after) = true)
  /\ (exists before,
         p_Differences (comparePlan (schedule backwards) "t"
                                    Permuted.source Permuted.target) =
           (before ++ [dropPrimaryKeyDiff "t" "Drop existing primary key";
                       addPrimaryKeyDiff "t" "Add new primary key"
                                         (Permuted.primaryKey ["a"; "b"])])%list
         /\ forallb (fun d => negb (isPrimaryKeyDiff d)) before = true)
  /\ d_Type (dropIndexDiff "t" "idx_ab") <> ModifyIndex.
Proof.
  destruct (permuted_key_columns_drop_then_add
              (schedule backwards) "t" Permuted.source Permuted.target)
    as (Hindex & Hnever & Hpk).
  split; [|split]; [| |apply Hnever; vm_compute; tauto].
  - apply (Hindex "idx_ab" (index "idx_ab" ["a"; "b"])
                  (index "idx_ab" ["b"; "a"])).
    + exact fair_backwards.
    + reflexivity.
    + reflexivity.
    + reflexivity.
    + reflexivity.
    + apply perm_swap.
    + discriminate.
  - apply (Hpk (Permuted.primaryKey ["a"; "b"]) (Permuted.primaryKey ["b"; "a"])).
    + reflexivity.
    + reflexivity.
    + apply perm_swap.
    + discriminate.
Defined.

(** ** An empty plan means agreement on what is compared *)

Import Agreement.

Lemma sameNull_spec x y :
  (negb (Bool.eqb (Valid x) (Valid y)) = false /\
   Valid x && Valid y && negb (String.eqb (Str x) (Str y)) = false)
  <-> sameNull x y.
Proof.
  unfold sameNull. destruct (Valid x), (Valid y); simpl;
    destruct (String.eqb_spec (Str x) (Str y)); simpl;
    intuition (discriminate || congruence).
Qed.

Lemma columnsAreDifferent_false a b :
  columnsAreDifferent a b = false <-> sameColumn a b.
Proof.
  unfold columnsAreDifferent, sameColumn.
  rewrite <- !sameNull_spec.
  destruct (String.eqb_spec (c_DataType a) (c_DataType b));
    destruct (String.eqb_spec (c_IsNullable a) (c_IsNullable b));
    destruct (String.eqb_spec (c_Extra a) (c_Extra b)); simpl;
    try (split; [discriminate | tauto]).
  destruct (negb (Bool.eqb (Valid (c_DefaultValue a)) (Valid (c_DefaultValue b))));
    [split; [discriminate | intros (_ & _ & _ & [H _] & _); discriminate]|].
  destruct (Valid (c_DefaultValue a) && Valid (c_DefaultValue b)
            && negb (String.eqb (Str (c_DefaultValue a)) (Str (c_DefaultValue b))));
    [split; [discriminate | intros (_ & _ & _ & [_ H] & _); discriminate]|].
  destruct (negb (Bool.eqb (Valid (c_OnUpdate a)) (Valid (c_OnUpdate b))));
    [split; [discriminate | intros (_ & _ & _ & _ & [H _]); discriminate]|].
  destruct (Valid (c_OnUpdate a) && Valid (c_OnUpdate b)
            && negb (String.eqb (Str (c_OnUpdate a)) (Str (c_OnUpdate b))));
    [split; [discriminate | intros (_ & _ & _ & _ & [_ H]); discriminate]|].
  tauto.
Qed.

Lemma columnsDifferAt_false l1 l2 :
  (Nat.eqb (List.length l1) (List.length l2) = true /\
   columnsDifferAt l1 l2 = false) <-> l1 = l2.
Proof.
  split.
  - intros [Hl H]. apply Nat.eqb_eq in Hl.
    apply columnsDifferAt_false_eq; assumption.
  - intros ->. rewrite Nat.eqb_refl, columnsDifferAt_refl. tauto.
Qed.

Lemma indexesAreDifferent_false a b :
  indexesAreDifferent a b = false <-> sameIndex a b.
Proof.
  unfold indexesAreDifferent, sameIndex.
  rewrite <- columnsDifferAt_false.
  destruct (Z.eqb_spec (i_NonUnique a) (i_NonUnique b));
    destruct (String.eqb_spec (i_IndexType a) (i_IndexType b)); simpl;
    try (split; [discriminate | tauto]).
  destruct (Nat.eqb (List.length (i_Columns a)) (List.length (i_Columns b)));
    simpl; [tauto | split; [discriminate | intros (_ & _ & H & _); discriminate]].
Qed.

Lemma primaryKeysAreDifferent_false a b :
  primaryKeysAreDifferent a b = false <-> samePrimaryKey a b.
Proof.
  unfold primaryKeysAreDifferent, samePrimaryKey.
  rewrite <- columnsDifferAt_false.
  destruct (Nat.eqb (List.length (pk_Columns a)) (List.length (pk_Columns b)));
    simpl; [tauto | split; [discriminate | intros [H _]; discriminate]].
Qed.

(** A fair range that yields nothing yields nothing for every entry. *)
Lemma range_nil_inv {V D} (o : GoMap.RangeOrder) (m : GoMap.t V)
      (body : string -> V -> list D) :
  GoMap.fair o -> GoMap.range o m body = [] ->
  forall k v, GoMap.get m k = Some v -> body k v = [].
Proof.
  intros Hfair H k v Hget.
  assert (Hin : In k (o (GoMap.keys m))).
  { apply (Permutation_in _ (Permutation_sym (Hfair _))).
    apply get_in_keys. congruence. }
  unfold GoMap.range in H.
  induction (o (GoMap.keys m)) as [|k0 ks IH]; [destruct Hin|].
  simpl in H. apply app_eq_nil in H. destruct H as [H0 H1].
  destruct Hin as [->|Hin]; [|apply IH; assumption].
  rewrite Hget in H0. exact H0.
Qed.

Lemma compared_equal_no_diffs s tableName source target :
  comparedEqual source target ->
  p_Differences (comparePlan s tableName source target) = [].
Proof.
  intros (Hc & Hi & Hp). rewrite comparePlan_diffs.
  unfold columnDiffs, indexDiffs, primaryKeyDiffs,
    compareColumns, compareIndexes, comparePrimaryKeys. simpl.
  rewrite !range_nil.
  - simpl. unfold agree in Hp.
    destruct (t_PrimaryKey source) as [spk|], (t_PrimaryKey target) as [tpk|];
      try tauto.
    apply primaryKeysAreDifferent_false in Hp. rewrite Hp. reflexivity.
  - intros k v E. specialize (Hi k). rewrite E in Hi. unfold indexToDrop.
    destruct (GoMap.get _ k); [reflexivity | destruct Hi].
  - intros k v E. specialize (Hi k). rewrite E in Hi. unfold indexToAdd.
    destruct (GoMap.get _ k) as [ti|]; [|destruct Hi].
    apply indexesAreDifferent_false in Hi. rewrite Hi. reflexivity.
  - intros k v E. specialize (Hc k). rewrite E in Hc. unfold columnToChange.
    destruct (GoMap.get _ k) as [sc|]; [|destruct Hc].
    apply columnsAreDifferent_false in Hc. rewrite Hc. reflexivity.
  - intros k v E. specialize (Hc k). rewrite E in Hc. unfold columnToAdd.
    destruct (GoMap.get _ k); [reflexivity | destruct Hc].
Qed.

Lemma no_diffs_compared_equal s tableName source target :
  fair_schedule s ->
  p_Differences (comparePlan s tableName source target) = [] ->
  comparedEqual source target.
Proof.
  intros (_ & _ & FcS & FcT & FiS & FiT) H.
  rewrite comparePlan_diffs in H.
  apply app_eq_nil in H. destruct H as [Hc H].
  apply app_eq_nil in H. destruct H as [Hi Hp].
  unfold columnDiffs, compareColumns in Hc. simpl in Hc.
  apply app_eq_nil in Hc. destruct Hc as [HcA HcB].
  unfold indexDiffs, compareIndexes in Hi. simpl in Hi.
  apply app_eq_nil in Hi. destruct Hi as [HiA HiB].
  pose proof (range_nil_inv _ _ _ FcS HcA) as cA.
  pose proof (range_nil_inv _ _ _ FcT HcB) as cB.
  pose proof (range_nil_inv _ _ _ FiS HiA) as iA.
  pose proof (range_nil_inv _ _ _ FiT HiB) as iB.
  split; [|split].
  - intros name. unfold agree.
    destruct (GoMap.get (GoMap.of_list c_Name (t_Columns source)) name)
      as [a|] eqn:Ea;
      destruct (GoMap.get (GoMap.of_list c_Name (t_Columns target)) name)
      as [b|] eqn:Eb.
    + specialize (cB _ _ Eb). unfold columnToChange in cB. rewrite Ea in cB.
      apply columnsAreDifferent_false.
      destruct (columnsAreDifferent a b); [discriminate | reflexivity].
    + specialize (cA _ _ Ea). unfold columnToAdd in cA. rewrite Eb in cA.
      discriminate.
    + specialize (cB _ _ Eb). unfold columnToChange in cB. rewrite Ea in cB.
      discriminate.
    + exact I.
  - intros name. unfold agree.
    destruct (GoMap.get (GoMap.of_list i_Name (t_Indexes source)) name)
      as [a|] eqn:Ea;
      destruct (GoMap.get (GoMap.of_list i_Name (t_Indexes target)) name)
      as [b|] eqn:Eb.
    + specialize (iA _ _ Ea). unfold indexToAdd in iA. rewrite Eb in iA.
      apply indexesAreDifferent_false.
      destruct (indexesAreDifferent a b); [discriminate | reflexivity].
    + specialize (iA _ _ Ea). unfold indexToAdd in iA. rewrite Eb in iA.
      discriminate.
    + specialize (iB _ _ Eb). unfold indexToDrop in iB. rewrite Ea in iB.
      discriminate.
    + exact I.
  - unfold primaryKeyDiffs, comparePrimaryKeys in Hp. unfold agree.
    destruct (t_PrimaryKey source) as [spk|], (t_PrimaryKey target) as [tpk|];
      simpl in Hp; try discriminate; [|exact I].
    apply primaryKeysAreDifferent_false.
    destruct (primaryKeysAreDifferent spk tpk); [discriminate | reflexivity].
Qed.

Lemma tableAB_tableBA_compared_equal : comparedEqual tableAB tableBA.
Proof.
  split; [|split]; [| intros name; exact I | exact I].
  intros name.
  change (GoMap.of_list c_Name (t_Columns tableAB))
    with [("a", column "a" "int"); ("b", column "b" "int")].
  change (GoMap.of_list c_Name (t_Columns tableBA))
    with [("b", column "b" "int"); ("a", column "a" "int")].
  cbn -[String.eqb].
  destruct (String.eqb "a" name), (String.eqb "b" name);
    cbn; unfold sameColumn, sameNull; cbn; auto 10.
Qed.


(** ** The extractor against the catalog *)

Import Catalogue.

Lemma scanColumns_rows rows : forall pre,
  scanColumns (List.map Ok rows) (List.map columnOfRow pre)
              (catalogPrimaryKey pre)
  = Ok (List.map columnOfRow (pre ++ rows), catalogPrimaryKey (pre ++ rows)).
Proof.
  induction rows as [|r rows IH]; intros pre; simpl.
  - rewrite app_nil_r. reflexivity.
  - replace (pre ++ r :: rows)%list with ((pre ++ [r]) ++ rows)%list
      by (rewrite <- app_assoc; reflexivity).
    rewrite <- IH. f_equal.
    + rewrite map_app. reflexivity.
    + unfold notePrimary, catalogPrimaryKey. rewrite filter_app. simpl.
      destruct (isPrimaryColumn r) eqn:E; unfold isPrimaryColumn in E;
        rewrite E.
      * destruct (filter isPrimaryColumn pre) as [|x l]; simpl; [reflexivity|].
        rewrite map_app. reflexivity.
      * rewrite app_nil_r. reflexivity.
Qed.

Lemma distinct_in l x : In x (distinct l) <-> In x l.
Proof.
  induction l as [|n l IH]; simpl; [tauto|].
  rewrite filter_In, IH, negb_true_iff, String.eqb_neq.
  destruct (string_dec n x) as [->|Hne]; [tauto|].
  split; [tauto|]. intros [H|H]; [congruence|]. right. split; congruence.
Qed.

Lemma distinct_nodup l : NoDup (distinct l).
Proof.
  induction l as [|n l IH]; simpl; constructor.
  - rewrite filter_In, String.eqb_refl. simpl. intros [_ H]. discriminate.
  - apply NoDup_filter, IH.
Qed.

Lemma distinct_snoc l x :
  distinct (l ++ [x]) =
  if in_dec string_dec x l then distinct l else (distinct l ++ [x])%list.
Proof.
  induction l as [|n l IH]; simpl; [reflexivity|].
  rewrite IH. destruct (string_dec n x) as [->|Hne].
  - destruct (in_dec string_dec x l); [reflexivity|].
    rewrite filter_app. simpl. rewrite String.eqb_refl. simpl.
    rewrite app_nil_r. reflexivity.
  - destruct (in_dec string_dec x l); [reflexivity|].
    rewrite filter_app. simpl.
    destruct (String.eqb_spec x n); [congruence|]. reflexivity.
Qed.

Section Tabulated.

Context {V : Type} (f : string -> V).

Local Abbreviation tabulate := (GoMap.tabulate f).

Lemma get_tabulate names k :
  GoMap.get (tabulate names) k =
  if in_dec string_dec k names then Some (f k) else None.
Proof.
  induction names as [|n names IH]; simpl; [reflexivity|].
  destruct (String.eqb_spec n k) as [->|Hne].
  - destruct (string_dec k k); [reflexivity | congruence].
  - rewrite IH. destruct (string_dec n k); [congruence|].
    destruct (in_dec string_dec k names); reflexivity.
Qed.

Lemma keys_tabulate names : GoMap.keys (tabulate names) = names.
Proof.
  unfold GoMap.keys, GoMap.tabulate. rewrite map_map. simpl. apply map_id.
Qed.

Lemma set_tabulate_new names x v :
  ~ In x names ->
  GoMap.set (tabulate names) x v = (tabulate names ++ [(x, v)])%list.
Proof.
  induction names as [|n names IH]; simpl; intros H; [reflexivity|].
  destruct (String.eqb_spec n x) as [->|Hne]; [tauto|].
  rewrite IH by tauto. reflexivity.
Qed.

Lemma set_tabulate_old names x v :
  NoDup names -> In x names ->
  GoMap.set (tabulate names) x v =
  List.map (fun n => (n, if String.eqb n x then v else f n)) names.
Proof.
  induction names as [|n names IH]; simpl; intros Hnd H; [destruct H|].
  inversion Hnd as [|? ? Hn Hnd']; subst.
  destruct (String.eqb_spec n x) as [->|Hne].
  - f_equal. apply map_ext_in. intros a Ha.
    destruct (String.eqb_spec a x); [congruence | reflexivity].
  - f_equal. apply IH; [exact Hnd' | destruct H; [congruence | assumption]].
Qed.

End Tabulated.

Lemma rowsOfIndex_snoc name pre r :
  rowsOfIndex name (pre ++ [r]) =
  (rowsOfIndex name pre
     ++ if String.eqb (ir_idxName r) name then [r] else [])%list.
Proof. unfold rowsOfIndex. rewrite filter_app. reflexivity. Qed.

Lemma rowsOfIndex_known name rows :
  name <> "PRIMARY" ->
  (In name (catalogIndexNames rows) <-> rowsOfIndex name rows <> []).
Proof.
  intros Hnp. unfold catalogIndexNames, rowsOfIndex.
  rewrite distinct_in, in_map_iff. split.
  - intros (r & <- & Hr) E. apply filter_In in Hr.
    assert (Hin : In r (filter (fun r0 => String.eqb (ir_idxName r0)
                                                     (ir_idxName r)) rows)).
    { apply filter_In. split; [tauto | apply String.eqb_refl]. }
    rewrite E in Hin. destruct Hin.
  - intros H.
    destruct (filter (fun r => String.eqb (ir_idxName r) name) rows)
      as [|r l] eqn:E; [congruence|].
    assert (Hin : In r (filter (fun r => String.eqb (ir_idxName r) name) rows)).
    { rewrite E. left. reflexivity. }
    apply filter_In in Hin. destruct Hin as [Hin Hn].
    apply String.eqb_eq in Hn.
    exists r. split; [exact Hn|]. apply filter_In. split; [exact Hin|].
    unfold notPrimary. rewrite Hn. apply negb_true_iff, String.eqb_neq, Hnp.
Qed.

Lemma catalogIndexNames_not_primary rows name :
  In name (catalogIndexNames rows) -> name <> "PRIMARY".
Proof.
  unfold catalogIndexNames. rewrite distinct_in, in_map_iff.
  intros (r & <- & Hr). apply filter_In in Hr. destruct Hr as [_ Hr].
  unfold notPrimary in Hr. apply negb_true_iff, String.eqb_neq in Hr. exact Hr.
Qed.

(** One more statistics row, seen from the catalog side, is one step of
    the scanning loop. *)
Lemma indexMapOf_snoc pre r :
  indexMapOf (pre ++ [r]) =
  if String.eqb (ir_idxName r) "PRIMARY" then indexMapOf pre
  else match GoMap.get (indexMapOf pre) (ir_idxName r) with
       | Some idx =>
           GoMap.set (indexMapOf pre) (ir_idxName r)
             {| i_Name := i_Name idx;
                i_Columns := i_Columns idx ++ [ir_colName r];
                i_NonUnique := i_NonUnique idx;
                i_IndexType := i_IndexType idx |}
       | None =>
           GoMap.set (indexMapOf pre) (ir_idxName r)
             {| i_Name := ir_idxName r;
                i_Columns := [ir_colName r];
                i_NonUnique := ir_nonUnique r;
                i_IndexType := ir_idxType r |}
       end.
Proof.
  unfold indexMapOf at 1. unfold catalogIndexNames.
  rewrite filter_app. simpl. unfold notPrimary at 2.
  destruct (String.eqb_spec (ir_idxName r) "PRIMARY") as [Hp|Hp]; simpl.
  - rewrite app_nil_r. apply map_ext_in. intros n Hn. f_equal.
    apply catalogIndexNames_not_primary in Hn.
    unfold catalogIndex. rewrite rowsOfIndex_snoc.
    destruct (String.eqb_spec (ir_idxName r) n); [congruence|].
    rewrite app_nil_r. reflexivity.
  - rewrite map_app. simpl. rewrite distinct_snoc.
    fold (catalogIndexNames pre). unfold indexMapOf.
    rewrite get_tabulate.
    destruct (in_dec string_dec (ir_idxName r)
                (List.map ir_idxName (filter notPrimary pre))) as [Hin|Hin];
      destruct (in_dec string_dec (ir_idxName r) (catalogIndexNames pre))
      as [Hin'|Hin'];
      try (exfalso; unfold catalogIndexNames in Hin';
           rewrite distinct_in in Hin'; tauto).
    + rewrite set_tabulate_old by (try apply distinct_nodup; assumption).
      apply map_ext_in. intros n Hn. f_equal.
      unfold catalogIndex. rewrite rowsOfIndex_snoc.
      destruct (String.eqb_spec n (ir_idxName r)) as [->|Hne].
      * rewrite String.eqb_refl.
        apply rowsOfIndex_known in Hin'; [|exact Hp].
        destruct (rowsOfIndex (ir_idxName r) pre) as [|y g]; [congruence|].
        simpl. rewrite map_app. reflexivity.
      * destruct (String.eqb_spec (ir_idxName r) n); [congruence|].
        rewrite app_nil_r. reflexivity.
    + rewrite set_tabulate_new by assumption.
      unfold GoMap.tabulate. rewrite map_app. simpl. f_equal.
      * apply map_ext_in. intros n Hn. f_equal.
        unfold catalogIndex. rewrite rowsOfIndex_snoc.
        destruct (String.eqb_spec (ir_idxName r) n) as [E|E];
          [subst n; contradiction|].
        rewrite app_nil_r. reflexivity.
      * unfold catalogIndex. rewrite rowsOfIndex_snoc, String.eqb_refl.
        assert (E : rowsOfIndex (ir_idxName r) pre = []).
        { destruct (rowsOfIndex (ir_idxName r) pre) eqn:E; [reflexivity|].
          exfalso. apply Hin'. apply rowsOfIndex_known; [exact Hp|].
          rewrite E. discriminate. }
        rewrite E. reflexivity.
Qed.

Lemma scanIndexes_rows rows : forall pre,
  scanIndexes (List.map Ok rows) (indexMapOf pre) = Ok (indexMapOf (pre ++ rows)).
Proof.
  induction rows as [|r rows IH]; intros pre; simpl.
  - rewrite app_nil_r. reflexivity.
  - replace (pre ++ r :: rows)%list with ((pre ++ [r]) ++ rows)%list
      by (rewrite <- app_assoc; reflexivity).
    rewrite <- IH, indexMapOf_snoc.
    destruct (String.eqb (ir_idxName r) "PRIMARY"); [reflexivity|].
    destruct (GoMap.get (indexMapOf pre) (ir_idxName r)); reflexivity.
Qed.

(** Ranging over the scanned index map lists the catalog's indexes in
    the order of the range. *)
Lemma range_indexMapOf (o : GoMap.RangeOrder) rows :
  GoMap.fair o ->
  GoMap.range o (indexMapOf rows) (fun _ idx => [idx]) =
  List.map (catalogIndex rows) (o (catalogIndexNames rows)).
Proof.
  intros Hfair. unfold GoMap.range, indexMapOf.
  rewrite keys_tabulate.
  assert (Hsub : forall k, In k (o (catalogIndexNames rows)) ->
                           In k (catalogIndexNames rows)).
  { intros k. apply Permutation_in, Hfair. }
  induction (o (catalogIndexNames rows)) as [|k ks IH]; simpl; [reflexivity|].
  rewrite get_tabulate.
  destruct (in_dec string_dec k (catalogIndexNames rows)) as [|Hn].
  - simpl. f_equal. apply IH. intros k' Hk'. apply Hsub. right. exact Hk'.
  - exfalso. apply Hn, Hsub. left. reflexivity.
Qed.

Lemma getTableStructure_rows (o : GoMap.RangeOrder) (db : Catalog)
      (dbName tableName : string) (columns : list ColumnRow)
      (indexes : list IndexRow) :
  selectDatabase db = Ok dbName ->
  queryColumns db dbName tableName
    = Ok {| rows_items := List.map Ok columns; rows_err := None |} ->
  queryIndexes db dbName tableName
    = Ok {| rows_items := List.map Ok indexes; rows_err := None |} ->
  getTableStructure o db tableName =
  Ok {| t_Name := tableName;
        t_Columns := List.map columnOfRow columns;
        t_Indexes := GoMap.range o (indexMapOf indexes) (fun _ idx => [idx]);
        t_PrimaryKey := catalogPrimaryKey columns |}.
Proof.
  intros Hdb Hc Hi. unfold getTableStructure. rewrite Hdb, Hc. simpl.
  change (@nil ColumnModel) with (List.map columnOfRow []).
  change (@None PrimaryKeyModel) with (catalogPrimaryKey []).
  rewrite scanColumns_rows. simpl. rewrite Hi. simpl.
  change (@nil (string * IndexModel)) with (indexMapOf []).
  rewrite scanIndexes_rows. simpl. reflexivity.
Qed.

(** C5, as stated, fails: on one catalog, [t] with indexes [idx_a] and
    [idx_b] delivered in that order, a range of the index map that runs
    backwards yields the snapshot's index list [idx_b; idx_a], and a
    range that follows insertion yields [idx_a; idx_b]: the order of the
    index list is the order of the map iteration, not the catalog's. *)
Lemma index_list_order_follows_the_range :
  GoMap.fair backwards /\ GoMap.fair inOrder
  /\ catalogIndexNames twoIndexRows = ["idx_a"; "idx_b"]
  /\ (exists t, getTableStructure backwards twoIndexCatalog "t" = Ok t
                /\ List.map i_Name (t_Indexes t) = ["idx_b"; "idx_a"])
  /\ (exists t, getTableStructure inOrder twoIndexCatalog "t" = Ok t
                /\ List.map i_Name (t_Indexes t) = ["idx_a"; "idx_b"]).
Proof.
  split; [exact fair_backwards|]. split; [exact fair_inOrder|].
  split; [reflexivity|].
  split; eexists; (split; [vm_compute; reflexivity | reflexivity]).
Qed.

(** C5, amended.  When the catalog answers both queries without error,
    the extractor returns a snapshot whose columns are the catalog's
    column rows in ordinal order, whose primary-key columns are the
    "PRI" columns in that order, and whose indexes are the catalog's
    indexes, each with its columns in sequence-in-index order, listed in
    the order in which the range over the index map visits the index
    names: a permutation of the catalog order. *)
Theorem snapshot_order_is_catalog_order_up_to_index_list
        (o : GoMap.RangeOrder) (db : Catalog) (dbName tableName : string)
        (columns : list ColumnRow) (indexes : list IndexRow) :
  GoMap.fair o ->
  selectDatabase db = Ok dbName ->
  queryColumns db dbName tableName
    = Ok {| rows_items := List.map Ok columns; rows_err := None |} ->
  queryIndexes db dbName tableName
    = Ok {| rows_items := List.map Ok indexes; rows_err := None |} ->
  exists t,
    getTableStructure o db tableName = Ok t
    /\ t_Columns t = List.map columnOfRow columns
    /\ t_PrimaryKey t = catalogPrimaryKey columns
    /\ t_Indexes t = List.map (catalogIndex indexes) (o (catalogIndexNames indexes))
    /\ Permutation (t_Indexes t) (catalogIndexes indexes).
Proof.
  intros Hfair Hdb Hc Hi.
  eexists. split; [apply (getTableStructure_rows o db dbName); eassumption|].
  simpl. rewrite (range_indexMapOf o indexes Hfair).
  repeat split. apply Permutation_map, Hfair.
Qed.

Lemma snapshot_order_witness :
  exists t,
    getTableStructure backwards twoIndexCatalog "t" = Ok t
    /\ t_Columns t = List.map columnOfRow twoIndexColumns
    /\ t_PrimaryKey t = catalogPrimaryKey twoIndexColumns
    /\ t_Indexes t = List.map (catalogIndex twoIndexRows)
                              (backwards (catalogIndexNames twoIndexRows))
    /\ Permutation (t_Indexes t) (catalogIndexes twoIndexRows).
Proof.
  apply (snapshot_order_is_catalog_order_up_to_index_list
           backwards twoIndexCatalog "shop" "t" twoIndexColumns twoIndexRows).
  - exact fair_backwards.
  - reflexivity.
  - reflexivity.
  - reflexivity.
Defined.

Example two_index_snapshot :
  getTableStructure inOrder twoIndexCatalog "t" =
  Ok {| t_Name := "t";
        t_Columns := List.map columnOfRow twoIndexColumns;
        t_Indexes := [ {| i_Name := "idx_a"; i_Columns := ["a"];
                          i_NonUnique := 1; i_IndexType := "BTREE" |};
                       {| i_Name := "idx_b"; i_Columns := ["b"; "a"];
                          i_NonUnique := 1; i_IndexType := "BTREE" |} ];
        t_PrimaryKey := Some {| pk_Name := "PRIMARY"; pk_Columns := ["id"] |} |}.
Proof. vm_compute. reflexivity. Qed.

Import Service.

(** C3, as stated, fails: for a table of which the catalog reports no
    column (and no index), [getTableStructure] returns a snapshot with
    an empty column list, not an error. *)
Lemma getTableStructure_accepts_zero_columns :
  getTableStructure inOrder ghostCatalog "ghost" =
  Ok {| t_Name := "ghost"; t_Columns := []; t_Indexes := [];
        t_PrimaryKey := None |}.
Proof. vm_compute. reflexivity. Qed.

(** C3, amended.  The zero-column check is in the data-sync service:
    [getAllColumns] returns an error whenever the catalog reports zero
    columns, and a list it returns is never empty.  [getTableStructure]
    has no such check: when the catalog reports zero columns and both
    queries succeed, it returns a snapshot with an empty column list and
    no primary key. *)
Theorem zero_columns_rejected_by_getAllColumns_only :
  (forall (W : Type) (handle : forall R, Call R -> W -> R * W)
          (db : Side) (tableName : string) (w w' : W),
      handle _ (QColumnNames db tableName) w = (Ok [], w') ->
      getAllColumns W handle db tableName w =
      (Err ("表 " ++ tableName ++ " 没有任何字段"), w',
       [Ev (QColumnNames db tableName) (Ok [])]))
  /\ (forall (W : Type) (handle : forall R, Call R -> W -> R * W)
             (db : Side) (tableName : string) (w w' : W) columns trace,
         getAllColumns W handle db tableName w = (Ok columns, w', trace) ->
         columns <> [])
  /\ (forall (o : GoMap.RangeOrder) (db : Catalog) (dbName tableName : string)
             (indexes : list IndexRow),
         selectDatabase db = Ok dbName ->
         queryColumns db dbName tableName
           = Ok {| rows_items := []; rows_err := None |} ->
         queryIndexes db dbName tableName
           = Ok {| rows_items := List.map Ok indexes; rows_err := None |} ->
         exists t,
           getTableStructure o db tableName = Ok t
           /\ t_Columns t = [] /\ t_PrimaryKey t = None).
Proof.
  split; [|split].
  - intros W handle db tableName w w' H.
    unfold getAllColumns, bind, call, ret. rewrite H. reflexivity.
  - intros W handle db tableName w w' columns trace.
    unfold getAllColumns, bind, call, ret.
    destruct (handle _ (QColumnNames db tableName) w) as [[cols|e] w1].
    + destruct cols as [|c cols]; simpl; intros H; inversion H; subst.
      discriminate.
    + intros H. inversion H.
  - intros o db dbName tableName indexes Hdb Hc Hi.
    eexists. split.
    + apply (getTableStructure_rows o db dbName tableName [] indexes);
        assumption.
    + split; reflexivity.
Qed.

Lemma zero_columns_witness :
  getAllColumns Mem.DB Mem.handle TargetDB "ghost"
                (Mem.db_with_columns [] [])
  = (Err "表 ghost 没有任何字段", Mem.db_with_columns [] [],
     [Ev (QColumnNames TargetDB "ghost") (Ok [])])
  /\ ["id"; "updated_at"] <> []
  /\ (exists t, getTableStructure inOrder ghostCatalog "ghost" = Ok t
                /\ t_Columns t = [] /\ t_PrimaryKey t = None).
Proof.
  destruct zero_columns_rejected_by_getAllColumns_only as (Hsvc & Hok & Hcmp).
  split; [|split].
  - apply (Hsvc Mem.DB Mem.handle TargetDB "ghost"). reflexivity.
  - apply (Hok Mem.DB Mem.handle SourceDB "t"
               (Mem.db_with_columns ["id"; "updated_at"] [])
               (Mem.db_with_columns ["id"; "updated_at"] [])
               ["id"; "updated_at"]
               [Ev (QColumnNames SourceDB "t") (Ok ["id"; "updated_at"])]).
    reflexivity.
  - apply (Hcmp inOrder ghostCatalog "shop" "ghost" []); reflexivity.
Defined.

(** ** The float64 page count *)

Section Float64Facts.

Local Open Scope Z_scope.

Lemma ilog2_lower n d :
  0 < n -> 0 < d ->
  d * 2 ^ Z.max 0 (Float64.ilog2 n d) <= n * 2 ^ Z.max 0 (- Float64.ilog2 n d).
Proof.
  intros Hn Hd. unfold Float64.ilog2.
  set (k := Z.log2 n - Z.log2 d).
  destruct (Z.leb_spec (d * 2 ^ Z.max 0 k) (n * 2 ^ Z.max 0 (- k)))
    as [H|H]; [exact H|].
  destruct (Z.log2_spec n Hn) as [Hn1 Hn2].
  destruct (Z.log2_spec d Hd) as [Hd1 Hd2].
  pose proof (Z.log2_nonneg n) as Ln. pose proof (Z.log2_nonneg d) as Ld.
  destruct (Z.le_gt_cases 1 k) as [Hk|Hk].
  - rewrite (Z.max_r 0 (k - 1)) by lia.
    rewrite (Z.max_l 0 (- (k - 1))) by lia.
    assert (E : 2 ^ Z.succ (Z.log2 d) * 2 ^ (k - 1) = 2 ^ Z.log2 n).
    { rewrite <- Z.pow_add_r by lia. f_equal. unfold k. lia. }
    assert (0 < 2 ^ (k - 1)) by (apply Z.pow_pos_nonneg; lia).
    nia.
  - rewrite (Z.max_l 0 (k - 1)) by lia.
    rewrite (Z.max_r 0 (- (k - 1))) by lia.
    assert (E : 2 ^ Z.log2 n * 2 ^ (- (k - 1)) = 2 ^ Z.succ (Z.log2 d)).
    { rewrite <- Z.pow_add_r by lia. f_equal. unfold k. lia. }
    assert (0 < 2 ^ (- (k - 1))) by (apply Z.pow_pos_nonneg; lia).
    nia.
Qed.

(** The scaled quotient that [round] rounds to an integer is at least
    [2^52]. *)
Lemma round_scaled_lower n d :
  0 < n -> 0 < d ->
  let e := Float64.ilog2 n d - 52 in
  d * 2 ^ Z.max 0 e * 2 ^ 52 <= n * 2 ^ Z.max 0 (- e).
Proof.
  intros Hn Hd e. pose proof (ilog2_lower n d Hn Hd) as H.
  set (L := Float64.ilog2 n d) in *.
  destruct (Z.le_gt_cases 0 e) as [He|He].
  - rewrite (Z.max_r 0 e), (Z.max_l 0 (- e)) by lia.
    rewrite (Z.max_r 0 L), (Z.max_l 0 (- L)) in H by lia.
    assert (E : 2 ^ e * 2 ^ 52 = 2 ^ L).
    { rewrite <- Z.pow_add_r by lia. f_equal. unfold e. lia. }
    rewrite <- Z.mul_assoc, E. exact H.
  - rewrite (Z.max_l 0 e), (Z.max_r 0 (- e)) by lia.
    destruct (Z.le_gt_cases 0 L) as [HL|HL].
    + rewrite (Z.max_r 0 L), (Z.max_l 0 (- L)) in H by lia.
      assert (E : 2 ^ L * 2 ^ (- e) = 2 ^ 52).
      { rewrite <- Z.pow_add_r by lia. f_equal. unfold e. lia. }
      assert (0 < 2 ^ (- e)) by (apply Z.pow_pos_nonneg; lia).
      assert (0 < 2 ^ L) by (apply Z.pow_pos_nonneg; lia).
      nia.
    + rewrite (Z.max_l 0 L), (Z.max_r 0 (- L)) in H by lia.
      assert (E : 2 ^ (- L) * 2 ^ 52 = 2 ^ (- e)).
      { rewrite <- Z.pow_add_r by lia. f_equal. unfold e. lia. }
      nia.
Qed.

Lemma nearest_even_bounds a b :
  0 <= a -> 0 < b ->
  a / b <= Float64.nearest_even a b <= a / b + 1
  /\ (a mod b = 0 -> Float64.nearest_even a b = a / b)
  /\ (b < 2 * (a mod b) -> Float64.nearest_even a b = a / b + 1).
Proof.
  intros Ha Hb. unfold Float64.nearest_even.
  destruct (Z.ltb_spec (2 * (a mod b)) b);
    [|destruct (Z.ltb_spec b (2 * (a mod b)));
      [|destruct (Z.even (a / b))]]; lia.
Qed.

Lemma nearest_even_scale a b c :
  0 < b -> 0 < c ->
  Float64.nearest_even (a * c) (b * c) = Float64.nearest_even a b.
Proof.
  intros Hb Hc. unfold Float64.nearest_even.
  rewrite Z.div_mul_cancel_r by lia.
  rewrite Z.mul_mod_distr_r by lia.
  destruct (Z.ltb_spec (2 * (a mod b * c)) (b * c));
    destruct (Z.ltb_spec (2 * (a mod b)) b); try reflexivity; try nia.
  destruct (Z.ltb_spec (b * c) (2 * (a mod b * c)));
    destruct (Z.ltb_spec b (2 * (a mod b))); try reflexivity; nia.
Qed.

Lemma ceil_unique m S k :
  0 < S -> k * S < m <= (k + 1) * S -> Float64.ceil {| Float64.num := m; Float64.den := S |} = k + 1.
Proof.
  intros HS H. unfold Float64.ceil. simpl.
  assert (E : (- m) / S = - (k + 1)).
  { symmetry. apply Z.div_unique with (r := (k + 1) * S - m); lia. }
  lia.
Qed.

(** Rounding the quotient of an integer below [2^53] by an integer does
    not change its ceiling. *)
Lemma ceil_round_quotient N B c :
  0 < N < 2 ^ 53 -> 0 < B -> 0 < c ->
  Float64.ceil (Float64.round (N * c) (B * c)) = (N + B - 1) / B.
Proof.
  intros HN HB Hc.
  assert (Hn : 0 < N * c) by nia.
  assert (Hd : 0 < B * c) by nia.
  pose proof (round_scaled_lower _ _ Hn Hd) as P. cbv zeta in P.
  unfold Float64.round.
  set (e := Float64.ilog2 (N * c) (B * c) - 52) in *.
  assert (Hpb : 0 < 2 ^ Z.max 0 e) by (apply Z.pow_pos_nonneg; lia).
  assert (Hpa : 0 < 2 ^ Z.max 0 (- e)) by (apply Z.pow_pos_nonneg; lia).
  assert (He : e <= 0).
  { destruct (Z.le_gt_cases e 0) as [|He]; [assumption|exfalso].
    rewrite (Z.max_r 0 e), (Z.max_l 0 (- e)) in P by lia.
    assert (2 <= 2 ^ e).
    { change 2 with (2 ^ 1) at 1. apply Z.pow_le_mono_r; lia. }
    change (2 ^ 0) with 1 in P.
    assert (B * c * 2 ^ e * 2 ^ 52 >= c * 2 ^ 53).
    { change (2 ^ 53) with (2 * 2 ^ 52). nia. }
    nia. }
  rewrite (Z.max_l 0 e) in * by lia.
  rewrite (Z.max_r 0 (- e)) in * by lia.
  change (2 ^ 0) with 1 in *. rewrite !Z.mul_1_r in *.
  set (S := 2 ^ (- e)) in *.
  replace (N * c * S) with (N * S * c) by ring.
  rewrite nearest_even_scale by lia.
  assert (HBS : B < 2 * S).
  { change (2 ^ 53) with (2 * 2 ^ 52) in HN. nia. }
  set (k := (N - 1) / B).
  pose proof (Z.div_mod (N - 1) B ltac:(lia)) as Hdm.
  pose proof (Z.mod_pos_bound (N - 1) B HB) as Hr.
  fold k in Hdm. set (r := (N - 1) mod B) in *.
  assert (Hk : 0 <= k) by (apply Z.div_pos; lia).
  assert (Hceil : (N + B - 1) / B = k + 1).
  { symmetry. apply Z.div_unique with (r := r); lia. }
  rewrite Hceil.
  destruct (nearest_even_bounds (N * S) B ltac:(nia) HB) as (Hb & Hex & Hup).
  pose proof (Z.div_mod (N * S) B ltac:(lia)) as Hdm'.
  pose proof (Z.mod_pos_bound (N * S) B HB) as Hr'.
  set (q := N * S / B) in *. set (r' := (N * S) mod B) in *.
  apply ceil_unique; [exact Hpa|].
  (* N = k * B + r + 1 with 0 <= r < B,  N * S = B * q + r' *)
  assert (Hq1 : k * S <= q) by nia.
  assert (Hq2 : q <= (k + 1) * S) by nia.
  split.
  - destruct (Z.eq_dec q (k * S)) as [Eq|Nq]; [|lia].
    assert (Er : r' = (r + 1) * S) by nia.
    rewrite Hup by nia. lia.
  - destruct (Z.eq_dec q ((k + 1) * S)) as [Eq|Nq]; [|lia].
    assert (Er : r' = 0) by nia.
    rewrite Hex by exact Er. lia.
Qed.

(** Rounding a quotient below one gives a number in (0, 1]. *)
Lemma ceil_round_small n d :
  0 < n -> n < d ->
  Float64.ceil (Float64.round n d) = 1.
Proof.
  intros Hn Hd.
  pose proof (round_scaled_lower n d Hn ltac:(lia)) as P. cbv zeta in P.
  unfold Float64.round.
  set (e := Float64.ilog2 n d - 52) in *.
  assert (Hpb : 0 < 2 ^ Z.max 0 e) by (apply Z.pow_pos_nonneg; lia).
  assert (Hpa : 0 < 2 ^ Z.max 0 (- e)) by (apply Z.pow_pos_nonneg; lia).
  assert (He : e <= 0).
  { destruct (Z.le_gt_cases e 0) as [|He]; [assumption|exfalso].
    rewrite (Z.max_r 0 e), (Z.max_l 0 (- e)) in P by lia.
    change (2 ^ 0) with 1 in P.
    assert (1 <= 2 ^ e) by lia.
    assert (1 <= 2 ^ 52) by (apply Z.lt_le_incl; reflexivity).
    nia. }
  rewrite (Z.max_l 0 e) in * by lia.
  rewrite (Z.max_r 0 (- e)) in * by lia.
  change (2 ^ 0) with 1 in *. rewrite !Z.mul_1_r in *.
  set (S := 2 ^ (- e)) in *.
  destruct (nearest_even_bounds (n * S) d ltac:(nia) ltac:(lia))
    as (Hb & _ & _).
  pose proof (Z.div_mod (n * S) d ltac:(lia)) as Hdm.
  pose proof (Z.mod_pos_bound (n * S) d ltac:(lia)) as Hr.
  set (q := n * S / d) in *. set (r := (n * S) mod d) in *.
  assert (H52 : 1 <= 2 ^ 52) by (apply Z.lt_le_incl; reflexivity).
  transitivity (0 + 1); [|reflexivity].
  apply ceil_unique; [exact Hpa|].
  assert (Hq1 : 1 <= q) by nia.
  assert (Hq2 : q < S) by nia.
  lia.
Qed.

Lemma of_int_small N :
  0 < N < 2 ^ 53 ->
  exists c, 0 < c /\ Float64.of_int N = {| Float64.num := N * c; Float64.den := c |}.
Proof.
  intros HN. unfold Float64.of_int.
  destruct (Z.eqb_spec N 0); [lia|].
  pose proof (round_scaled_lower N 1 ltac:(lia) ltac:(lia)) as P.
  cbv zeta in P. unfold Float64.round.
  set (e := Float64.ilog2 N 1 - 52) in *.
  assert (Hpb : 0 < 2 ^ Z.max 0 e) by (apply Z.pow_pos_nonneg; lia).
  assert (Hpa : 0 < 2 ^ Z.max 0 (- e)) by (apply Z.pow_pos_nonneg; lia).
  assert (He : e <= 0).
  { destruct (Z.le_gt_cases e 0) as [|He]; [assumption|exfalso].
    rewrite (Z.max_r 0 e), (Z.max_l 0 (- e)) in P by lia.
    assert (2 <= 2 ^ e).
    { change 2 with (2 ^ 1) at 1. apply Z.pow_le_mono_r; lia. }
    change (2 ^ 0) with 1 in P. change (2 ^ 53) with (2 * 2 ^ 52) in HN.
    nia. }
  rewrite (Z.max_l 0 e) in * by lia.
  rewrite (Z.max_r 0 (- e)) in * by lia.
  change (2 ^ 0) with 1. rewrite !Z.mul_1_r.
  exists (2 ^ (- e)). split; [exact Hpa|].
  f_equal. unfold Float64.nearest_even.
  rewrite Z.mod_1_r, Z.div_1_r. reflexivity.
Qed.

Lemma of_int_large B :
  2 ^ 53 <= B ->
  exists b, 2 ^ 53 <= b /\ Float64.of_int B = {| Float64.num := b; Float64.den := 1 |}.
Proof.
  intros HB. assert (H53 : 0 < 2 ^ 53) by reflexivity.
  unfold Float64.of_int.
  destruct (Z.eqb_spec B 0); [lia|].
  pose proof (round_scaled_lower B 1 ltac:(lia) ltac:(lia)) as P.
  cbv zeta in P. unfold Float64.round.
  assert (HL : Float64.ilog2 B 1 = Z.log2 B).
  { unfold Float64.ilog2. change (Z.log2 1) with 0. rewrite Z.sub_0_r.
    pose proof (Z.log2_nonneg B).
    rewrite (Z.max_r 0 (Z.log2 B)), (Z.max_l 0 (- Z.log2 B)) by lia.
    change (2 ^ 0) with 1.
    destruct (Z.log2_spec B ltac:(lia)) as [H1 _].
    destruct (Z.leb_spec (1 * 2 ^ Z.log2 B) (B * 1)); [reflexivity | lia]. }
  rewrite HL in *.
  assert (Hlog : 53 <= Z.log2 B).
  { change 53 with (Z.log2 (2 ^ 53)). apply Z.log2_le_mono. exact HB. }
  set (e := Z.log2 B - 52) in *.
  rewrite (Z.max_r 0 e) in * by lia.
  rewrite (Z.max_l 0 (- e)) in * by lia.
  change (2 ^ 0) with 1 in *. rewrite !Z.mul_1_r, Z.mul_1_l in *.
  assert (Hpe : 2 <= 2 ^ e).
  { change 2 with (2 ^ 1) at 1. apply Z.pow_le_mono_r; lia. }
  eexists. split; [|reflexivity].
  destruct (nearest_even_bounds B (2 ^ e) ltac:(lia) ltac:(lia)) as (Hb & _ & _).
  pose proof (Z.div_mod B (2 ^ e) ltac:(lia)) as Hdm.
  pose proof (Z.mod_pos_bound B (2 ^ e) ltac:(lia)) as Hr.
  assert (Hq : 2 ^ 52 <= B / 2 ^ e).
  { apply Z.div_le_lower_bound; lia. }
  change (2 ^ 53) with (2 ^ 52 * 2). nia.
Qed.

(** For a count below [2^53] and a batch size above zero, the float64
    computation of [syncTable] is the ceiling of [totalCount / batchSize]. *)
Lemma totalPages_is_ceiling N B :
  0 <= N < 2 ^ 53 -> 0 < B ->
  Service.totalPages N B = (N + B - 1) / B.
Proof.
  intros HN HB. unfold Service.totalPages.
  destruct (Z.leb_spec 0 N); [|lia].
  destruct (Z.ltb_spec 0 B); [|lia]. simpl.
  destruct (Z.eq_dec N 0) as [->|HN0].
  - unfold Float64.div. simpl.
    symmetry. apply Z.div_small. lia.
  - destruct (of_int_small N ltac:(lia)) as (c & Hc & ->).
    unfold Float64.div. simpl.
    destruct (Z.eqb_spec (N * c) 0); [nia|].
    destruct (Z.lt_ge_cases B (2 ^ 53)) as [HB'|HB'].
    + destruct (of_int_small B ltac:(lia)) as (c' & Hc' & ->). simpl.
      replace (N * c * c') with (N * (c * c')) by ring.
      replace (c * (B * c')) with (B * (c * c')) by ring.
      apply ceil_round_quotient; nia.
    + destruct (of_int_large B HB') as (b & Hb & ->). simpl.
      rewrite Z.mul_1_r.
      rewrite ceil_round_small by nia.
      apply Z.div_unique with (r := N - 1); lia.
Qed.

End Float64Facts.

(** ** Change detection *)

Import Trace.

Lemma hasField_In columns updateField :
  hasField columns updateField = true <-> In updateField columns.
Proof.
  induction columns as [|c columns IH]; simpl.
  - split; [discriminate | tauto].
  - destruct (String.eqb_spec c updateField) as [->|Hne].
    + tauto.
    + rewrite IH. split; [tauto | intros [H|H]; [congruence | exact H]].
Qed.

Section Detection.

Context {W : Type} (handle : forall R, Call R -> W -> R * W).
Context (cfg : SyncConfig).

(** Case analysis on the answer to the next call. *)
Ltac answer :=
  match goal with
  | |- context [handle ?R ?c ?w] =>
      let r := fresh "r" in
      let w' := fresh "w" in
      destruct (handle R c w) as [r w']; try destruct r
  end.

Lemma checkByChecksum_no_last_update sourceTable targetTable :
  emits (fun e => negb (isLastUpdate e))
        (checkByChecksum W handle sourceTable targetTable).
Proof.
  intros w. unfold checkByChecksum, bind, call, ret.
  repeat (answer; simpl); try reflexivity.
  destruct (negb (_ =? _)%Z); reflexivity.
Qed.

Lemma checkByCount_no_last_update sourceTable targetTable :
  emits (fun e => negb (isLastUpdate e))
        (checkByCount W handle sourceTable targetTable).
Proof.
  intros w. unfold checkByCount, bind, call, ret.
  repeat (answer; simpl); try reflexivity.
  destruct (negb (_ =? _)%Z); reflexivity.
Qed.

Lemma getAllColumns_no_last_update db tableName :
  emits (fun e => negb (isLastUpdate e)) (getAllColumns W handle db tableName).
Proof.
  intros w. unfold getAllColumns, bind, call, ret.
  answer; simpl; try reflexivity.
  destruct (Nat.eqb _ 0); reflexivity.
Qed.

(** C6.  With check method update_time: an empty update field gives the
    result of the checksum strategy; an update field that is not in the
    column list re-read from the source gives the result of the checksum
    strategy, run after that read, and so never a "column missing"
    error; a method that is none of update_time, count, checksum gives
    the result of the checksum strategy; and the maximum-timestamp
    queries of the update_time comparison are issued only when the
    method is update_time, the field is not empty and the re-read column
    list holds it. *)
Theorem detector_falls_back_to_checksum
        (task : SyncTask) (columns : list string) (w : W) :
  let pair := getTableConfig cfg (SourceTable task) in
  (CheckMethod pair = "update_time" -> UpdateField pair = "" ->
   needSync W handle cfg task columns w
   = checkByChecksum W handle (SourceTable task) (TargetTable task) w)
  /\ (CheckMethod pair = "update_time" -> UpdateField pair <> "" ->
      forall cols w1 tr1,
        getAllColumns W handle SourceDB (SourceTable task) w
        = (Ok cols, w1, tr1) ->
        ~ In (UpdateField pair) cols ->
        needSync W handle cfg task columns w
        = after tr1 (checkByChecksum W handle (SourceTable task)
                                     (TargetTable task) w1))
  /\ (CheckMethod pair <> "update_time" -> CheckMethod pair <> "count" ->
      needSync W handle cfg task columns w
      = checkByChecksum W handle (SourceTable task) (TargetTable task) w)
  /\ (existsb isLastUpdate (snd (needSync W handle cfg task columns w)) = true ->
      CheckMethod pair = "update_time" /\ UpdateField pair <> ""
      /\ exists cols w1 tr1,
          getAllColumns W handle SourceDB (SourceTable task) w
          = (Ok cols, w1, tr1)
          /\ In (UpdateField pair) cols).
Proof.
  intros pair. unfold needSync. fold pair.
  split; [|split; [|split]].
  - intros Hm Hf. rewrite Hm, Hf. reflexivity.
  - intros Hm Hf cols w1 tr1 Hcols Hnot. rewrite Hm. simpl.
    destruct (String.eqb_spec (UpdateField pair) ""); [contradiction|].
    unfold checkByUpdateTime. unfold bind at 1. rewrite Hcols.
    assert (E : hasField cols (UpdateField pair) = false).
    { destruct (hasField cols (UpdateField pair)) eqn:E; [|reflexivity].
      apply hasField_In in E. contradiction. }
    rewrite E. simpl. unfold after.
    destruct (checkByChecksum W handle (SourceTable task) (TargetTable task) w1)
      as [[r w2] t2]. reflexivity.
  - intros Hm Hc.
    destruct (String.eqb_spec (CheckMethod pair) "update_time"); [contradiction|].
    destruct (String.eqb_spec (CheckMethod pair) "count"); [contradiction|].
    reflexivity.
  - assert (Hno : forall {A} (m : M W A),
               emits (fun e => negb (isLastUpdate e)) m ->
               existsb isLastUpdate (snd (m w)) = true -> False).
    { intros A m Hm H. specialize (Hm w).
      apply existsb_exists in H. destruct H as (e & He & Hl).
      rewrite forallb_forall in Hm. specialize (Hm e He).
      rewrite Hl in Hm. discriminate. }
    destruct (String.eqb_spec (CheckMethod pair) "update_time") as [Hm|Hm].
    + destruct (String.eqb_spec (UpdateField pair) "") as [Hf|Hf].
      * intros H. exfalso.
        apply (Hno _ _ (checkByChecksum_no_last_update _ _) H).
      * intros H. split; [exact Hm|]. split; [exact Hf|].
        unfold checkByUpdateTime in H. unfold bind at 1 in H.
        pose proof (getAllColumns_no_last_update SourceDB (SourceTable task) w)
          as Hg.
        destruct (getAllColumns W handle SourceDB (SourceTable task) w)
          as [[[cols|e] w1] tr1] eqn:Eg; simpl in Hg.
        -- exists cols, w1, tr1. split; [reflexivity|].
           apply hasField_In.
           destruct (hasField cols (UpdateField pair)) eqn:Eh; [reflexivity|].
           exfalso. simpl in H.
           pose proof (checkByChecksum_no_last_update
                         (SourceTable task) (TargetTable task) w1) as Hc.
           destruct (checkByChecksum W handle (SourceTable task)
                                     (TargetTable task) w1) as [[r w2] t2].
           simpl in H, Hc. rewrite existsb_app in H.
           apply orb_true_iff in H. destruct H as [H|H].
           ++ apply existsb_exists in H. destruct H as (e & He & Hl).
              rewrite forallb_forall in Hg. specialize (Hg e He).
              rewrite Hl in Hg. discriminate.
           ++ apply existsb_exists in H. destruct H as (e & He & Hl).
              rewrite forallb_forall in Hc. specialize (Hc e He).
              rewrite Hl in Hc. discriminate.
        -- exfalso. unfold ret in H. simpl in H. rewrite app_nil_r in H.
           apply existsb_exists in H. destruct H as (e0 & He & Hl).
           rewrite forallb_forall in Hg. specialize (Hg e0 He).
           rewrite Hl in Hg. discriminate.
    + destruct (String.eqb_spec (CheckMethod pair) "count").
      * intros H. exfalso.
        apply (Hno _ _ (checkByCount_no_last_update _ _) H).
      * intros H. exfalso.
        apply (Hno _ _ (checkByChecksum_no_last_update _ _) H).
Qed.

End Detection.

Lemma detector_falls_back_witness :
  needSync Mem.DB Mem.handle (Mem.config "incremental" "update_time" "")
           (Mem.task 1) ["id"; "updated_at"] Runs.twoRows
  = checkByChecksum Mem.DB Mem.handle "t" "t" Runs.twoRows
  /\ needSync Mem.DB Mem.handle
              (Mem.config "incremental" "update_time" "modified_at")
              (Mem.task 1) ["id"; "updated_at"] Runs.twoRows
     = after [Ev (QColumnNames SourceDB "t") (Ok ["id"; "updated_at"])]
             (checkByChecksum Mem.DB Mem.handle "t" "t" Runs.twoRows)
  /\ needSync Mem.DB Mem.handle (Mem.config "incremental" "md5" "")
              (Mem.task 1) ["id"; "updated_at"] Runs.twoRows
     = checkByChecksum Mem.DB Mem.handle "t" "t" Runs.twoRows
  /\ exists cols w1 tr1,
      getAllColumns Mem.DB Mem.handle SourceDB "t" Runs.twoRows
      = (Ok cols, w1, tr1)
      /\ In "updated_at" cols.
Proof.
  split; [|split; [|split]].
  - apply (proj1 (detector_falls_back_to_checksum
                    Mem.handle (Mem.config "incremental" "update_time" "")
                    (Mem.task 1) ["id"; "updated_at"] Runs.twoRows));
      reflexivity.
  - pose proof (proj1 (proj2 (detector_falls_back_to_checksum
                    Mem.handle
                    (Mem.config "incremental" "update_time" "modified_at")
                    (Mem.task 1) ["id"; "updated_at"] Runs.twoRows))) as H.
    cbv zeta in H.
    apply (fun Hf => H eq_refl Hf ["id"; "updated_at"] Runs.twoRows
             [Ev (QColumnNames SourceDB "t") (Ok ["id"; "updated_at"])]).
    + discriminate.
    + reflexivity.
    + intros [E|[E|[]]]; discriminate.
  - apply (proj1 (proj2 (proj2 (detector_falls_back_to_checksum
                    Mem.handle (Mem.config "incremental" "md5" "")
                    (Mem.task 1) ["id"; "updated_at"] Runs.twoRows))));
      discriminate.
  - apply (proj2 (proj2 (proj2 (detector_falls_back_to_checksum
                    Mem.handle Runs.incrementalConfig
                    (Mem.task 1) ["id"; "updated_at"] Runs.twoRows)))).
    vm_compute. reflexivity.
Defined.

(** ** Events of the service's computations *)

Section Emits.

Context {W : Type} (handle : forall R, Call R -> W -> R * W).
Context (P : Event -> bool).

Lemma emits_ret {A} (a : A) : emits P (ret W a).
Proof. intros w. reflexivity. Qed.

Lemma emits_call {R} (c : Call R) :
  (forall r, P (Ev c r) = true) -> emits P (call W handle c).
Proof.
  intros H w. unfold call. destruct (handle R c w) as [r w']. simpl.
  rewrite H. reflexivity.
Qed.

Lemma emits_bind {A B} (m : M W A) (k : A -> M W B) :
  emits P m -> (forall a, emits P (k a)) -> emits P (bind W m k).
Proof.
  intros Hm Hk w. unfold bind. specialize (Hm w).
  destruct (m w) as [[a w1] t1]. specialize (Hk a w1).
  destruct (k a w1) as [[b w2] t2]. simpl in *.
  rewrite forallb_app, Hm, Hk. reflexivity.
Qed.

Lemma emits_event {A} (m : M W A) w e :
  emits P m -> In e (snd (m w)) -> P e = true.
Proof. intros H. apply forallb_forall, H. Qed.

End Emits.

(** One step of a proof that a computation emits only events in [P]:
    through a bind, a call, a return, or a case analysis. *)
Ltac emits_step :=
  lazymatch goal with
  | |- emits _ (bind _ _ _) => apply emits_bind; [|intros ?]
  | |- emits _ (ret _ _) => apply emits_ret
  | |- emits _ (call _ _ _) => apply emits_call; intros ?; reflexivity
  | |- emits _ (match ?x with _ => _ end) => destruct x
  | |- emits _ (Transaction _ _ _) => unfold Transaction
  end.

Ltac emits_auto := repeat emits_step.

Section Replication.

Context {W : Type} (handle : forall R, Call R -> W -> R * W).

Lemma applyRecords_emits P table attempt records lastErr :
  (forall s r, P (Ev (TxExec s) r) = true) ->
  (forall d, P (Ev (Sleep d) tt) = true) ->
  emits P (applyRecords W handle table attempt records lastErr).
Proof.
  intros Hx Hs. induction records as [|record rest IH]; simpl.
  - apply emits_ret.
  - unfold syncSingleRecord.
    apply emits_bind; [|intros [e|]].
    + apply emits_bind; [apply emits_call, Hx|].
      intros [z|e]; apply emits_ret.
    + apply emits_bind; [apply emits_call; intros []; apply Hs|].
      intros _. apply emits_ret.
    + exact IH.
Qed.

Lemma retryLoop_emits P table records remaining : forall attempt lastErr,
  (forall s r, P (Ev (TxExec s) r) = true) ->
  (forall d, P (Ev (Sleep d) tt) = true) ->
  emits P (retryLoop W handle table records remaining attempt lastErr).
Proof.
  induction remaining as [|n IH]; intros attempt lastErr Hx Hs; simpl.
  - apply emits_ret.
  - apply emits_bind; [apply applyRecords_emits; assumption|].
    intros [e|]; [apply IH; assumption | apply emits_ret].
Qed.

Lemma syncBatchData_emits P table records :
  (forall e, isTransactional e = true -> P e = true) ->
  emits P (syncBatchData W handle table records).
Proof.
  intros HP. unfold syncBatchData, Transaction.
  apply emits_bind; [apply emits_call; intros r; apply HP; reflexivity|].
  intros [e|]; [apply emits_ret|].
  apply emits_bind.
  - apply emits_bind; [apply emits_call; intros r; apply HP; reflexivity|].
    intros _. destruct (Nat.eqb _ 0); [apply emits_ret|].
    apply retryLoop_emits; intros; apply HP; reflexivity.
  - intros [e|].
    + apply emits_bind; [apply emits_call; intros r; apply HP; reflexivity|].
      intros _. apply emits_ret.
    + apply emits_bind; [apply emits_call; intros r; apply HP; reflexivity|].
      intros [e|]; [|apply emits_ret].
      apply emits_bind; [apply emits_call; intros r; apply HP; reflexivity|].
      intros _. apply emits_ret.
Qed.

(** Once [lastErr] is set, a pass leaves it set. *)
Lemma applyRecords_keeps_error table attempt records e w :
  fst (fst (applyRecords W handle table attempt records (Some e) w)) <> None.
Proof.
  revert w. induction records as [|record rest IH]; intros w; simpl.
  - discriminate.
  - unfold bind at 1.
    destruct (syncSingleRecord W handle table record w) as [[[err|] w1] t1].
    + unfold bind, call, ret. destruct (handle unit _ w1). simpl. discriminate.
    + specialize (IH w1).
      destruct (applyRecords W handle table attempt rest (Some e) w1)
        as [[r w2] t2]. exact IH.
Qed.

(** Once [lastErr] is set, the retry loop ends in an error: the later
    passes cannot clear it. *)
Lemma retryLoop_keeps_error table records remaining :
  forall attempt e w,
    fst (fst (retryLoop W handle table records remaining attempt (Some e) w))
    <> None.
Proof.
  induction remaining as [|n IH]; intros attempt e w; simpl.
  - discriminate.
  - unfold bind.
    pose proof (applyRecords_keeps_error table attempt records e w) as H.
    destruct (applyRecords W handle table attempt records (Some e) w)
      as [[[e'|] w1] t1]; simpl in H; [|congruence].
    specialize (IH (attempt + 1)%Z e' w1).
    destruct (retryLoop W handle table records n (attempt + 1)%Z (Some e') w1)
      as [[r w2] t2]. exact IH.
Qed.

(** The retry loop succeeds only when its first pass applies every
    record without error. *)
Lemma retryLoop_success_is_first_pass table records w :
  fst (fst (retryLoop W handle table records retryCount 0%Z None w)) = None ->
  fst (fst (applyRecords W handle table 0%Z records None w)) = None.
Proof.
  unfold retryCount.
  change (retryLoop W handle table records 3 0%Z None)
    with (bind W (applyRecords W handle table 0%Z records None)
            (fun lastErr' =>
               match lastErr' with
               | None => ret W None
               | Some _ =>
                   retryLoop W handle table records 2 (0 + 1)%Z lastErr'
               end)).
  unfold bind.
  destruct (applyRecords W handle table 0%Z records None w)
    as [[[e|] w1] t1]; [|reflexivity].
  pose proof (retryLoop_keeps_error table records 2 (0 + 1)%Z e w1) as Hk.
  destruct (retryLoop W handle table records 2 (0 + 1)%Z (Some e) w1)
    as [[r w2] t2].
  cbn [fst snd] in *. intros H. contradiction.
Qed.

Lemma backoff_value attempt :
  (0 <= attempt)%Z ->
  backoff attempt = Z.min (baseDelay * 2 ^ attempt) maxRetryDelay
  /\ (backoff attempt <= maxRetryDelay)%Z.
Proof.
  intros H. unfold backoff.
  destruct (Z.gtb_spec (baseDelay * 2 ^ attempt) maxRetryDelay); lia.
Qed.

Lemma applyRecords_sleeps table attempt records lastErr w d :
  In d (sleeps (snd (applyRecords W handle table attempt records lastErr w))) ->
  d = backoff attempt.
Proof.
  revert w. induction records as [|record rest IH]; intros w; simpl.
  - intros [].
  - unfold bind at 1. unfold syncSingleRecord, bind, call, ret.
    destruct (handle _ (TxExec (Upsert table record)) w) as [[z|e] w1]; simpl.
    + specialize (IH w1).
      destruct (applyRecords W handle table attempt rest lastErr w1)
        as [[r w2] t2]. simpl in *. exact IH.
    + destruct (handle unit (Sleep (backoff attempt)) w1) as [[] w2]. simpl.
      intros [H|[]]. congruence.
Qed.

(** Every delay slept by the retry loop is the capped exponential
    backoff of one of its attempts. *)
Lemma retryLoop_sleeps table records remaining : forall attempt lastErr w d,
  In d (sleeps (snd (retryLoop W handle table records remaining attempt
                               lastErr w))) ->
  exists k, (attempt <= k < attempt + Z.of_nat remaining)%Z /\ d = backoff k.
Proof.
  induction remaining as [|n IH]; intros attempt lastErr w d; simpl.
  - intros [].
  - unfold bind.
    pose proof (applyRecords_sleeps table attempt records lastErr w d) as Ha.
    destruct (applyRecords W handle table attempt records lastErr w)
      as [[[e|] w1] t1]; simpl in *.
    + specialize (IH (attempt + 1)%Z (Some e) w1 d).
      destruct (retryLoop W handle table records n (attempt + 1)%Z (Some e) w1)
        as [[r w2] t2]. simpl in *.
      unfold sleeps in *. rewrite flat_map_app, in_app_iff.
      intros [H|H].
      * exists attempt. split; [lia | auto].
      * destruct (IH H) as (k & Hk & ->). exists k. split; [lia | reflexivity].
    + rewrite app_nil_r. intros H. exists attempt. split; [lia | auto].
Qed.

End Replication.

(** C1, on the code: a page whose only record fails on the first and on
    the second attempt and is applied without error on the third.  The
    third pass runs clean, yet [lastErr] still holds the error of the
    second, so [syncBatchData] returns the "retried 3 times" error and
    the transaction is rolled back; the two delays slept are 100 ms and
    200 ms. *)
Theorem third_attempt_success_still_fails :
  fst (fst Runs.flakyRun)
  = Some "批量同步失败，已重试 3 次: 更新记录失败: Error 1213: deadlock"
  /\ snd Runs.flakyRun
     = [Ev TxBegin None;
        Ev (TxExec DisableForeignKeyChecks) (Ok 0%Z);
        Ev (TxExec (Upsert "t" (Mem.row 1 10%Z))) (Err "Error 1213: deadlock");
        Ev (Sleep 100000000%Z) tt;
        Ev (TxExec (Upsert "t" (Mem.row 1 10%Z))) (Err "Error 1213: deadlock");
        Ev (Sleep 200000000%Z) tt;
        Ev (TxExec (Upsert "t" (Mem.row 1 10%Z))) (Ok 1%Z);
        Ev TxRollback None]
  /\ Mem.tgt_rows (snd (fst Runs.flakyRun)) = [].
Proof. vm_compute. repeat split. Qed.

(** ** The page loop *)

Import Closing.

Lemma transactional_trace tr :
  forallb isTransactional tr = true ->
  floorReads tr = [] /\ pageFloors tr = [] /\ pageReads tr = []
  /\ forallb (fun e => negb (isSourceRead e)) tr = true.
Proof.
  induction tr as [|e tr IH]; simpl; [auto|].
  intros H. apply andb_true_iff in H. destruct H as [He H].
  destruct (IH H) as (E1 & E2 & E3 & E4).
  unfold floorReads, pageFloors, pageReads in *. simpl.
  rewrite E1, E2, E3, E4.
  destruct e as [R c r]. destruct c; simpl in *; try discriminate; auto.
Qed.

Section PageLoop.

Context {W : Type} (handle : forall R, Call R -> W -> R * W).
Context (cfg : SyncConfig) (task : SyncTask).

Lemma syncBatchData_transactional table records w :
  forallb isTransactional (snd (syncBatchData W handle table records w)) = true.
Proof. apply (syncBatchData_emits handle isTransactional). auto. Qed.

(** Every call of [syncBatchData] begins exactly one transaction. *)
Lemma syncBatchData_batches table records w :
  batches (snd (syncBatchData W handle table records w)) = 1%nat.
Proof.
  unfold syncBatchData, Transaction. unfold bind at 1. unfold call at 1.
  destruct (handle _ TxBegin w) as [b w1].
  match goal with
  | |- context [match b with Some e => ret W (Some e) | None => ?k end] =>
      assert (Hk : emits (fun e => negb (isBegin e)) k)
  end.
  { apply emits_bind.
    - apply emits_bind; [apply emits_call; intros; reflexivity|].
      intros _. destruct (Nat.eqb _ 0); [apply emits_ret|].
      apply retryLoop_emits; intros; reflexivity.
    - intros [e|]; emits_auto. }
  destruct b as [e|].
  - reflexivity.
  - specialize (Hk w1).
    match goal with
    | H : forallb _ (snd (?k w1)) = true |- _ =>
        destruct (k w1) as [[r w2] t2]
    end.
    simpl in *. unfold batches. simpl. f_equal.
    induction t2 as [|e t2 IH]; simpl in *; [reflexivity|].
    apply andb_true_iff in Hk. destruct Hk as [He Hk].
    apply negb_true_iff in He. rewrite He. apply IH, Hk.
Qed.

(** One turn of the page loop that did not end it: the page was read,
    applied in one transaction, and the loop went on. *)
Lemma syncPages_step batchSize remaining page w w' tr :
  syncPages W handle cfg task batchSize (S remaining) page w = (None, w', tr) ->
  exists records w1 t1 w2 t2 t3,
    readPage W handle cfg task (page * batchSize)%Z batchSize w
    = (Ok records, w1, t1)
    /\ syncBatchData W handle (TargetTable task) records w1 = (None, w2, t2)
    /\ syncPages W handle cfg task batchSize remaining (page + 1)%Z w2
       = (None, w', t3)
    /\ tr = (t1 ++ t2 ++ t3)%list.
Proof.
  cbn [syncPages]. unfold bind at 1.
  destruct (readPage W handle cfg task (page * batchSize)%Z batchSize w)
    as [[[records|e] w1] t1] eqn:E1; [|intros H; inversion H].
  unfold bind at 1.
  destruct (syncBatchData W handle (TargetTable task) records w1)
    as [[[e|] w2] t2] eqn:E2; [intros H; inversion H|].
  destruct (syncPages W handle cfg task batchSize remaining (page + 1)%Z w2)
    as [[r w3] t3] eqn:E3.
  intros H. inversion H; subst.
  exists records, w1, t1, w2, t2, t3. repeat split; reflexivity || assumption.
Qed.

Lemma readPage_full offset batchSize :
  SyncMode cfg = "full" ->
  readPage W handle cfg task offset batchSize
  = call W handle (QFindPage (SourceTable task) offset batchSize).
Proof. intros H. unfold readPage. rewrite H. reflexivity. Qed.

Lemma readPage_floor offset batchSize :
  SyncMode cfg <> "full" ->
  CheckMethod (getTableConfig cfg (SourceTable task)) = "update_time" ->
  UpdateField (getTableConfig cfg (SourceTable task)) <> "" ->
  readPage W handle cfg task offset batchSize
  = bind W (call W handle
                 (QLastUpdate TargetDB (TargetTable task)
                    (UpdateField (getTableConfig cfg (SourceTable task)))))
         (fun f =>
            match f with
            | Err e => ret W (Err e)
            | Ok lastTargetUpdate =>
                call W handle
                     (QFindPageAfter (SourceTable task)
                        (UpdateField (getTableConfig cfg (SourceTable task)))
                        lastTargetUpdate offset batchSize)
            end).
Proof.
  intros Hm Hc Hf. unfold readPage.
  destruct (String.eqb_spec (SyncMode cfg) "full"); [contradiction|].
  rewrite Hc.
  destruct (String.eqb_spec
              (UpdateField (getTableConfig cfg (SourceTable task))) "");
    [contradiction|].
  reflexivity.
Qed.

Lemma readPage_nothing offset batchSize :
  SyncMode cfg <> "full" ->
  CheckMethod (getTableConfig cfg (SourceTable task)) <> "update_time"
  \/ UpdateField (getTableConfig cfg (SourceTable task)) = "" ->
  readPage W handle cfg task offset batchSize = ret W (Ok []).
Proof.
  intros Hm Hc. unfold readPage.
  destruct (String.eqb_spec (SyncMode cfg) "full"); [contradiction|].
  destruct Hc as [Hc|Hc].
  - destruct (String.eqb_spec
                (CheckMethod (getTableConfig cfg (SourceTable task)))
                "update_time"); [contradiction|].
    reflexivity.
  - rewrite Hc, andb_false_r. reflexivity.
Qed.

Lemma readPage_no_begin offset batchSize :
  emits (fun e => negb (isBegin e))
        (readPage W handle cfg task offset batchSize).
Proof.
  unfold readPage.
  destruct (String.eqb (SyncMode cfg) "full"); [emits_auto|].
  destruct (_ && _); emits_auto.
Qed.

Lemma batches_app t1 t2 : batches (t1 ++ t2) = (batches t1 + batches t2)%nat.
Proof. unfold batches. rewrite filter_app, length_app. reflexivity. Qed.

Lemma batches_none tr :
  forallb (fun e => negb (isBegin e)) tr = true -> batches tr = 0%nat.
Proof.
  unfold batches. induction tr as [|e tr IH]; simpl; [reflexivity|].
  intros H. apply andb_true_iff in H. destruct H as [He H].
  apply negb_true_iff in He. rewrite He. apply IH, H.
Qed.

(** A page loop that runs to its end has begun one transaction per
    page. *)
Lemma syncPages_batches batchSize remaining : forall page w w' tr,
  syncPages W handle cfg task batchSize remaining page w = (None, w', tr) ->
  batches tr = remaining.
Proof.
  induction remaining as [|n IH]; intros page w w' tr H.
  - inversion H. reflexivity.
  - apply syncPages_step in H.
    destruct H as (records & w1 & t1 & w2 & t2 & t3 & H1 & H2 & H3 & ->).
    rewrite !batches_app, (IH _ _ _ _ H3).
    pose proof (readPage_no_begin (page * batchSize)%Z batchSize w) as Hr.
    rewrite H1 in Hr. simpl in Hr. rewrite (batches_none _ Hr).
    pose proof (syncBatchData_batches (TargetTable task) records w1) as Hb.
    rewrite H2 in Hb. simpl in Hb. rewrite Hb. reflexivity.
Qed.

(** In full mode, and in incremental mode with a floor, a page loop that
    runs to its end has read its pages at the offsets
    [page * batchSize], [batchSize] rows at most each. *)
Lemma syncPages_reads batchSize remaining : forall page w w' tr,
  SyncMode cfg = "full"
  \/ (CheckMethod (getTableConfig cfg (SourceTable task)) = "update_time"
      /\ UpdateField (getTableConfig cfg (SourceTable task)) <> "") ->
  syncPages W handle cfg task batchSize remaining page w = (None, w', tr) ->
  pageReads tr
  = List.map (fun i => (SourceTable task,
                        ((page + Z.of_nat i) * batchSize)%Z, batchSize))
             (seq 0 remaining).
Proof.
  induction remaining as [|n IH]; intros page w w' tr Hmode H.
  - inversion H. reflexivity.
  - apply syncPages_step in H.
    destruct H as (records & w1 & t1 & w2 & t2 & t3 & H1 & H2 & H3 & ->).
    assert (E1 : pageReads t1
                 = [(SourceTable task, (page * batchSize)%Z, batchSize)]).
    { destruct (String.eqb_spec (SyncMode cfg) "full") as [Hfull|Hinc].
      - rewrite readPage_full in H1 by exact Hfull.
        unfold call in H1.
        destruct (handle _ (QFindPage (SourceTable task) (page * batchSize)%Z
                                      batchSize) w) as [r w0].
        inversion H1; subst. reflexivity.
      - destruct Hmode as [Hfull|[Hc Hf]]; [contradiction|].
        rewrite readPage_floor in H1 by assumption.
        unfold bind, call, ret in H1.
        destruct (handle _ (QLastUpdate TargetDB (TargetTable task)
                    (UpdateField (getTableConfig cfg (SourceTable task)))) w)
          as [[floor|e] w0]; [|inversion H1].
        destruct (handle _ (QFindPageAfter (SourceTable task)
                    (UpdateField (getTableConfig cfg (SourceTable task)))
                    floor (page * batchSize)%Z batchSize) w0) as [r w0'].
        inversion H1; subst. reflexivity. }
    pose proof (syncBatchData_transactional (TargetTable task) records w1) as Ht.
    rewrite H2 in Ht. simpl in Ht.
    destruct (transactional_trace _ Ht) as (_ & _ & E & _).
    unfold pageReads in *. rewrite !flat_map_app, E1, E, (IH _ _ _ _ Hmode H3).
    simpl. rewrite Z.add_0_r. f_equal.
    rewrite <- seq_shift, map_map. apply map_ext. intros i.
    replace (page + 1 + Z.of_nat i)%Z with (page + Z.of_nat (S i))%Z by lia.
    reflexivity.
Qed.

(** With a floor to read, a page loop that runs to its end has read the
    floor once per page and filtered each page against the floor read
    for it. *)
Lemma syncPages_floors batchSize remaining : forall page w w' tr,
  SyncMode cfg <> "full" ->
  CheckMethod (getTableConfig cfg (SourceTable task)) = "update_time" ->
  UpdateField (getTableConfig cfg (SourceTable task)) <> "" ->
  syncPages W handle cfg task batchSize remaining page w = (None, w', tr) ->
  List.length (floorReads tr) = remaining /\ pageFloors tr = floorReads tr.
Proof.
  induction remaining as [|n IH]; intros page w w' tr Hm Hc Hf H.
  - inversion H. split; reflexivity.
  - apply syncPages_step in H.
    destruct H as (records & w1 & t1 & w2 & t2 & t3 & H1 & H2 & H3 & ->).
    rewrite readPage_floor in H1 by assumption.
    unfold bind, call, ret in H1.
    destruct (handle _ (QLastUpdate TargetDB (TargetTable task)
                (UpdateField (getTableConfig cfg (SourceTable task)))) w)
      as [[floor|e] w0]; [|inversion H1].
    destruct (handle _ (QFindPageAfter (SourceTable task)
                (UpdateField (getTableConfig cfg (SourceTable task)))
                floor (page * batchSize)%Z batchSize) w0) as [r w0'].
    inversion H1; subst.
    pose proof (syncBatchData_transactional (TargetTable task) records w1) as Ht.
    rewrite H2 in Ht. simpl in Ht.
    destruct (transactional_trace _ Ht) as (E1 & E2 & _ & _).
    destruct (IH _ _ _ _ Hm Hc Hf H3) as [IH1 IH2].
    unfold floorReads, pageFloors in *. simpl.
    rewrite !flat_map_app, E1, E2, IH2. simpl. rewrite IH1.
    split; reflexivity.
Qed.

End PageLoop.

(** ** One task run *)

Section TaskRun.

Context {W : Type} (handle : forall R, Call R -> W -> R * W).
Context (cfg : SyncConfig) (task : SyncTask).

Lemma after_after {A} t1 t2 (r : A * W * list Event) :
  after t1 (after t2 r) = after (t1 ++ t2) r.
Proof. destruct r as [[a w] t]. simpl. rewrite app_assoc. reflexivity. Qed.

Lemma bind_run {A B} (m : M W A) (k : A -> M W B) w a w1 t1 :
  m w = (a, w1, t1) -> bind W m k w = after t1 (k a w1).
Proof.
  intros H. unfold bind. rewrite H. destruct (k a w1) as [[b w2] t2].
  reflexivity.
Qed.

(** A run that reaches the page loop continues with the loop, and with
    what follows it. *)
Lemma syncTable_at_pages w columns totalCount w1 tr1 :
  reachesPages handle cfg task w columns totalCount w1 tr1 ->
  syncTable W handle cfg task w
  = after tr1 (pagesThenCleanup handle cfg task columns totalCount w1).
Proof.
  intros (u1 & u2 & t2 & u3 & t3 & u4 & t4 & H1 & H2 & H3 & H4 & H5 & ->).
  unfold syncTable, notifyStart.
  rewrite (bind_run _ _ w tt u1 [Ev (Notify task OnSyncStart) tt])
    by (unfold call; rewrite H1; reflexivity).
  rewrite (bind_run _ _ u1 _ _ _ H2).
  rewrite (bind_run _ _ u2 _ _ _ H3).
  rewrite (bind_run _ _ u3 _ _ _ H4).
  rewrite (bind_run _ _ u4 (Ok totalCount) w1
             [Ev (QCount SourceDB (SourceTable task)) (Ok totalCount)])
    by (unfold call; rewrite H5; reflexivity).
  rewrite !after_after. unfold pagesThenCleanup, cleanupAndComplete.
  f_equal. simpl. rewrite <- !app_assoc. reflexivity.
Qed.

(** When the page loop runs to its end, drift cleanup comes next. *)
Lemma syncTable_pages_done w columns totalCount w1 tr1 w2 tr2 :
  reachesPages handle cfg task w columns totalCount w1 tr1 ->
  syncPages W handle cfg task (BatchSize task)
            (Z.to_nat (totalPages totalCount (BatchSize task))) 0%Z w1
  = (None, w2, tr2) ->
  syncTable W handle cfg task w
  = after (tr1 ++ tr2) (cleanupAndComplete handle task columns w2).
Proof.
  intros Hr Hp. rewrite (syncTable_at_pages _ _ _ _ _ Hr).
  unfold pagesThenCleanup. rewrite (bind_run _ _ _ _ _ _ Hp).
  apply after_after.
Qed.

(** A clean drift cleanup ends the run with status "completed" and the
    task's error field untouched. *)
Lemma cleanupAndComplete_status columns w :
  fst (fst (cleanupTargetTable W handle (SourceTable task) (TargetTable task)
                               columns w)) = None ->
  Status (fst (fst (cleanupAndComplete handle task columns w))) = "completed"
  /\ Error (fst (fst (cleanupAndComplete handle task columns w))) = Error task.
Proof.
  unfold cleanupAndComplete, bind.
  destruct (cleanupTargetTable W handle (SourceTable task) (TargetTable task)
                               columns w) as [[cl w1] t1].
  simpl. intros ->. unfold complete, notifyComplete, bind, call, ret.
  destruct (handle unit _ w1) as [[] w2]. simpl. split; reflexivity.
Qed.

Lemma after_value {A} tr (r : A * W * list Event) :
  fst (fst (after tr r)) = fst (fst r).
Proof. destruct r as [[a w] t]. reflexivity. Qed.

End TaskRun.

(** ** Replication without a floor *)

Section NoFloor.

Context {W : Type} (handle : forall R, Call R -> W -> R * W).
Context (cfg : SyncConfig) (task : SyncTask).

Lemma emits_bind_ret P {A B} (a : A) (k : A -> M W B) :
  emits P (k a) -> emits P (bind W (ret W a) k).
Proof.
  intros H w. unfold bind, ret. specialize (H w).
  destruct (k a w) as [[b w2] t2]. exact H.
Qed.

Lemma addMissingColumns_noReplication targetTable targetColMap sourceCols :
  emits noReplication
        (addMissingColumns W handle targetTable targetColMap sourceCols).
Proof.
  induction sourceCols as [|col rest IH]; simpl; [apply emits_ret|].
  destruct (GoMap.get targetColMap (ColumnName col)) as [[|]|];
    [exact IH | |]; (apply emits_bind; [emits_auto|]);
    intros [e|]; [apply emits_ret | exact IH | apply emits_ret | exact IH].
Qed.

Lemma getAllColumns_noReplication db tableName :
  emits noReplication (getAllColumns W handle db tableName).
Proof. unfold getAllColumns. emits_auto. Qed.

Lemma syncTableSchema_noReplication :
  emits noReplication (syncTableSchema W handle task).
Proof.
  unfold syncTableSchema, getColumnDetails.
  apply emits_bind; [emits_auto|]. intros [sourceCols|e]; [|apply emits_ret].
  apply emits_bind; [apply getAllColumns_noReplication|].
  intros [targetColNames|e]; [|apply emits_ret].
  apply addMissingColumns_noReplication.
Qed.

Lemma needSync_noReplication columns :
  emits noReplication (needSync W handle cfg task columns).
Proof.
  unfold needSync, checkByUpdateTime, checkByChecksum, checkByCount.
  destruct (String.eqb (CheckMethod _) "update_time").
  - destruct (String.eqb (UpdateField _) ""); [emits_auto|].
    apply emits_bind; [apply getAllColumns_noReplication|].
    intros [cols|e]; [|apply emits_ret].
    destruct (negb _); emits_auto.
  - destruct (String.eqb (CheckMethod _) "count"); emits_auto.
Qed.

Lemma cleanupTargetTable_noReplication sourceTable targetTable columns :
  emits noReplication
        (cleanupTargetTable W handle sourceTable targetTable columns).
Proof. unfold cleanupTargetTable, getPrimaryKey. emits_auto. Qed.

Lemma notifyError_noReplication err :
  emits noReplication (notifyError W handle task err).
Proof. unfold notifyError. emits_auto. Qed.

Lemma complete_noReplication : emits noReplication (complete W handle task).
Proof. unfold complete, notifyComplete. emits_auto. Qed.

Lemma syncBatchData_empty_noReplication table :
  emits noReplication (syncBatchData W handle table []).
Proof. unfold syncBatchData. simpl. emits_auto. Qed.

Hypothesis incremental : SyncMode cfg <> "full".
Hypothesis no_floor :
  CheckMethod (getTableConfig cfg (SourceTable task)) <> "update_time"
  \/ UpdateField (getTableConfig cfg (SourceTable task)) = "".

Lemma syncPages_noReplication batchSize remaining : forall page,
  emits noReplication (syncPages W handle cfg task batchSize remaining page).
Proof.
  induction remaining as [|n IH]; intros page; simpl; [apply emits_ret|].
  rewrite (readPage_nothing handle cfg task _ _ incremental no_floor).
  apply emits_bind_ret.
  apply emits_bind; [apply syncBatchData_empty_noReplication|].
  intros [e|]; [apply emits_ret | apply IH].
Qed.

Lemma syncTable_noReplication :
  emits noReplication (syncTable W handle cfg task).
Proof.
  unfold syncTable, notifyStart.
  apply emits_bind; [emits_auto|]. intros _.
  apply emits_bind; [apply syncTableSchema_noReplication|].
  intros [e|]; [apply notifyError_noReplication|].
  apply emits_bind; [apply getAllColumns_noReplication|].
  intros [columns|e]; [|apply notifyError_noReplication].
  apply emits_bind; [apply needSync_noReplication|].
  intros [[|] [e|]]; try apply notifyError_noReplication;
    [|apply complete_noReplication].
  apply emits_bind; [emits_auto|].
  intros [totalCount|e]; [|apply notifyError_noReplication].
  apply emits_bind; [apply syncPages_noReplication|].
  intros [e|]; [apply notifyError_noReplication|].
  apply emits_bind; [apply cleanupTargetTable_noReplication|].
  intros [e|]; [apply notifyError_noReplication | apply complete_noReplication].
Qed.

End NoFloor.

(** C10.  In incremental mode (any mode but "full"), when the table
    pair's check method is not update_time or its update field is empty:
    every page's source-record slice stays empty and nothing is read for
    it; the whole run issues no page read and no upsert; and when the
    page loop runs to its end, drift cleanup is what runs next, its
    result deciding the task's status. *)
Theorem incremental_without_floor_only_cleans
        {W : Type} (handle : forall R, Call R -> W -> R * W)
        (cfg : SyncConfig) (task : SyncTask) :
  SyncMode cfg <> "full" ->
  CheckMethod (getTableConfig cfg (SourceTable task)) <> "update_time"
  \/ UpdateField (getTableConfig cfg (SourceTable task)) = "" ->
  (forall offset batchSize w,
      readPage W handle cfg task offset batchSize w = (Ok [], w, []))
  /\ emits noReplication (syncTable W handle cfg task)
  /\ (forall w columns totalCount w1 tr1 w2 tr2,
         reachesPages handle cfg task w columns totalCount w1 tr1 ->
         syncPages W handle cfg task (BatchSize task)
                   (Z.to_nat (totalPages totalCount (BatchSize task))) 0%Z w1
         = (None, w2, tr2) ->
         syncTable W handle cfg task w
         = after (tr1 ++ tr2) (cleanupAndComplete handle task columns w2)).
Proof.
  intros Hm Hf. split; [|split].
  - intros offset batchSize w.
    rewrite (readPage_nothing handle cfg task _ _ Hm Hf). reflexivity.
  - apply syncTable_noReplication; assumption.
  - intros w columns totalCount w1 tr1 w2 tr2.
    apply syncTable_pages_done.
Qed.

Lemma drifted_reaches_pages :
  reachesPages Mem.handle Scenes.checksumConfig (Mem.task 1) Scenes.drifted
               ["id"; "updated_at"] 1
               (fst (Scenes.beforePages Scenes.checksumConfig (Mem.task 1)
                                        Scenes.drifted))
               (snd (Scenes.beforePages Scenes.checksumConfig (Mem.task 1)
                                        Scenes.drifted)).
Proof.
  unfold reachesPages. do 7 eexists.
  repeat (split; [vm_compute; reflexivity|]). vm_compute. reflexivity.
Qed.

Lemma incremental_without_floor_witness :
  readPage Mem.DB Mem.handle Scenes.checksumConfig (Mem.task 1) 0 1
           Scenes.drifted = (Ok [], Scenes.drifted, [])
  /\ forallb noReplication (snd Scenes.driftedRun) = true
  /\ Scenes.driftedRun
     = after (snd (Scenes.beforePages Scenes.checksumConfig (Mem.task 1)
                                      Scenes.drifted)
              ++ snd (Scenes.pageLoop Scenes.checksumConfig (Mem.task 1) 1
                                      Scenes.drifted))
             (cleanupAndComplete Mem.handle (Mem.task 1) ["id"; "updated_at"]
                (snd (fst (Scenes.pageLoop Scenes.checksumConfig (Mem.task 1) 1
                                           Scenes.drifted))))
  /\ snd (Scenes.pageLoop Scenes.checksumConfig (Mem.task 1) 1 Scenes.drifted)
     = [Ev TxBegin None; Ev (TxExec DisableForeignKeyChecks) (Ok 0%Z);
        Ev TxCommit None]
  /\ Mem.tgt_rows Scenes.drifted = [Mem.row 3 5%Z]
  /\ Mem.src_rows Scenes.drifted = [Mem.row 1 10%Z]
  /\ Status (fst (fst Scenes.driftedRun)) = "completed"
  /\ Mem.tgt_rows (snd (fst Scenes.driftedRun)) = [].
Proof.
  destruct (incremental_without_floor_only_cleans
              Mem.handle Scenes.checksumConfig (Mem.task 1))
    as (Hread & Hemits & Hnext).
  - discriminate.
  - left. discriminate.
  - split; [apply Hread|]. split; [apply (Hemits Scenes.drifted)|].
    split.
    + apply (Hnext Scenes.drifted ["id"; "updated_at"] 1%Z
                   _ _ _ _ drifted_reaches_pages).
      vm_compute. reflexivity.
    + vm_compute. repeat split.
Defined.

(** ** The floor of incremental replication *)

(** C2, as stated, fails: with batch size 1, source rows stamped 10 and
    20 and an empty target, the page loop reads the floor twice, 0 before
    the first page and 10 before the second, after the first page was
    written, and filters the two pages against these two different
    floors. *)
Lemma floor_is_read_again_for_the_second_page :
  fst (fst Runs.incrementalPages) = None
  /\ floorReads (snd Runs.incrementalPages) = [0%Z; 10%Z]
  /\ pageFloors (snd Runs.incrementalPages) = [0%Z; 10%Z].
Proof. vm_compute. repeat split. Qed.

(** C2, amended.  In incremental mode with the update_time strategy and
    a non-empty update field, the floor (the target's current maximum
    of the update field) is read inside the page loop, once for every
    page, just before that page's source query, which filters against
    the value just read; a loop that runs [n] pages to the end has read
    [n] floors, one per page query and equal to it. *)
Theorem floor_is_read_once_per_page
        {W : Type} (handle : forall R, Call R -> W -> R * W)
        (cfg : SyncConfig) (task : SyncTask) :
  SyncMode cfg <> "full" ->
  CheckMethod (getTableConfig cfg (SourceTable task)) = "update_time" ->
  UpdateField (getTableConfig cfg (SourceTable task)) <> "" ->
  (forall offset batchSize w floor w1,
      handle _ (QLastUpdate TargetDB (TargetTable task)
                  (UpdateField (getTableConfig cfg (SourceTable task)))) w
      = (Ok floor, w1) ->
      readPage W handle cfg task offset batchSize w
      = after [Ev (QLastUpdate TargetDB (TargetTable task)
                     (UpdateField (getTableConfig cfg (SourceTable task))))
                  (Ok floor)]
              (call W handle
                    (QFindPageAfter (SourceTable task)
                       (UpdateField (getTableConfig cfg (SourceTable task)))
                       floor offset batchSize) w1))
  /\ (forall batchSize remaining page w w' tr,
         syncPages W handle cfg task batchSize remaining page w
         = (None, w', tr) ->
         List.length (floorReads tr) = remaining
         /\ pageFloors tr = floorReads tr).
Proof.
  intros Hm Hc Hf. split.
  - intros offset batchSize w floor w1 H.
    rewrite (readPage_floor handle cfg task _ _ Hm Hc Hf).
    rewrite (bind_run _ _ w (Ok floor) w1
               [Ev (QLastUpdate TargetDB (TargetTable task)
                      (UpdateField (getTableConfig cfg (SourceTable task))))
                   (Ok floor)])
      by (unfold call; rewrite H; reflexivity).
    reflexivity.
  - intros batchSize remaining page w w' tr.
    apply syncPages_floors; assumption.
Qed.

Lemma floor_is_read_once_per_page_witness :
  readPage Mem.DB Mem.handle Runs.incrementalConfig (Mem.task 1) 0 1
           Runs.twoRows
  = after [Ev (QLastUpdate TargetDB "t" "updated_at") (Ok 0%Z)]
          (call Mem.DB Mem.handle
                (QFindPageAfter "t" "updated_at" 0%Z 0 1) Runs.twoRows)
  /\ List.length (floorReads (snd Runs.incrementalPages)) = 2%nat
  /\ pageFloors (snd Runs.incrementalPages)
     = floorReads (snd Runs.incrementalPages).
Proof.
  destruct (floor_is_read_once_per_page
              Mem.handle Runs.incrementalConfig (Mem.task 1))
    as (Hpage & Hloop).
  - discriminate.
  - reflexivity.
  - discriminate.
  - split.
    + apply (Hpage 0%Z 1%Z Runs.twoRows 0%Z Runs.twoRows). reflexivity.
    + apply (Hloop 1%Z 2%nat 0%Z Runs.twoRows
                   (snd (fst Runs.incrementalPages))).
      vm_compute. reflexivity.
Defined.

(** ** The number of pages *)

(** C7, as stated, fails.  For a count of [2^53 + 1] and batch size 1
    the float64 ceiling gives [2^53] pages, one short of
    [ceiling(N / B)].  With an empty source whose run reaches drift
    cleanup, a failing primary-key query ends the task with status
    "error", though no page was issued.  And a task that an earlier run
    left in error, run again on an empty source with a clean cleanup,
    ends with status "completed" and the old error still in its error
    field. *)
Lemma page_count_counterexample :
  totalPages (2 ^ 53 + 1) 1 = (2 ^ 53)%Z
  /\ ((2 ^ 53 + 1 + 1 - 1) / 1 = 2 ^ 53 + 1)%Z
  /\ In (Ev (QCount SourceDB "t") (Ok 0%Z)) (snd Scenes.emptySourceRun)
  /\ batches (snd Scenes.emptySourceRun) = 0%nat
  /\ Status (fst (fst Scenes.emptySourceRun)) = "error"
  /\ In (Ev (QCount SourceDB "t") (Ok 0%Z)) (snd Scenes.rerun)
  /\ pageReads (snd Scenes.rerun) = []
  /\ Status (fst (fst Scenes.rerun)) = "completed"
  /\ Error (fst (fst Scenes.rerun)) = Some "old failure".
Proof.
  split; [vm_compute; reflexivity|]. split; [vm_compute; reflexivity|].
  split; [vm_compute; tauto|]. split; [vm_compute; reflexivity|].
  split; [vm_compute; reflexivity|]. split; [vm_compute; tauto|].
  split; [vm_compute; reflexivity|]. split; vm_compute; reflexivity.
Qed.

(** C7, amended.  For every source row count [0 <= N < 2^53] and batch
    size [B > 0]: the page count computed is [ceiling(N / B)]; a page
    loop that runs to its end has begun exactly that many page
    transactions, in full mode and in incremental mode with a floor
    after reading page [i] at offset [i * B] with limit [B], and is
    followed by drift cleanup; when [N = 0] no page is issued, the run
    goes from the count straight to drift cleanup, and when cleanup
    reports no error the task ends with status "completed" and its error
    field as the run found it: no error for a task that had none. *)
Theorem page_count_is_ceiling_below_2_53
        {W : Type} (handle : forall R, Call R -> W -> R * W)
        (cfg : SyncConfig) (task : SyncTask) (N : Z) :
  (0 <= N < 2 ^ 53)%Z -> (0 < BatchSize task)%Z ->
  totalPages N (BatchSize task)
  = ((N + BatchSize task - 1) / BatchSize task)%Z
  /\ (forall w columns w1 tr1 w2 tr2,
         reachesPages handle cfg task w columns N w1 tr1 ->
         syncPages W handle cfg task (BatchSize task)
                   (Z.to_nat (totalPages N (BatchSize task))) 0%Z w1
         = (None, w2, tr2) ->
         Z.of_nat (batches tr2)
         = ((N + BatchSize task - 1) / BatchSize task)%Z
         /\ (SyncMode cfg = "full"
             \/ (CheckMethod (getTableConfig cfg (SourceTable task))
                 = "update_time"
                 /\ UpdateField (getTableConfig cfg (SourceTable task)) <> "") ->
             pageReads tr2
             = List.map (fun i => (SourceTable task,
                                   (Z.of_nat i * BatchSize task)%Z,
                                   BatchSize task))
                        (seq 0 (Z.to_nat ((N + BatchSize task - 1)
                                          / BatchSize task))))
         /\ syncTable W handle cfg task w
            = after (tr1 ++ tr2) (cleanupAndComplete handle task columns w2))
  /\ (N = 0%Z ->
      forall w columns w1 tr1,
        reachesPages handle cfg task w columns N w1 tr1 ->
        syncTable W handle cfg task w
        = after tr1 (cleanupAndComplete handle task columns w1)
        /\ (fst (fst (cleanupTargetTable W handle (SourceTable task)
                                         (TargetTable task) columns w1)) = None ->
            Status (fst (fst (syncTable W handle cfg task w))) = "completed"
            /\ Error (fst (fst (syncTable W handle cfg task w))) = Error task
            /\ (Error task = None ->
                Error (fst (fst (syncTable W handle cfg task w))) = None))).
Proof.
  intros HN HB.
  pose proof (totalPages_is_ceiling N (BatchSize task) HN HB) as Hceil.
  split; [exact Hceil|]. split.
  - intros w columns w1 tr1 w2 tr2 Hr Hp.
    assert (Hpos : (0 <= (N + BatchSize task - 1) / BatchSize task)%Z)
      by (apply Z.div_pos; lia).
    split; [|split].
    + rewrite (syncPages_batches handle cfg task _ _ _ _ _ _ Hp).
      rewrite Hceil. apply Z2Nat.id, Hpos.
    + intros Hmode.
      rewrite (syncPages_reads handle cfg task _ _ _ _ _ _ Hmode Hp).
      rewrite Hceil. apply map_ext. intros i. reflexivity.
    + apply (syncTable_pages_done handle cfg task _ _ _ _ _ _ _ Hr Hp).
  - intros -> w columns w1 tr1 Hr.
    assert (E : syncTable W handle cfg task w
                = after tr1 (cleanupAndComplete handle task columns w1)).
    { rewrite (syncTable_at_pages handle cfg task _ _ _ _ _ Hr).
      unfold pagesThenCleanup. rewrite Hceil.
      rewrite Z.div_small by lia. simpl.
      rewrite (bind_run _ _ w1 None w1 []) by reflexivity.
      rewrite after_after, app_nil_r. reflexivity. }
    split; [exact E|].
    intros Hc. rewrite E, after_value.
    destruct (cleanupAndComplete_status handle task columns w1 Hc) as [Hs He].
    split; [exact Hs|]. split; [exact He|].
    intros Hn. rewrite He. exact Hn.
Qed.

Lemma threeRows_reaches_pages :
  reachesPages Mem.handle Scenes.fullConfig (Mem.task 2) Scenes.threeRows
               ["id"; "updated_at"] 3
               (fst (Scenes.beforePages Scenes.fullConfig (Mem.task 2)
                                        Scenes.threeRows))
               (snd (Scenes.beforePages Scenes.fullConfig (Mem.task 2)
                                        Scenes.threeRows)).
Proof.
  unfold reachesPages. do 7 eexists.
  repeat (split; [vm_compute; reflexivity|]). vm_compute. reflexivity.
Qed.

Lemma emptySource_reaches_pages :
  reachesPages Mem.handle Scenes.fullConfig (Mem.task 2) Scenes.emptySource
               ["id"; "updated_at"] 0
               (fst (Scenes.beforePages Scenes.fullConfig (Mem.task 2)
                                        Scenes.emptySource))
               (snd (Scenes.beforePages Scenes.fullConfig (Mem.task 2)
                                        Scenes.emptySource)).
Proof.
  unfold reachesPages. do 7 eexists.
  repeat (split; [vm_compute; reflexivity|]). vm_compute. reflexivity.
Qed.

Lemma page_count_witness :
  (totalPages 3 2 = 2%Z
   /\ Z.of_nat (batches (snd (Scenes.pageLoop Scenes.fullConfig (Mem.task 2) 2
                                              Scenes.threeRows))) = 2%Z
   /\ pageReads (snd (Scenes.pageLoop Scenes.fullConfig (Mem.task 2) 2
                                      Scenes.threeRows))
      = [("t", 0%Z, 2%Z); ("t", 2%Z, 2%Z)])
  /\ (totalPages 0 2 = 0%Z
      /\ Status (fst (fst (syncTable Mem.DB Mem.handle Scenes.fullConfig
                                     (Mem.task 2) Scenes.emptySource)))
         = "completed"
      /\ Error (fst (fst (syncTable Mem.DB Mem.handle Scenes.fullConfig
                                    (Mem.task 2) Scenes.emptySource)))
         = None).
Proof.
  split.
  - destruct (page_count_is_ceiling_below_2_53
                Mem.handle Scenes.fullConfig (Mem.task 2) 3%Z)
      as (Hceil & Hloop & _).
    + split; [discriminate | reflexivity].
    + reflexivity.
    + split; [exact Hceil|].
      destruct (Hloop Scenes.threeRows ["id"; "updated_at"] _ _
                  (snd (fst (Scenes.pageLoop Scenes.fullConfig (Mem.task 2) 2
                                             Scenes.threeRows)))
                  (snd (Scenes.pageLoop Scenes.fullConfig (Mem.task 2) 2
                                        Scenes.threeRows))
                  threeRows_reaches_pages)
        as (Hb & Hr & _).
      * vm_compute. reflexivity.
      * split; [exact Hb|]. apply Hr. left. reflexivity.
  - destruct (page_count_is_ceiling_below_2_53
                Mem.handle Scenes.fullConfig (Mem.task 2) 0%Z)
      as (Hceil & _ & Hzero).
    + split; [discriminate | reflexivity].
    + reflexivity.
    + split; [exact Hceil|].
      destruct (Hzero eq_refl Scenes.emptySource ["id"; "updated_at"] _ _
                      emptySource_reaches_pages) as (_ & Hstatus).
      destruct Hstatus as (Hs & _ & Hn); [vm_compute; reflexivity|].
      split; [exact Hs | exact (Hn eq_refl)].
Defined.

(** * Further properties of the differ *)

Import Kinds.

Lemma range_covers {V D} (o : GoMap.RangeOrder) (m : GoMap.t V)
      (body : string -> V -> list D) k v d :
  GoMap.fair o -> GoMap.get m k = Some v -> In d (body k v) ->
  In d (GoMap.range o m body).
Proof.
  intros Hfair Hget Hd. unfold GoMap.range. apply in_flat_map.
  exists k. split.
  - apply (Permutation_in _ (Permutation_sym (Hfair _))).
    apply get_in_keys. congruence.
  - rewrite Hget. exact Hd.
Qed.

Lemma columnDiffs_kind s source target d :
  In d (columnDiffs s source target) -> isColumnDiff d = true.
Proof.
  unfold columnDiffs, compareColumns. simpl. rewrite in_app_iff.
  intros [H|H]; apply in_range in H; destruct H as (k & v & _ & _ & H).
  - unfold columnToAdd in H. destruct (GoMap.get _ k); [destruct H|].
    destruct H as [<-|[]]. reflexivity.
  - unfold columnToChange in H. destruct (GoMap.get _ k) as [sc|].
    + destruct (columnsAreDifferent sc v); [|destruct H].
      destruct H as [<-|[]]. reflexivity.
    + destruct H as [<-|[]]. reflexivity.
Qed.

Lemma indexDiffs_kind s source target d :
  In d (indexDiffs s source target) ->
  isIndexDiff d = true /\ isColumnDiff d = false.
Proof.
  unfold indexDiffs, compareIndexes. simpl. rewrite in_app_iff.
  intros [H|H]; apply in_range in H; destruct H as (k & v & _ & _ & H).
  - unfold indexToAdd in H. destruct (GoMap.get _ k) as [ti|].
    + destruct (indexesAreDifferent v ti); [|destruct H].
      destruct H as [<-|[<-|[]]]; split; reflexivity.
    + destruct H as [<-|[]]. split; reflexivity.
  - unfold indexToDrop in H. destruct (GoMap.get _ k); [destruct H|].
    destruct H as [<-|[]]. split; reflexivity.
Qed.

Lemma primaryKeyDiffs_kind source target d :
  In d (primaryKeyDiffs source target) ->
  isPrimaryKeyDiff d = true /\ isColumnDiff d = false.
Proof.
  unfold primaryKeyDiffs, comparePrimaryKeys.
  destruct (t_PrimaryKey source) as [spk|], (t_PrimaryKey target) as [tpk|];
    simpl; try tauto.
  - destruct (primaryKeysAreDifferent spk tpk); simpl; [|tauto].
    intros [<-|[<-|[]]]; split; reflexivity.
  - intros [<-|[]]; split; reflexivity.
  - intros [<-|[]]; split; reflexivity.
Qed.

(** X1.  The Difference list of a comparison is always column
    differences first, then index differences, then primary-key
    differences, whatever the iteration order of the maps. *)
Theorem differences_come_in_three_blocks
        (s : Schedule) (tableName : string) (source target : TableModel) :
  exists columns indexes keys,
    p_Differences (comparePlan s tableName source target)
    = (columns ++ indexes ++ keys)%list
    /\ forallb isColumnDiff columns = true
    /\ forallb isIndexDiff indexes = true
    /\ forallb isPrimaryKeyDiff keys = true.
Proof.
  exists (columnDiffs s source target), (indexDiffs s source target),
    (primaryKeyDiffs source target).
  split; [apply comparePlan_diffs|].
  repeat split; apply forallb_forall; intros d Hd.
  - apply (columnDiffs_kind _ _ _ _ Hd).
  - apply (indexDiffs_kind _ _ _ _ Hd).
  - apply (primaryKeyDiffs_kind _ _ _ Hd).
Qed.

(** A column difference of the plan is one of the column pass. *)
Lemma column_diff_in_plan s tableName source target d :
  isColumnDiff d = true ->
  (In d (p_Differences (comparePlan s tableName source target))
   <-> In d (columnDiffs s source target)).
Proof.
  intros Hk. rewrite comparePlan_diffs, !in_app_iff. split; [|tauto].
  intros [H|[H|H]]; [exact H | |].
  - apply indexDiffs_kind in H. destruct H as [_ H]. congruence.
  - apply primaryKeyDiffs_kind in H. destruct H as [_ H]. congruence.
Qed.

Lemma in_columnDiffs s source target d :
  GoMap.fair (o_sourceColumns s) -> GoMap.fair (o_targetColumns s) ->
  (In d (columnDiffs s source target) <->
   (exists k v, GoMap.get (GoMap.of_list c_Name (t_Columns source)) k = Some v
                /\ In d (columnToAdd source
                           (GoMap.of_list c_Name (t_Columns target)) k v))
   \/ (exists k v, GoMap.get (GoMap.of_list c_Name (t_Columns target)) k = Some v
                   /\ In d (columnToChange source
                              (GoMap.of_list c_Name (t_Columns source)) k v))).
Proof.
  intros FS FT. unfold columnDiffs, compareColumns. simpl.
  rewrite in_app_iff. split.
  - intros [H|H]; apply in_range in H; destruct H as (k & v & _ & Hg & H);
      [left | right]; exists k, v; auto.
  - intros [(k & v & Hg & H)|(k & v & Hg & H)]; [left | right];
      eapply range_covers; eassumption.
Qed.

(** X2.  By name, the column differences are exactly what the two
    column maps call for: an AddColumn for a name the source has and the
    target lacks, a DropColumn for a name the target has and the source
    lacks, a ModifyColumn for a name on both sides whose definitions
    differ in type, nullability, extra, default or on-update; and the
    statement of a ModifyColumn is rendered from the source column. *)
Theorem column_differences_by_name
        (s : Schedule) (tableName : string) (source target : TableModel)
        (name : string) :
  GoMap.fair (o_sourceColumns s) -> GoMap.fair (o_targetColumns s) ->
  let S := GoMap.of_list c_Name (t_Columns source) in
  let T := GoMap.of_list c_Name (t_Columns target) in
  let plan := comparePlan s tableName source target in
  (emitted plan AddColumn name
   <-> GoMap.get S name <> None /\ GoMap.get T name = None)
  /\ (emitted plan DropColumn name
      <-> GoMap.get S name = None /\ GoMap.get T name <> None)
  /\ (emitted plan ModifyColumn name
      <-> exists a b, GoMap.get S name = Some a /\ GoMap.get T name = Some b
                      /\ ~ sameColumn a b)
  /\ (forall d, In d (p_Differences plan) -> d_Type d = ModifyColumn ->
                d_Name d = name ->
                exists a, GoMap.get S name = Some a
                          /\ d_SQL d = generateModifyColumnSQL (t_Name source) a).
Proof.
  intros FS FT S T plan. unfold emitted.
  assert (Hin : forall d, isColumnDiff d = true ->
            (In d (p_Differences plan) <->
             (exists k v, GoMap.get S k = Some v
                          /\ In d (columnToAdd source T k v))
             \/ (exists k v, GoMap.get T k = Some v
                             /\ In d (columnToChange source S k v)))).
  { intros d Hk. unfold plan.
    rewrite (column_diff_in_plan _ _ _ _ _ Hk).
    apply in_columnDiffs; assumption. }
  assert (Hadd : forall k v d, In d (columnToAdd source T k v) ->
            d_Type d = AddColumn /\ d_Name d = k /\ GoMap.get T k = None).
  { intros k v d. unfold columnToAdd.
    destruct (GoMap.get T k); [intros []|]. intros [<-|[]]. auto. }
  assert (Hchg : forall k v d, In d (columnToChange source S k v) ->
            (d_Type d = ModifyColumn /\ d_Name d = k
             /\ exists a, GoMap.get S k = Some a
                          /\ columnsAreDifferent a v = true
                          /\ d_SQL d = generateModifyColumnSQL (t_Name source) a)
            \/ (d_Type d = DropColumn /\ d_Name d = k
                /\ GoMap.get S k = None)).
  { intros k v d. unfold columnToChange.
    destruct (GoMap.get S k) as [a|].
    - destruct (columnsAreDifferent a v) eqn:E; [|intros []].
      intros [<-|[]]. left. repeat split. exists a. auto.
    - intros [<-|[]]. right. auto. }
  split; [|split; [|split]].
  - split.
    + intros (d & Hd & Ht & Hn).
      apply Hin in Hd; [|unfold isColumnDiff; rewrite Ht; reflexivity].
      destruct Hd as [(k & v & Hg & Hd)|(k & v & Hg & Hd)].
      * destruct (Hadd _ _ _ Hd) as (_ & Hk & HT). assert (Ek : k = name) by congruence.
        clear Hk. subst k.
        split; congruence.
      * destruct (Hchg _ _ _ Hd) as [(Ht' & _)|(Ht' & _)]; congruence.
    + intros [HS HT]. destruct (GoMap.get S name) as [v|] eqn:E; [|congruence].
      exists {| d_Type := AddColumn; d_Name := name;
                d_Description := "Add column '" ++ name ++ "'";
                d_SQL := generateAddColumnSQL (t_Name source) v |}.
      split; [|split; reflexivity].
      apply Hin; [reflexivity|]. left. exists name, v. split; [exact E|].
      unfold columnToAdd. rewrite HT. left. reflexivity.
  - split.
    + intros (d & Hd & Ht & Hn).
      apply Hin in Hd; [|unfold isColumnDiff; rewrite Ht; reflexivity].
      destruct Hd as [(k & v & Hg & Hd)|(k & v & Hg & Hd)].
      * destruct (Hadd _ _ _ Hd) as (Ht' & _). congruence.
      * destruct (Hchg _ _ _ Hd) as [(Ht' & _)|(_ & Hk & HS)]; [congruence|].
        assert (Ek : k = name) by congruence.
        clear Hk. subst k. split; congruence.
    + intros [HS HT]. destruct (GoMap.get T name) as [v|] eqn:E; [|congruence].
      exists {| d_Type := DropColumn; d_Name := name;
                d_Description := "Drop column '" ++ name ++ "'";
                d_SQL := "ALTER TABLE `" ++ t_Name source ++ "` DROP COLUMN `"
                           ++ name ++ "`" |}.
      split; [|split; reflexivity].
      apply Hin; [reflexivity|]. right. exists name, v. split; [exact E|].
      unfold columnToChange. rewrite HS. left. reflexivity.
  - split.
    + intros (d & Hd & Ht & Hn).
      apply Hin in Hd; [|unfold isColumnDiff; rewrite Ht; reflexivity].
      destruct Hd as [(k & v & Hg & Hd)|(k & v & Hg & Hd)].
      * destruct (Hadd _ _ _ Hd) as (Ht' & _). congruence.
      * destruct (Hchg _ _ _ Hd)
          as [(_ & Hk & a & Ha & Hdiff & _)|(Ht' & _)]; [|congruence].
        assert (Ek : k = name) by congruence.
        clear Hk. subst k. exists a, v. split; [exact Ha|]. split; [exact Hg|].
        intros Hsame. apply columnsAreDifferent_false in Hsame. congruence.
    + intros (a & b & Ha & Hb & Hdiff).
      exists {| d_Type := ModifyColumn; d_Name := name;
                d_Description := "Modify column '" ++ name ++ "'";
                d_SQL := generateModifyColumnSQL (t_Name source) a |}.
      split; [|split; reflexivity].
      apply Hin; [reflexivity|]. right. exists name, b. split; [exact Hb|].
      unfold columnToChange. rewrite Ha.
      destruct (columnsAreDifferent a b) eqn:E.
      * left. reflexivity.
      * exfalso. apply Hdiff, columnsAreDifferent_false, E.
  - intros d Hd Ht Hn.
    apply Hin in Hd; [|unfold isColumnDiff; rewrite Ht; reflexivity].
    destruct Hd as [(k & v & Hg & Hd)|(k & v & Hg & Hd)].
    + destruct (Hadd _ _ _ Hd) as (Ht' & _). congruence.
    + destruct (Hchg _ _ _ Hd)
        as [(_ & Hk & a & Ha & _ & Hsql)|(Ht' & _)]; [|congruence].
      assert (Ek : k = name) by congruence.
        clear Hk. subst k. exists a. auto.
Qed.

Lemma column_differences_by_name_witness :
  emitted (comparePlan (schedule backwards) "t" Mixed.source Mixed.target)
          AddColumn "a"
  /\ emitted (comparePlan (schedule backwards) "t" Mixed.source Mixed.target)
             DropColumn "d"
  /\ emitted (comparePlan (schedule backwards) "t" Mixed.source Mixed.target)
             ModifyColumn "c".
Proof.
  split; [|split].
  - apply (proj1 (column_differences_by_name
                    (schedule backwards) "t" Mixed.source Mixed.target "a"
                    fair_backwards fair_backwards)).
    split; [discriminate | reflexivity].
  - apply (proj1 (proj2 (column_differences_by_name
                    (schedule backwards) "t" Mixed.source Mixed.target "d"
                    fair_backwards fair_backwards))).
    split; [reflexivity | discriminate].
  - apply (proj1 (proj2 (proj2 (column_differences_by_name
                    (schedule backwards) "t" Mixed.source Mixed.target "c"
                    fair_backwards fair_backwards)))).
    exists (column "c" "varchar(9)"), (column "c" "int").
    split; [reflexivity|]. split; [reflexivity|].
    intros [H _]. discriminate.
Defined.

Lemma index_diff_in_plan s tableName source target d :
  isIndexDiff d = true ->
  (In d (p_Differences (comparePlan s tableName source target))
   <-> In d (indexDiffs s source target)).
Proof.
  intros Hk. rewrite comparePlan_diffs, !in_app_iff. split; [|tauto].
  intros [H|[H|H]]; [| exact H |].
  - apply columnDiffs_not_index in H. destruct H as [H _]. congruence.
  - apply primaryKeyDiffs_not_index in H. congruence.
Qed.

(** X3.  By name, the index differences are exactly what the two index
    maps call for: a DropIndex for a name the target has, when the
    source lacks it or holds a different definition; an AddIndex for a
    name the source has, when the target lacks it or holds a different
    definition (different in uniqueness, method or column sequence). *)
Theorem index_differences_by_name
        (s : Schedule) (tableName : string) (source target : TableModel)
        (name : string) :
  GoMap.fair (o_sourceIndexes s) -> GoMap.fair (o_targetIndexes s) ->
  let S := GoMap.of_list i_Name (t_Indexes source) in
  let T := GoMap.of_list i_Name (t_Indexes target) in
  let plan := comparePlan s tableName source target in
  let changed := exists a b, GoMap.get S name = Some a
                             /\ GoMap.get T name = Some b /\ ~ sameIndex a b in
  (emitted plan DropIndex name
   <-> (GoMap.get S name = None /\ GoMap.get T name <> None) \/ changed)
  /\ (emitted plan AddIndex name
      <-> (GoMap.get S name <> None /\ GoMap.get T name = None) \/ changed).
Proof.
  intros FS FT S T plan changed. unfold emitted, changed.
  assert (Hin : forall d, isIndexDiff d = true ->
            (In d (p_Differences plan) <->
             (exists k v, GoMap.get S k = Some v
                          /\ In d (indexToAdd source T k v))
             \/ (exists k v, GoMap.get T k = Some v
                             /\ In d (indexToDrop source S k v)))).
  { intros d Hk. unfold plan. rewrite (index_diff_in_plan _ _ _ _ _ Hk).
    unfold indexDiffs, compareIndexes. simpl. rewrite in_app_iff. split.
    - intros [H|H]; apply in_range in H; destruct H as (k & v & _ & Hg & H);
        [left | right]; exists k, v; auto.
    - intros [(k & v & Hg & H)|(k & v & Hg & H)]; [left | right];
        eapply range_covers; eassumption. }
  assert (Hadd : forall k v d, In d (indexToAdd source T k v) ->
            d_Name d = k
            /\ ((d_Type d = AddIndex /\ GoMap.get T k = None)
                \/ ((d_Type d = DropIndex \/ d_Type d = AddIndex)
                    /\ exists b, GoMap.get T k = Some b
                                 /\ indexesAreDifferent v b = true))).
  { intros k v d. unfold indexToAdd.
    destruct (GoMap.get T k) as [b|].
    - destruct (indexesAreDifferent v b) eqn:E; [|intros []].
      intros [<-|[<-|[]]]; (split; [reflexivity|]); right;
        (split; [auto | exists b; auto]).
    - intros [<-|[]]. split; [reflexivity|]. left. auto. }
  assert (Hdrop : forall k v d, In d (indexToDrop source S k v) ->
            d_Name d = k /\ d_Type d = DropIndex /\ GoMap.get S k = None).
  { intros k v d. unfold indexToDrop.
    destruct (GoMap.get S k); [intros []|]. intros [<-|[]]. auto. }
  assert (Hsame : forall a b, indexesAreDifferent a b = true <-> ~ sameIndex a b).
  { intros a b. rewrite <- indexesAreDifferent_false.
    destruct (indexesAreDifferent a b); split; congruence. }
  split.
  - split.
    + intros (d & Hd & Ht & Hn).
      apply Hin in Hd; [|unfold isIndexDiff; rewrite Ht; reflexivity].
      destruct Hd as [(k & v & Hg & Hd)|(k & v & Hg & Hd)].
      * destruct (Hadd _ _ _ Hd) as (Hk & [[Ht' _]|[_ (b & Hb & Hdiff)]]);
          [congruence|].
        assert (Ek : k = name) by congruence. clear Hk. subst k.
        right. exists v, b. repeat split; try assumption. apply Hsame, Hdiff.
      * destruct (Hdrop _ _ _ Hd) as (Hk & _ & HS).
        assert (Ek : k = name) by congruence. clear Hk. subst k.
        left. split; congruence.
    + intros [[HS HT]|(a & b & Ha & Hb & Hdiff)].
      * destruct (GoMap.get T name) as [v|] eqn:E; [|congruence].
        exists (dropIndexDiff (t_Name source) name).
        split; [|split; reflexivity].
        apply Hin; [reflexivity|]. right. exists name, v. split; [exact E|].
        unfold indexToDrop. rewrite HS. left. reflexivity.
      * exists (dropIndexDiff (t_Name source) name).
        split; [|split; reflexivity].
        apply Hin; [reflexivity|]. left. exists name, a. split; [exact Ha|].
        unfold indexToAdd. rewrite Hb.
        apply Hsame in Hdiff. rewrite Hdiff. left. reflexivity.
  - split.
    + intros (d & Hd & Ht & Hn).
      apply Hin in Hd; [|unfold isIndexDiff; rewrite Ht; reflexivity].
      destruct Hd as [(k & v & Hg & Hd)|(k & v & Hg & Hd)].
      * destruct (Hadd _ _ _ Hd) as (Hk & [[_ HT]|[_ (b & Hb & Hdiff)]]);
          assert (Ek : k = name) by congruence; clear Hk; subst k.
        -- left. split; congruence.
        -- right. exists v, b. repeat split; try assumption.
           apply Hsame, Hdiff.
      * destruct (Hdrop _ _ _ Hd) as (_ & Ht' & _). congruence.
    + intros [[HS HT]|(a & b & Ha & Hb & Hdiff)].
      * destruct (GoMap.get S name) as [v|] eqn:E; [|congruence].
        exists {| d_Type := AddIndex; d_Name := name;
                  d_Description := "Add index '" ++ name ++ "'";
                  d_SQL := generateAddIndexSQL (t_Name source) v |}.
        split; [|split; reflexivity].
        apply Hin; [reflexivity|]. left. exists name, v. split; [exact E|].
        unfold indexToAdd. rewrite HT. left. reflexivity.
      * exists (recreateIndexDiff (t_Name source) name a).
        split; [|split; reflexivity].
        apply Hin; [reflexivity|]. left. exists name, a. split; [exact Ha|].
        unfold indexToAdd. rewrite Hb.
        apply Hsame in Hdiff. rewrite Hdiff. right. left. reflexivity.
Qed.

Lemma index_differences_by_name_witness :
  emitted (comparePlan (schedule backwards) "t" Mixed.source Mixed.target)
          DropIndex "idx_d"
  /\ emitted (comparePlan (schedule backwards) "t" Mixed.source Mixed.target)
             DropIndex "idx_c"
  /\ emitted (comparePlan (schedule backwards) "t" Mixed.source Mixed.target)
             AddIndex "idx_c"
  /\ emitted (comparePlan (schedule backwards) "t" Mixed.source Mixed.target)
             AddIndex "idx_b".
Proof.
  assert (Hc : exists a b,
             GoMap.get (GoMap.of_list i_Name (t_Indexes Mixed.source)) "idx_c"
             = Some a
             /\ GoMap.get (GoMap.of_list i_Name (t_Indexes Mixed.target)) "idx_c"
                = Some b
             /\ ~ sameIndex a b).
  { exists (index "idx_c" ["c"]), (index "idx_c" ["c"; "b"]).
    split; [reflexivity|]. split; [reflexivity|].
    intros (_ & _ & H). discriminate. }
  split; [|split; [|split]].
  - apply (proj1 (index_differences_by_name
                    (schedule backwards) "t" Mixed.source Mixed.target "idx_d"
                    fair_backwards fair_backwards)).
    left. split; [reflexivity | discriminate].
  - apply (proj1 (index_differences_by_name
                    (schedule backwards) "t" Mixed.source Mixed.target "idx_c"
                    fair_backwards fair_backwards)).
    right. exact Hc.
  - apply (proj2 (index_differences_by_name
                    (schedule backwards) "t" Mixed.source Mixed.target "idx_c"
                    fair_backwards fair_backwards)).
    right. exact Hc.
  - apply (proj2 (index_differences_by_name
                    (schedule backwards) "t" Mixed.source Mixed.target "idx_b"
                    fair_backwards fair_backwards)).
    left. split; [discriminate | reflexivity].
Defined.

(** ** Agreement is an equivalence; one-sided comparisons *)

Lemma sameNull_sym x y : sameNull x y -> sameNull y x.
Proof.
  unfold sameNull. intros [H1 H2]. split; [congruence|].
  intros H. symmetry. apply H2. congruence.
Qed.

Lemma sameNull_trans x y z : sameNull x y -> sameNull y z -> sameNull x z.
Proof.
  unfold sameNull. intros [H1 H2] [H3 H4]. split; [congruence|].
  intros H. rewrite H2 by exact H. apply H4. congruence.
Qed.

Lemma agree_sym {V} (same : V -> V -> Prop) x y :
  (forall a b, same a b -> same b a) -> agree same x y -> agree same y x.
Proof. intros H. destruct x, y; simpl; auto. Qed.

Lemma agree_trans {V} (same : V -> V -> Prop) x y z :
  (forall a b c, same a b -> same b c -> same a c) ->
  agree same x y -> agree same y z -> agree same x z.
Proof. intros H. destruct x, y, z; simpl; eauto; tauto. Qed.

Lemma sameColumn_sym a b : sameColumn a b -> sameColumn b a.
Proof.
  unfold sameColumn. intros (H1 & H2 & H3 & H4 & H5).
  repeat split; try congruence; apply sameNull_sym; assumption.
Qed.

Lemma sameColumn_trans a b c :
  sameColumn a b -> sameColumn b c -> sameColumn a c.
Proof.
  unfold sameColumn. intros (H1 & H2 & H3 & H4 & H5) (G1 & G2 & G3 & G4 & G5).
  split; [congruence|]. split; [congruence|]. split; [congruence|].
  split; eapply sameNull_trans; eassumption.
Qed.

Lemma sameIndex_sym a b : sameIndex a b -> sameIndex b a.
Proof. unfold sameIndex. intros (H1 & H2 & H3). repeat split; congruence. Qed.

Lemma sameIndex_trans a b c : sameIndex a b -> sameIndex b c -> sameIndex a c.
Proof.
  unfold sameIndex. intros (H1 & H2 & H3) (G1 & G2 & G3).
  repeat split; congruence.
Qed.

Lemma comparedEqual_sym a b : comparedEqual a b -> comparedEqual b a.
Proof.
  intros (Hc & Hi & Hp). split; [|split].
  - intros name. apply agree_sym; [apply sameColumn_sym | apply Hc].
  - intros name. apply agree_sym; [apply sameIndex_sym | apply Hi].
  - apply agree_sym; [|exact Hp]. unfold samePrimaryKey. congruence.
Qed.

Lemma comparedEqual_trans a b c :
  comparedEqual a b -> comparedEqual b c -> comparedEqual a c.
Proof.
  intros (Hc & Hi & Hp) (Gc & Gi & Gp). split; [|split].
  - intros name. eapply agree_trans; [apply sameColumn_trans | apply Hc | apply Gc].
  - intros name. eapply agree_trans; [apply sameIndex_trans | apply Hi | apply Gi].
  - eapply agree_trans; [|exact Hp|exact Gp]. unfold samePrimaryKey. congruence.
Qed.

(** X4.  Having nothing to do is symmetric and transitive.  When the
    plan from [a] to [b] is empty, so is the plan from [b] to [a]; when
    moreover the plan from [b] to [c] is empty, so is the plan from [a]
    to [c].  The table names and the iteration orders of the later
    comparisons do not matter. *)
Theorem empty_plans_are_symmetric_and_transitive
        (s1 s2 s3 : Schedule) (n1 n2 n3 : string) (a b c : TableModel) :
  fair_schedule s1 -> fair_schedule s2 ->
  p_Differences (comparePlan s1 n1 a b) = [] ->
  p_Differences (comparePlan s3 n3 b a) = []
  /\ (p_Differences (comparePlan s2 n2 b c) = [] ->
      p_Differences (comparePlan s3 n3 a c) = []).
Proof.
  intros F1 F2 H1.
  pose proof (no_diffs_compared_equal _ _ _ _ F1 H1) as E1.
  split.
  - apply compared_equal_no_diffs, comparedEqual_sym, E1.
  - intros H2. apply compared_equal_no_diffs.
    eapply comparedEqual_trans; [exact E1|].
    eapply no_diffs_compared_equal; eassumption.
Qed.

Lemma empty_plans_are_symmetric_and_transitive_witness :
  p_Differences (comparePlan (schedule inOrder) "t" tableBA tableAB) = []
  /\ (p_Differences (comparePlan (schedule backwards) "u" tableBA tableAB) = []
      -> p_Differences (comparePlan (schedule inOrder) "t" tableAB tableAB)
         = []).
Proof.
  apply (empty_plans_are_symmetric_and_transitive
           (schedule backwards) (schedule backwards) (schedule inOrder)
           "u" "u" "t" tableAB tableBA tableAB).
  - apply fair_schedule_of, fair_backwards.
  - apply fair_schedule_of, fair_backwards.
  - reflexivity.
Defined.

Lemma of_list_snoc {V} (key : V -> string) xs x :
  GoMap.of_list key (xs ++ [x]) = GoMap.set (GoMap.of_list key xs) (key x) x.
Proof. unfold GoMap.of_list. rewrite fold_left_app. reflexivity. Qed.

(** A map built from a non-empty list holds something. *)
Lemma of_list_all_none {V} (key : V -> string) xs :
  (forall name, GoMap.get (GoMap.of_list key xs) name = None) -> xs = [].
Proof.
  destruct xs as [|x xs] using rev_ind; [reflexivity|]. intros H.
  specialize (H (key x)). rewrite of_list_snoc, get_set, String.eqb_refl in H.
  discriminate.
Qed.

Lemma bare_compared_equal a b : isBare a -> (comparedEqual a b <-> isBare b).
Proof.
  intros (Hc & Hi & Hp). unfold comparedEqual, isBare.
  rewrite Hc, Hi, Hp. simpl. split.
  - intros (Gc & Gi & Gp). split; [|split].
    + apply (of_list_all_none c_Name). intros name. specialize (Gc name).
      destruct (GoMap.get _ name); [destruct Gc | reflexivity].
    + apply (of_list_all_none i_Name). intros name. specialize (Gi name).
      destruct (GoMap.get _ name); [destruct Gi | reflexivity].
    + destruct (t_PrimaryKey b); [destruct Gp | reflexivity].
  - intros (Gc & Gi & Gp). rewrite Gc, Gi, Gp. simpl. auto.
Qed.

(** With nothing on the source side, every difference is a drop. *)
Lemma bare_source_drops s tableName bare other :
  isBare bare ->
  forallb isDrop (p_Differences (comparePlan s tableName bare other)) = true.
Proof.
  intros (Hc & Hi & Hp).
  apply forallb_forall. intros d. rewrite comparePlan_diffs, !in_app_iff.
  unfold columnDiffs, indexDiffs, primaryKeyDiffs, compareColumns,
    compareIndexes, comparePrimaryKeys. rewrite Hc, Hi, Hp. simpl.
  rewrite !in_app_iff. intros [[H|H]|[[H|H]|H]].
  - apply in_range in H. destruct H as (k & v & _ & H & _). discriminate.
  - apply in_range in H. destruct H as (k & v & _ & _ & H).
    unfold columnToChange in H. simpl in H.
    destruct H as [<-|[]]. reflexivity.
  - apply in_range in H. destruct H as (k & v & _ & H & _). discriminate.
  - apply in_range in H. destruct H as (k & v & _ & _ & H).
    unfold indexToDrop in H. simpl in H.
    destruct H as [<-|[]]. reflexivity.
  - destruct (t_PrimaryKey other); simpl in H; [|destruct H].
    destruct H as [<-|[]]. reflexivity.
Qed.

(** X5.  Comparing against a snapshot with no column, no index and no
    primary key is one-sided.  With such a source every difference is
    a drop (DropColumn, DropIndex or DropPrimaryKey); with such a
    target every difference is an addition (AddColumn, AddIndex or
    AddPrimaryKey); and the plan is empty exactly when the other
    snapshot is as bare. *)
Theorem bare_snapshot_gives_one_sided_plan
        (s : Schedule) (tableName : string) (bare other : TableModel) :
  isBare bare ->
  forallb isDrop (p_Differences (comparePlan s tableName bare other)) = true
  /\ forallb isAdd (p_Differences (comparePlan s tableName other bare)) = true
  /\ (fair_schedule s ->
      (p_Differences (comparePlan s tableName bare other) = []
       <-> isBare other)
      /\ (p_Differences (comparePlan s tableName other bare) = []
          <-> isBare other)).
Proof.
  intros Hb. pose proof Hb as (Hc & Hi & Hp). split; [|split].
  - apply bare_source_drops, Hb.
  - apply forallb_forall. intros d. rewrite comparePlan_diffs, !in_app_iff.
    unfold columnDiffs, indexDiffs, primaryKeyDiffs, compareColumns,
      compareIndexes, comparePrimaryKeys. rewrite Hc, Hi, Hp. simpl.
    rewrite !in_app_iff. intros [[H|H]|[[H|H]|H]].
    + apply in_range in H. destruct H as (k & v & _ & _ & H).
      unfold columnToAdd in H. simpl in H.
      destruct H as [<-|[]]. reflexivity.
    + apply in_range in H. destruct H as (k & v & _ & H & _). discriminate.
    + apply in_range in H. destruct H as (k & v & _ & _ & H).
      unfold indexToAdd in H. simpl in H.
      destruct H as [<-|[]]. reflexivity.
    + apply in_range in H. destruct H as (k & v & _ & H & _). discriminate.
    + destruct (t_PrimaryKey other); simpl in H; [|destruct H].
      destruct H as [<-|[]]. reflexivity.
  - intros F. split.
    + rewrite <- (bare_compared_equal bare other Hb). split.
      * apply no_diffs_compared_equal, F.
      * apply compared_equal_no_diffs.
    + rewrite <- (bare_compared_equal bare other Hb). split.
      * intros H. apply comparedEqual_sym.
        eapply no_diffs_compared_equal; eassumption.
      * intros H. apply compared_equal_no_diffs, comparedEqual_sym, H.
Qed.

Lemma bare_snapshot_gives_one_sided_plan_witness :
  forallb isDrop
          (p_Differences
             (comparePlan (schedule backwards) "t" Mixed.bare Mixed.source))
  = true
  /\ forallb isAdd
             (p_Differences
                (comparePlan (schedule backwards) "t" Mixed.source Mixed.bare))
     = true
  /\ List.length
       (p_Differences
          (comparePlan (schedule backwards) "t" Mixed.source Mixed.bare)) = 5.
Proof.
  destruct (bare_snapshot_gives_one_sided_plan
              (schedule backwards) "t" Mixed.bare Mixed.source)
    as (H1 & H2 & _).
  - repeat split.
  - split; [exact H1|]. split; [exact H2 | reflexivity].
Defined.

(** ** The extractor: when it succeeds and what it then returns *)

Lemma scanColumns_ok_inv items : forall cols pk x,
  scanColumns items cols pk = Ok x -> exists rows, items = List.map Ok rows.
Proof.
  induction items as [|[r|e] items IH]; intros cols pk x H; simpl in H.
  - exists []. reflexivity.
  - destruct (IH _ _ _ H) as (rows & ->). exists (r :: rows). reflexivity.
  - discriminate.
Qed.

Lemma scanIndexes_ok_inv items : forall m x,
  scanIndexes items m = Ok x -> exists rows, items = List.map Ok rows.
Proof.
  induction items as [|[r|e] items IH]; intros m x H; simpl in H.
  - exists []. reflexivity.
  - assert (Hrest : exists m', scanIndexes items m' = Ok x).
    { destruct (String.eqb (ir_idxName r) "PRIMARY"); [eauto|].
      destruct (GoMap.get m (ir_idxName r)); eauto. }
    destruct Hrest as (m' & H'). destruct (IH _ _ H') as (rows & ->).
    exists (r :: rows). reflexivity.
  - discriminate.
Qed.

Lemma getTableStructure_ok_inv o db tableName t :
  getTableStructure o db tableName = Ok t ->
  exists dbName columns indexes,
    selectDatabase db = Ok dbName
    /\ queryColumns db dbName tableName
       = Ok {| rows_items := List.map Ok columns; rows_err := None |}
    /\ queryIndexes db dbName tableName
       = Ok {| rows_items := List.map Ok indexes; rows_err := None |}.
Proof.
  unfold getTableStructure. intros H.
  destruct (selectDatabase db) as [dbName|]; [|discriminate].
  destruct (queryColumns db dbName tableName) as [[citems cerr]|] eqn:Ec;
    [|discriminate].
  simpl in H.
  destruct (scanColumns citems [] None) as [[cols pk]|] eqn:Es; [|discriminate].
  destruct cerr; [discriminate|].
  destruct (queryIndexes db dbName tableName) as [[iitems ierr]|] eqn:Ei;
    [|discriminate].
  simpl in H.
  destruct (scanIndexes iitems []) as [m|] eqn:Em; [|discriminate].
  destruct ierr; [discriminate|].
  apply scanColumns_ok_inv in Es. destruct Es as (columns & ->).
  apply scanIndexes_ok_inv in Em. destruct Em as (indexes & ->).
  exists dbName, columns, indexes. auto.
Qed.

(** X6.  The extractor returns a snapshot exactly when every step
    against the catalog went through: the database name was read, both
    queries were accepted, every row of both cursors was scanned and
    neither cursor reported an error at its end.  One failing step
    anywhere gives an error and no snapshot. *)
Theorem getTableStructure_succeeds_iff_catalog_is_clean
        (o : GoMap.RangeOrder) (db : Catalog) (tableName : string) :
  (exists t, getTableStructure o db tableName = Ok t)
  <-> (exists dbName columns indexes,
          selectDatabase db = Ok dbName
          /\ queryColumns db dbName tableName
             = Ok {| rows_items := List.map Ok columns; rows_err := None |}
          /\ queryIndexes db dbName tableName
             = Ok {| rows_items := List.map Ok indexes; rows_err := None |}).
Proof.
  split.
  - intros (t & H). eapply getTableStructure_ok_inv, H.
  - intros (dbName & columns & indexes & Hdb & Hc & Hi).
    eexists. apply (getTableStructure_rows o db dbName tableName _ _ Hdb Hc Hi).
Qed.

Lemma primary_columns_of_rows columns :
  filter (fun c => String.eqb (c_ColumnKey c) "PRI")
         (List.map columnOfRow columns)
  = List.map columnOfRow (filter isPrimaryColumn columns).
Proof.
  induction columns as [|r columns IH]; simpl; [reflexivity|].
  unfold isPrimaryColumn at 1.
  destruct (String.eqb (cr_ColumnKey r) "PRI"); simpl; rewrite IH; reflexivity.
Qed.

Lemma catalogIndex_names rows names :
  List.map i_Name (List.map (catalogIndex rows) names) = names.
Proof. rewrite map_map. simpl. apply map_id. Qed.

(** X7.  What every snapshot the extractor returns satisfies, provided
    the range over the index map visits each index once: it carries
    the requested table name; its index names are pairwise distinct,
    none is "PRIMARY", and every index has at least one column; its
    primary key, when present, is called "PRIMARY" and lists, in
    column order, the names of exactly the columns whose key role is
    "PRI", of which there is at least one; it is absent exactly when
    no column has that role. *)
Theorem snapshot_invariants
        (o : GoMap.RangeOrder) (db : Catalog) (tableName : string)
        (t : TableModel) :
  GoMap.fair o ->
  getTableStructure o db tableName = Ok t ->
  let primaryColumns :=
    filter (fun c => String.eqb (c_ColumnKey c) "PRI") (t_Columns t) in
  t_Name t = tableName
  /\ NoDup (List.map i_Name (t_Indexes t))
  /\ (forall idx, In idx (t_Indexes t) ->
                  i_Name idx <> "PRIMARY" /\ i_Columns idx <> [])
  /\ match t_PrimaryKey t with
     | Some pk => pk_Name pk = "PRIMARY"
                  /\ pk_Columns pk = List.map c_Name primaryColumns
                  /\ primaryColumns <> []
     | None => primaryColumns = []
     end.
Proof.
  intros Hfair H.
  destruct (getTableStructure_ok_inv _ _ _ _ H)
    as (dbName & columns & indexes & Hdb & Hc & Hi).
  rewrite (getTableStructure_rows o db dbName tableName _ _ Hdb Hc Hi) in H.
  injection H as <-. cbn [t_Name t_Columns t_Indexes t_PrimaryKey].
  rewrite (range_indexMapOf o indexes Hfair), catalogIndex_names.
  split; [reflexivity|]. split; [|split].
  - eapply Permutation_NoDup; [apply Permutation_sym, Hfair|].
    apply distinct_nodup.
  - intros idx Hin. apply in_map_iff in Hin. destruct Hin as (n & <- & Hn).
    apply (Permutation_in _ (Hfair _)) in Hn. simpl.
    pose proof (catalogIndexNames_not_primary _ _ Hn) as Hnp.
    split; [exact Hnp|].
    apply (rowsOfIndex_known n indexes Hnp) in Hn.
    destruct (rowsOfIndex n indexes); [congruence | discriminate].
  - rewrite primary_columns_of_rows. unfold catalogPrimaryKey.
    destruct (filter isPrimaryColumn columns) as [|r l]; [reflexivity|].
    cbn [pk_Name pk_Columns]. split; [reflexivity|]. split; [|discriminate].
    rewrite map_map. reflexivity.
Qed.

Lemma snapshot_invariants_witness :
  exists t, getTableStructure backwards twoIndexCatalog "t" = Ok t
            /\ NoDup (List.map i_Name (t_Indexes t))
            /\ List.map i_Name (t_Indexes t) = ["idx_b"; "idx_a"]
            /\ t_PrimaryKey t
               = Some {| pk_Name := "PRIMARY"; pk_Columns := ["id"] |}.
Proof.
  eexists. split; [vm_compute; reflexivity|]. split.
  - apply (snapshot_invariants backwards twoIndexCatalog "t" _ fair_backwards
                               eq_refl).
  - split; reflexivity.
Defined.

(** ** The same table on both sides *)

Lemma of_list_of_names {V} (key : V -> string) (f : string -> V) names k :
  (forall n, key (f n) = n) ->
  GoMap.get (GoMap.of_list key (List.map f names)) k
  = if in_dec string_dec k names then Some (f k) else None.
Proof.
  intros Hkey. induction names as [|n names IH] using rev_ind.
  - reflexivity.
  - rewrite map_app. simpl. rewrite of_list_snoc, get_set, Hkey, IH.
    destruct (String.eqb_spec n k) as [->|Hne].
    + destruct (in_dec string_dec k (names ++ [k])) as [|Hn]; [reflexivity|].
      exfalso. apply Hn, in_or_app. right. left. reflexivity.
    + destruct (in_dec string_dec k names) as [Hi|Hi];
        destruct (in_dec string_dec k (names ++ [n])) as [Hj|Hj];
        try reflexivity; exfalso.
      * apply Hj, in_or_app. left. exact Hi.
      * apply in_app_or in Hj. destruct Hj as [Hj|[Hj|[]]]; [tauto | congruence].
Qed.

Lemma agree_refl {V} (same : V -> V -> Prop) x :
  (forall a, same a a) -> agree same x x.
Proof. intros H. destruct x; simpl; auto. Qed.

Lemma sameColumn_refl a : sameColumn a a.
Proof. unfold sameColumn, sameNull. tauto. Qed.

Lemma comparePlan_name s tableName source target :
  p_TableName (comparePlan s tableName source target) = tableName.
Proof.
  unfold comparePlan, comparePrimaryKeys.
  destruct (t_PrimaryKey source) as [spk|], (t_PrimaryKey target) as [tpk|];
    try destruct (primaryKeysAreDifferent spk tpk); reflexivity.
Qed.

(** X8.  When both databases hold the same table (the same column rows
    and the same index rows come back from both catalogs, without
    error), [Compare] returns a plan for that table with nothing to do,
    even though the two snapshots may list the indexes in different
    orders.  The names of the two databases need not be the same. *)
Theorem compare_same_table_is_empty
        (s : Schedule) (sourceDB targetDB : Catalog) (tableName : string)
        (sourceName targetName : string)
        (columns : list ColumnRow) (indexes : list IndexRow) :
  fair_schedule s ->
  selectDatabase sourceDB = Ok sourceName ->
  selectDatabase targetDB = Ok targetName ->
  queryColumns sourceDB sourceName tableName
    = Ok {| rows_items := List.map Ok columns; rows_err := None |} ->
  queryColumns targetDB targetName tableName
    = Ok {| rows_items := List.map Ok columns; rows_err := None |} ->
  queryIndexes sourceDB sourceName tableName
    = Ok {| rows_items := List.map Ok indexes; rows_err := None |} ->
  queryIndexes targetDB targetName tableName
    = Ok {| rows_items := List.map Ok indexes; rows_err := None |} ->
  exists plan, Compare s sourceDB targetDB tableName = Ok plan
               /\ p_TableName plan = tableName
               /\ p_Differences plan = [].
Proof.
  intros F HdS HdT HcS HcT HiS HiT. unfold Compare.
  rewrite (getTableStructure_rows _ sourceDB sourceName tableName _ _
                                  HdS HcS HiS).
  rewrite (getTableStructure_rows _ targetDB targetName tableName _ _
                                  HdT HcT HiT).
  eexists. split; [reflexivity|]. split.
  - apply comparePlan_name.
  - apply compared_equal_no_diffs.
    destruct F as (FS & FT & _).
    unfold comparedEqual. cbn [t_Columns t_Indexes t_PrimaryKey].
    rewrite (range_indexMapOf _ indexes FS), (range_indexMapOf _ indexes FT).
    split; [|split].
    + intros name. apply agree_refl, sameColumn_refl.
    + intros name.
      rewrite !(of_list_of_names i_Name (catalogIndex indexes))
        by reflexivity.
      destruct (in_dec string_dec name _) as [HS|HS];
        destruct (in_dec string_dec name _) as [HT|HT]; simpl; auto.
      * unfold sameIndex. auto.
      * apply HT. apply (Permutation_in _ (Permutation_sym (FT _))).
        apply (Permutation_in _ (FS _)). exact HS.
      * apply HS. apply (Permutation_in _ (Permutation_sym (FS _))).
        apply (Permutation_in _ (FT _)). exact HT.
    + apply agree_refl. reflexivity.
Qed.

Lemma compare_same_table_is_empty_witness :
  exists plan,
    Compare {| o_sourceIndexMap := backwards; o_targetIndexMap := inOrder;
               o_sourceColumns := inOrder; o_targetColumns := backwards;
               o_sourceIndexes := backwards; o_targetIndexes := inOrder |}
            twoIndexCatalog (catalogOf "copy" twoIndexColumns twoIndexRows)
            "t" = Ok plan
    /\ p_TableName plan = "t" /\ p_Differences plan = [].
Proof.
  apply (compare_same_table_is_empty _ _ _ "t" "shop" "copy"
                                     twoIndexColumns twoIndexRows);
    try reflexivity.
  repeat split; (exact fair_backwards || exact fair_inOrder).
Defined.

(** * Further properties of the data-sync service *)

Import Conduct.

Section Weakening.

Context {W : Type}.

Lemma emits_weaken {A} (P Q : Event -> bool) (m : M W A) :
  (forall e, P e = true -> Q e = true) -> emits P m -> emits Q m.
Proof.
  intros HPQ H w. apply forallb_forall. intros e He.
  apply HPQ. eapply emits_event; eassumption.
Qed.

End Weakening.

Lemma query_is_quiet e : isQuery e = true -> quiet e = true.
Proof.
  destruct e as [R c r]. destruct c; simpl; intros H;
    (reflexivity || discriminate H).
Qed.

Lemma transactional_is_quiet e : isTransactional e = true -> quiet e = true.
Proof.
  destruct e as [R c r]. destruct c; simpl; intros H;
    (reflexivity || discriminate H).
Qed.

(** ** Change detection *)

Section Detecting.

Context {W : Type} (handle : forall R, Call R -> W -> R * W).
Context (cfg : SyncConfig) (task : SyncTask).

Lemma getAllColumns_queries db tableName :
  emits isQuery (getAllColumns W handle db tableName).
Proof. unfold getAllColumns. emits_auto. Qed.

Lemma needSync_queries columns :
  emits isQuery (needSync W handle cfg task columns).
Proof.
  unfold needSync, checkByUpdateTime, checkByChecksum, checkByCount.
  destruct (String.eqb (CheckMethod _) "update_time").
  - destruct (String.eqb (UpdateField _) ""); [emits_auto|].
    apply emits_bind; [apply getAllColumns_queries|].
    intros [cols|e]; [|apply emits_ret].
    destruct (negb _); emits_auto.
  - destruct (String.eqb (CheckMethod _) "count"); emits_auto.
Qed.

Ltac run_call :=
  match goal with
  | |- context [handle ?R ?c ?w] =>
      let r := fresh "r" in
      let w' := fresh "w" in
      destruct (handle R c w) as [r w']; try destruct r; cbn
  end.

Lemma checkByChecksum_cautious sourceTable targetTable :
  cautious (checkByChecksum W handle sourceTable targetTable).
Proof.
  intros w. unfold checkByChecksum, bind, call, ret.
  repeat run_call; try destruct (negb _); cbn; intros; congruence.
Qed.

Lemma checkByCount_cautious sourceTable targetTable :
  cautious (checkByCount W handle sourceTable targetTable).
Proof.
  intros w. unfold checkByCount, bind, call, ret.
  repeat run_call; try destruct (negb _); cbn; intros; congruence.
Qed.

Lemma checkByUpdateTime_cautious sourceTable targetTable updateField :
  cautious (checkByUpdateTime W handle sourceTable targetTable updateField).
Proof.
  intros w. unfold checkByUpdateTime, bind.
  destruct (getAllColumns W handle SourceDB sourceTable w)
    as [[[columns|e] w1] t1].
  - destruct (negb (hasField columns updateField)).
    + pose proof (checkByChecksum_cautious sourceTable targetTable w1) as H.
      destruct (checkByChecksum W handle sourceTable targetTable w1)
        as [[[b e] w2] t2]. exact H.
    + unfold call, ret. repeat run_call; intros; congruence.
  - cbn. congruence.
Qed.

Lemma needSync_cautious columns :
  cautious (needSync W handle cfg task columns).
Proof.
  unfold needSync.
  destruct (String.eqb (CheckMethod _) "update_time").
  - destruct (String.eqb (UpdateField _) "").
    + apply checkByChecksum_cautious.
    + apply checkByUpdateTime_cautious.
  - destruct (String.eqb (CheckMethod _) "count").
    + apply checkByCount_cautious.
    + apply checkByChecksum_cautious.
Qed.

End Detecting.

(** X9.  Change detection only reads, and it errs on the side of
    syncing: whatever strategy the table pair selects, every call
    [needSync] makes is a query (column names, checksum, row count or
    latest update), and whenever it returns an error it returns "sync
    needed" with it. *)
Theorem detection_reads_only_and_errors_ask_for_sync
        (W : Type) (handle : forall R, Call R -> W -> R * W)
        (cfg : SyncConfig) (task : SyncTask) (columns : list string) (w : W) :
  forallb isQuery (snd (needSync W handle cfg task columns w)) = true
  /\ (snd (fst (fst (needSync W handle cfg task columns w))) <> None ->
      fst (fst (fst (needSync W handle cfg task columns w))) = true).
Proof.
  split.
  - apply needSync_queries.
  - apply needSync_cautious.
Qed.

(** ** The notifications of a run *)

Section Lifecycle.

Context {W : Type} (handle : forall R, Call R -> W -> R * W).
Context (cfg : SyncConfig) (task : SyncTask).

Lemma ends_bind {A} (m : M W A) (k : A -> M W SyncTask) :
  emits quiet m -> (forall a w, ends task (k a w)) ->
  forall w, ends task (bind W m k w).
Proof.
  intros Hm Hk w. unfold bind. specialize (Hm w).
  destruct (m w) as [[a w1] t1]. specialize (Hk a w1).
  destruct (k a w1) as [[b w2] t2].
  destruct Hk as (body & n & Htr & Hq & Ho). simpl in *.
  exists (t1 ++ body)%list, n. split; [|split].
  - rewrite Htr, app_assoc. reflexivity.
  - rewrite forallb_app, Hm, Hq. reflexivity.
  - exact Ho.
Qed.

Lemma ends_notifyError err w :
  ends task (notifyError W handle task err w).
Proof.
  unfold notifyError, bind, call, ret.
  destruct (handle unit _ w) as [[] w1]. exists [], (OnSyncError err).
  split; [reflexivity|]. split; [reflexivity|]. right. exists err. auto.
Qed.

Lemma ends_complete w : ends task (complete W handle task w).
Proof.
  unfold complete, notifyComplete, bind, call, ret.
  destruct (handle unit _ w) as [[] w1]. exists [], OnSyncComplete.
  split; [reflexivity|]. split; [reflexivity|]. left. auto.
Qed.

Lemma addMissingColumns_quiet targetTable targetColMap sourceCols :
  emits quiet (addMissingColumns W handle targetTable targetColMap sourceCols).
Proof.
  induction sourceCols as [|col rest IH]; simpl; [apply emits_ret|].
  destruct (GoMap.get targetColMap (ColumnName col)) as [[|]|];
    [exact IH | |]; (apply emits_bind; [emits_auto|]);
    intros [e|]; [apply emits_ret | exact IH | apply emits_ret | exact IH].
Qed.

Lemma syncTableSchema_quiet : emits quiet (syncTableSchema W handle task).
Proof.
  unfold syncTableSchema, getColumnDetails, getAllColumns.
  apply emits_bind; [emits_auto|]. intros [sourceCols|e]; [|apply emits_ret].
  apply emits_bind; [emits_auto|].
  intros [targetColNames|e]; [|apply emits_ret].
  apply addMissingColumns_quiet.
Qed.

Lemma readPage_quiet offset batchSize :
  emits quiet (readPage W handle cfg task offset batchSize).
Proof.
  unfold readPage. destruct (String.eqb (SyncMode cfg) "full"); [emits_auto|].
  destruct (_ && _); emits_auto.
Qed.

Lemma syncPages_quiet batchSize remaining : forall page,
  emits quiet (syncPages W handle cfg task batchSize remaining page).
Proof.
  induction remaining as [|n IH]; intros page; simpl; [apply emits_ret|].
  apply emits_bind; [apply readPage_quiet|].
  intros [records|e]; [|apply emits_ret].
  apply emits_bind.
  - apply syncBatchData_emits, transactional_is_quiet.
  - intros [e|]; [apply emits_ret | apply IH].
Qed.

Lemma cleanupTargetTable_quiet sourceTable targetTable columns :
  emits quiet (cleanupTargetTable W handle sourceTable targetTable columns).
Proof. unfold cleanupTargetTable, getPrimaryKey. emits_auto. Qed.

Lemma started_ends (k : unit -> M W SyncTask) w :
  (forall u w1, ends task (k u w1)) ->
  exists body n,
    snd (bind W (notifyStart W handle task) k w)
    = (Ev (Notify task OnSyncStart) tt
          :: body
          ++ [Ev (Notify (fst (fst (bind W (notifyStart W handle task) k w))) n)
                 tt])%list
    /\ forallb quiet body = true
    /\ outcome task (fst (fst (bind W (notifyStart W handle task) k w))) n.
Proof.
  intros Hk. unfold bind, notifyStart, call.
  destruct (handle unit (Notify task OnSyncStart) w) as [[] w1].
  specialize (Hk tt w1). destruct (k tt w1) as [[b w2] t2].
  destruct Hk as (body & n & Htr & Hq & Ho). simpl in *.
  exists body, n. rewrite Htr. auto.
Qed.

End Lifecycle.

(** X10.  Every run of a task notifies the observers exactly twice:
    first of its start, with the task as it was handed in, and last of
    its outcome, with the task as the run leaves it; nothing is
    notified in between.  The outcome is either completion, the status
    set to "completed" and the error field left as it was, or an error,
    the status set to "error" and that error recorded in the task. *)
Theorem run_notifies_start_then_outcome
        (W : Type) (handle : forall R, Call R -> W -> R * W)
        (cfg : SyncConfig) (task : SyncTask) (w : W) :
  let task' := fst (fst (syncTable W handle cfg task w)) in
  exists body n,
    snd (syncTable W handle cfg task w)
    = (Ev (Notify task OnSyncStart) tt :: body ++ [Ev (Notify task' n) tt])%list
    /\ forallb (fun e => negb (isNotify e)) body = true
    /\ outcome task task' n.
Proof.
  cbv zeta.
  unfold syncTable. apply started_ends. intros _.
  apply ends_bind; [apply syncTableSchema_quiet|].
  intros [e|]; [intros; apply ends_notifyError|].
  apply ends_bind;
    [eapply emits_weaken; [apply query_is_quiet|apply getAllColumns_queries]|].
  intros [columns|e]; [|intros; apply ends_notifyError].
  apply ends_bind;
    [eapply emits_weaken; [apply query_is_quiet|apply needSync_queries]|].
  intros [[|] [e|]]; try (intros; apply ends_notifyError);
    [|intros; apply ends_complete].
  apply ends_bind; [emits_auto|].
  intros [totalCount|e]; [|intros; apply ends_notifyError].
  apply ends_bind; [apply syncPages_quiet|].
  intros [e|]; [intros; apply ends_notifyError|].
  apply ends_bind; [apply cleanupTargetTable_quiet|].
  intros [e|] ?; [apply ends_notifyError | apply ends_complete].
Qed.

(** ** Schema repair *)

Import Effort.

Lemma ddl_app t1 t2 : ddl (t1 ++ t2) = (ddl t1 ++ ddl t2)%list.
Proof. unfold ddl. apply flat_map_app. Qed.

(** The map of target column names marks exactly the names listed. *)
Lemma get_marked names : forall (m : GoMap.t bool) k,
  GoMap.get (fold_left (fun m name => GoMap.set m name true) names m) k
  = if existsb (String.eqb k) names then Some true else GoMap.get m k.
Proof.
  induction names as [|n names IH]; intros m k; simpl; [reflexivity|].
  rewrite IH, get_set, (String.eqb_sym k n).
  destruct (existsb (String.eqb k) names), (String.eqb n k); reflexivity.
Qed.

Section SchemaRepair.

Context {W : Type} (handle : forall R, Call R -> W -> R * W).

Lemma addMissingColumns_ddl targetTable targetColMap sourceCols : forall w,
  exists issued rest,
    filter (wanted targetColMap) sourceCols = (issued ++ rest)%list
    /\ List.map fst
         (ddl (snd (addMissingColumns W handle targetTable targetColMap
                                      sourceCols w)))
       = List.map (fun col => (TargetDB, addColumnSQL targetTable col)) issued
    /\ match fst (fst (addMissingColumns W handle targetTable targetColMap
                                         sourceCols w)) with
       | None =>
           rest = []
           /\ forallb accepted
                (ddl (snd (addMissingColumns W handle targetTable targetColMap
                                             sourceCols w))) = true
       | Some err =>
           exists init sql,
             ddl (snd (addMissingColumns W handle targetTable targetColMap
                                         sourceCols w))
             = (init ++ [(TargetDB, sql, Some err)])%list
             /\ forallb accepted init = true
       end.
Proof.
  induction sourceCols as [|col cols IH]; intros w.
  - exists [], []. simpl. auto.
  - assert (Hrun : wanted targetColMap col = true ->
              addMissingColumns W handle targetTable targetColMap (col :: cols)
              = bind W (call W handle
                          (ExecDDL TargetDB (addColumnSQL targetTable col)))
                       (fun r => match r with
                                 | Some err => ret W (Some err)
                                 | None => addMissingColumns W handle targetTable
                                             targetColMap cols
                                 end)).
    { unfold wanted. simpl.
      destruct (GoMap.get targetColMap (ColumnName col)) as [[|]|];
        [discriminate | reflexivity | reflexivity]. }
    assert (Hskip : wanted targetColMap col = false ->
              addMissingColumns W handle targetTable targetColMap (col :: cols)
              = addMissingColumns W handle targetTable targetColMap cols).
    { unfold wanted. simpl.
      destruct (GoMap.get targetColMap (ColumnName col)) as [[|]|];
        [reflexivity | discriminate | discriminate]. }
    cbn [filter]. destruct (wanted targetColMap col) eqn:Ew.
    + rewrite (Hrun eq_refl). unfold bind, call.
      destruct (handle _ (ExecDDL TargetDB (addColumnSQL targetTable col)) w)
        as [[err|] w1].
      * exists [col], (filter (wanted targetColMap) cols). cbn.
        split; [reflexivity|]. split; [reflexivity|].
        exists [], (addColumnSQL targetTable col). auto.
      * specialize (IH w1).
        destruct (addMissingColumns W handle targetTable targetColMap cols w1)
          as [[r w2] t2].
        destruct IH as (issued & rest & Hf & Hd & Hr). cbn in Hd, Hr |- *.
        exists (col :: issued), rest. rewrite Hf.
        split; [reflexivity|]. split; [cbn; rewrite Hd; reflexivity|].
        destruct r as [err|].
        -- destruct Hr as (init & sql & Hi & Ha).
           exists ((TargetDB, addColumnSQL targetTable col, None) :: init), sql.
           rewrite Hi. split; [reflexivity | exact Ha].
        -- destruct Hr as [-> Ha]. split; [reflexivity | exact Ha].
    + rewrite (Hskip eq_refl). apply IH.
Qed.

Lemma wanted_marked targetColNames sourceCols :
  filter (wanted (fold_left (fun m name => GoMap.set m name true)
                            targetColNames []))
         sourceCols
  = missingColumns targetColNames sourceCols.
Proof.
  unfold missingColumns. apply filter_ext. intros col. unfold wanted.
  rewrite get_marked. simpl.
  destruct (existsb _ targetColNames); reflexivity.
Qed.

End SchemaRepair.

(** X11.  Schema repair adds what is missing, in order, and nothing
    else.  When the source's column details and the target's column
    names were read, the DDL statements run are ADD COLUMN statements
    on the target database, one for each source column whose name is
    not among the target's, in the source's column order, up to and
    including the first one the target rejects.  The result is nil
    exactly when all of them were run and accepted; otherwise it is the
    error of the last statement run. *)
Theorem schema_repair_adds_the_missing_columns
        (W : Type) (handle : forall R, Call R -> W -> R * W)
        (task : SyncTask) (w w1 w2 : W)
        (sourceCols : list ColumnDetail) (targetColNames : list string) :
  handle _ (QColumnDetails SourceDB (SourceTable task)) w
    = (Ok sourceCols, w1) ->
  handle _ (QColumnNames TargetDB (TargetTable task)) w1
    = (Ok targetColNames, w2) ->
  targetColNames <> [] ->
  let r := fst (fst (syncTableSchema W handle task w)) in
  let tr := snd (syncTableSchema W handle task w) in
  exists issued rest,
    missingColumns targetColNames sourceCols = (issued ++ rest)%list
    /\ List.map fst (ddl tr)
       = List.map (fun col => (TargetDB, addColumnSQL (TargetTable task) col))
                  issued
    /\ match r with
       | None => rest = [] /\ forallb accepted (ddl tr) = true
       | Some err =>
           exists init sql,
             ddl tr = (init ++ [(TargetDB, sql, Some err)])%list
             /\ forallb accepted init = true
       end.
Proof.
  intros Hs Ht Hne r tr. subst r tr.
  unfold syncTableSchema, getColumnDetails.
  rewrite (bind_run _ _ w (Ok sourceCols) w1
             [Ev (QColumnDetails SourceDB (SourceTable task)) (Ok sourceCols)])
    by (unfold call; rewrite Hs; reflexivity).
  assert (Hg : getAllColumns W handle TargetDB (TargetTable task) w1
               = (Ok targetColNames, w2,
                  [Ev (QColumnNames TargetDB (TargetTable task))
                      (Ok targetColNames)])).
  { unfold getAllColumns, bind, call. rewrite Ht.
    destruct targetColNames; [congruence | reflexivity]. }
  rewrite (bind_run _ _ w1 _ _ _ Hg), after_after.
  rewrite <- wanted_marked.
  pose proof (addMissingColumns_ddl handle (TargetTable task)
                (fold_left (fun m name => GoMap.set m name true)
                           targetColNames [])
                sourceCols w2) as H.
  destruct (addMissingColumns W handle (TargetTable task) _ sourceCols w2)
    as [[r w3] t3].
  cbn [after fst snd] in *. rewrite ddl_app. exact H.
Qed.

Lemma schema_repair_adds_the_missing_columns_witness :
  exists issued rest,
    missingColumns ["id"]
                   (List.map Mem.detail_of ["id"; "name"; "age"])
    = (issued ++ rest)%list
    /\ List.map fst
         (ddl (snd (syncTableSchema Mem.DB Mem.handle (Mem.task 10)
                                    narrowTarget)))
       = List.map (fun col => (TargetDB, addColumnSQL "t" col)) issued
    /\ rest = []
    /\ List.map fst
         (ddl (snd (syncTableSchema Mem.DB Mem.handle (Mem.task 10)
                                    narrowTarget)))
       = [(TargetDB, "ALTER TABLE `t` ADD COLUMN `name` bigint NULL");
          (TargetDB, "ALTER TABLE `t` ADD COLUMN `age` bigint NULL")].
Proof.
  destruct (schema_repair_adds_the_missing_columns
              Mem.DB Mem.handle (Mem.task 10) narrowTarget narrowTarget
              narrowTarget (List.map Mem.detail_of ["id"; "name"; "age"])
              ["id"] eq_refl eq_refl)
    as (issued & rest & H1 & H2 & H3 & _).
  - discriminate.
  - exists issued, rest. split; [exact H1|]. split; [exact H2|].
    split; [exact H3 | reflexivity].
Defined.

(** ** Drift cleanup *)

Section Cleanup.

Context {W : Type} (handle : forall R, Call R -> W -> R * W).

(** One answer of the outside, by cases when it is a result or an
    optional error. *)
Ltac answered :=
  match goal with
  | |- context [handle ?R ?c ?w] =>
      let r := fresh "r" in
      let w' := fresh "w" in
      destruct (handle R c w) as [r w'];
      lazymatch type of r with
      | result _ => destruct r
      | option _ => destruct r
      | _ => idtac
      end;
      cbn -[String.eqb append decimal Z.eqb]
  end.

(** The cleanup transaction, for a primary key already found. *)
Lemma cleanup_transaction sourceTable targetTable primaryKey
      (body : M W (option error)) w :
  body
  = bind W (call W handle (TxExec DisableForeignKeyChecks)) (fun _ =>
    bind W (call W handle (TxCount targetTable)) (fun c =>
    match c with
    | Err e => ret W (Some (wrap "检查目标表记录数失败" e))
    | Ok count =>
        if (count =? 0)%Z then ret W None
        else
          bind W (call W handle UnixNano) (fun nanos =>
          let tempTable := "temp_" ++ targetTable ++ "_" ++ decimal nanos in
          bind W (call W handle (TxExec (CreateTempLike tempTable targetTable)))
          (fun r1 =>
          match r1 with
          | Err e => ret W (Some (wrap "创建临时表失败" e))
          | Ok _ =>
          bind W (call W handle (TxExec (CopyAll tempTable sourceTable)))
          (fun r2 =>
          match r2 with
          | Err e => ret W (Some (wrap "复制数据到临时表失败" e))
          | Ok _ =>
          bind W (call W handle
                    (TxExec (DeleteUnmatched targetTable tempTable primaryKey)))
          (fun r3 =>
          match r3 with
          | Err e => ret W (Some (wrap "清理目标表失败" e))
          | Ok _ =>
              bind W (call W handle (TxExec (DropTemp tempTable)))
                   (fun _ => ret W None)
          end) end) end))
    end)) ->
  exists tempTable rest,
    (statements (snd (Transaction W handle body w)) ++ rest)%list
    = cleanupScript sourceTable targetTable tempTable primaryKey
    /\ (In (DeleteUnmatched targetTable tempTable primaryKey)
           (statements (snd (Transaction W handle body w))) ->
        In (CreateTempLike tempTable targetTable, true)
           (executed (snd (Transaction W handle body w)))
        /\ In (CopyAll tempTable sourceTable, true)
              (executed (snd (Transaction W handle body w))))
    /\ (fst (fst (Transaction W handle body w)) = None ->
        (statements (snd (Transaction W handle body w))
         = [DisableForeignKeyChecks]
         \/ rest = [])
        /\ In (Ev TxCommit None) (snd (Transaction W handle body w))).
Proof.
  intros ->. unfold Transaction, bind, call, ret.
  answered.
  { exists "", (cleanupScript sourceTable targetTable "" primaryKey).
    split; [reflexivity|]. split; [intros []|]. discriminate. }
  answered; answered;
    try (destruct (Z.eqb _ 0);
         cbn -[String.eqb append decimal Z.eqb]);
    repeat answered;
    lazymatch goal with
    | |- context [decimal ?n] =>
        exists ("temp_" ++ targetTable ++ "_" ++ decimal n)
    | |- _ => exists ""
    end;
    eexists; (split; [reflexivity|]);
    (split;
     [ intros H; repeat (destruct H as [H|H]; try discriminate H);
       try contradiction; split; simpl; tauto
     | intros H;
       first [ discriminate H
             | split; [first [left; reflexivity | right; reflexivity]
                      | simpl; tauto ] ] ]).
Qed.

End Cleanup.

(** X12.  Drift cleanup runs its script in order and stops at the first
    statement that matters and fails.  The statements it runs in its
    transaction are a beginning of: disable the foreign-key checks,
    create the temporary table like the target, copy the source into
    it, delete the target rows without a match in it, drop it; the
    temporary table is the same throughout and the key the deletion
    joins on is never empty.  The deletion is run only after the
    creation and the copy went through.  When cleanup returns nil the
    transaction was committed, and either the target was empty and only
    the first statement was run, or the whole script was. *)
Theorem cleanup_runs_its_script_in_order
        (W : Type) (handle : forall R, Call R -> W -> R * W)
        (sourceTable targetTable : string) (columns : list string) (w : W) :
  let r := fst (fst (cleanupTargetTable W handle sourceTable targetTable
                                        columns w)) in
  let tr := snd (cleanupTargetTable W handle sourceTable targetTable
                                    columns w) in
  exists tempTable primaryKey rest,
    primaryKey <> ""
    /\ (statements tr ++ rest)%list
       = cleanupScript sourceTable targetTable tempTable primaryKey
    /\ (In (DeleteUnmatched targetTable tempTable primaryKey) (statements tr) ->
        In (CreateTempLike tempTable targetTable, true) (executed tr)
        /\ In (CopyAll tempTable sourceTable, true) (executed tr))
    /\ (r = None ->
        (statements tr = [DisableForeignKeyChecks] \/ rest = [])
        /\ In (Ev TxCommit None) tr).
Proof.
  cbv zeta.
  remember (cleanupTargetTable W handle sourceTable targetTable columns w)
    as run eqn:E.
  unfold cleanupTargetTable, getPrimaryKey in E.
  unfold bind at 1 in E. unfold bind at 1 in E. unfold call at 1 in E.
  destruct (handle _ (QPrimaryKey TargetDB targetTable) w)
    as [[primaryKey|e] w1].
  - assert (Hpk : exists pk,
               pk <> ""
               /\ (if String.eqb primaryKey "" then ret W (Ok "id")
                   else ret W (Ok primaryKey)) w1
                  = (Ok pk, w1, [])).
    { destruct (String.eqb_spec primaryKey "") as [->|Hne].
      - exists "id". split; [discriminate | reflexivity].
      - exists primaryKey. split; [exact Hne | reflexivity]. }
    destruct Hpk as (pk & Hne & Hpk). rewrite Hpk in E.
    match type of E with
    | context [Transaction W handle ?body] =>
        destruct (cleanup_transaction handle sourceTable targetTable pk body w1
                                      eq_refl)
          as (tempTable & rest & H1 & H2 & H3);
        destruct (Transaction W handle body w1) as [[r w2] t2]
    end.
    subst run. exists tempTable, pk, rest. cbn [fst snd app] in *.
    change (statements (Ev (QPrimaryKey TargetDB targetTable) (Ok primaryKey)
                           :: t2)) with (statements t2).
    change (executed (Ev (QPrimaryKey TargetDB targetTable) (Ok primaryKey)
                         :: t2)) with (executed t2).
    split; [exact Hne|]. split; [exact H1|]. split; [exact H2|].
    intros Hr. destruct (H3 Hr) as [Ha Hb].
    split; [exact Ha | right; exact Hb].
  - subst run.
    exists "", "id", (cleanupScript sourceTable targetTable "" "id").
    cbn. split; [discriminate|]. split; [reflexivity|].
    split; [intros [] | discriminate].
Qed.

(** ** The effort of one batch *)

Lemma sleeps_app t1 t2 : sleeps (t1 ++ t2) = (sleeps t1 ++ sleeps t2)%list.
Proof. unfold sleeps. apply flat_map_app. Qed.

Lemma slept_app t1 t2 : slept (t1 ++ t2) = (slept t1 + slept t2)%Z.
Proof.
  unfold slept. rewrite sleeps_app.
  induction (sleeps t1) as [|d ds IH]; simpl; [reflexivity|]. rewrite IH. lia.
Qed.

Lemma upserts_app t1 t2 : upserts (t1 ++ t2) = (upserts t1 + upserts t2)%nat.
Proof. unfold upserts. rewrite filter_app, length_app. reflexivity. Qed.

Lemma executed_app t1 t2 :
  executed (t1 ++ t2) = (executed t1 ++ executed t2)%list.
Proof. unfold executed. apply flat_map_app. Qed.

Lemma statements_app t1 t2 :
  statements (t1 ++ t2) = (statements t1 ++ statements t2)%list.
Proof. unfold statements. rewrite executed_app, map_app. reflexivity. Qed.

Lemma backoff_nonneg attempt : (0 <= backoff attempt)%Z.
Proof.
  unfold backoff, baseDelay, maxRetryDelay.
  destruct (Z.gtb_spec (100000000 * 2 ^ attempt) 2000000000); [lia|].
  pose proof (Z.pow_nonneg 2 attempt). lia.
Qed.

Lemma budget_nonneg attempt remaining : (0 <= budget attempt remaining)%Z.
Proof.
  revert attempt. induction remaining as [|n IH]; intros attempt; simpl.
  - lia.
  - pose proof (backoff_nonneg attempt). specialize (IH (attempt + 1)%Z). lia.
Qed.

Section BatchEffort.

Context {W : Type} (handle : forall R, Call R -> W -> R * W).

(** One pass writes each record at most once and sleeps at most once,
    for the backoff of its attempt. *)
Lemma applyRecords_effort table attempt records lastErr : forall w,
  (upserts (snd (applyRecords W handle table attempt records lastErr w))
   <= List.length records)%nat
  /\ (0 <= slept (snd (applyRecords W handle table attempt records lastErr w))
      <= backoff attempt)%Z.
Proof.
  pose proof (backoff_nonneg attempt) as Hb.
  induction records as [|record rest IH]; intros w; simpl.
  - split; [apply Nat.le_refl | cbn; lia].
  - unfold bind at 1. unfold syncSingleRecord, bind, call, ret.
    destruct (handle _ (TxExec (Upsert table record)) w) as [[z|e] w1].
    + specialize (IH w1).
      destruct (applyRecords W handle table attempt rest lastErr w1)
        as [[r w2] t2]. cbn in IH |- *. unfold upserts, slept in *. cbn.
      split; [apply le_n_S; tauto | tauto].
    + destruct (handle unit (Sleep (backoff attempt)) w1) as [[] w2].
      unfold upserts, slept. cbn. split; [apply le_n_S, Nat.le_0_l | lia].
Qed.

Lemma retryLoop_effort table records remaining : forall attempt lastErr w,
  (upserts (snd (retryLoop W handle table records remaining attempt lastErr w))
   <= remaining * List.length records)%nat
  /\ (0 <= slept (snd (retryLoop W handle table records remaining attempt
                                 lastErr w))
      <= budget attempt remaining)%Z.
Proof.
  induction remaining as [|n IH]; intros attempt lastErr w; simpl.
  - split; [apply Nat.le_refl | cbn; lia].
  - unfold bind.
    pose proof (applyRecords_effort table attempt records lastErr w) as Ha.
    destruct (applyRecords W handle table attempt records lastErr w)
      as [[[e|] w1] t1]; cbn [fst snd] in Ha |- *.
    + specialize (IH (attempt + 1)%Z (Some e) w1).
      destruct (retryLoop W handle table records n (attempt + 1)%Z (Some e) w1)
        as [[r w2] t2]. cbn [fst snd] in IH |- *.
      rewrite upserts_app, slept_app. lia.
    + cbn [ret fst snd]. rewrite app_nil_r.
      pose proof (budget_nonneg (attempt + 1) n). lia.
Qed.

(** A pass that starts without an error and ends without one wrote
    every record, in order, and slept nothing. *)
Lemma applyRecords_clean table attempt records : forall w,
  fst (fst (applyRecords W handle table attempt records None w)) = None ->
  executed (snd (applyRecords W handle table attempt records None w))
  = List.map (fun record => (Upsert table record, true)) records
  /\ sleeps (snd (applyRecords W handle table attempt records None w)) = [].
Proof.
  induction records as [|record rest IH]; intros w; simpl.
  - auto.
  - unfold bind at 1 2 3. unfold syncSingleRecord, bind, call, ret.
    destruct (handle _ (TxExec (Upsert table record)) w) as [[z|e] w1].
    + specialize (IH w1).
      destruct (applyRecords W handle table attempt rest None w1)
        as [[r w2] t2]. cbn in IH |- *. intros Hr. destruct (IH Hr) as [He Hs].
      unfold executed, sleeps in *. cbn. rewrite He, Hs. auto.
    + destruct (handle unit (Sleep (backoff attempt)) w1) as [[] w2].
      cbn. discriminate.
Qed.

(** The retry loop succeeds only by a first pass without error, and
    then the loop is that pass. *)
Lemma retryLoop_clean table records n attempt w :
  fst (fst (retryLoop W handle table records (S n) attempt None w)) = None ->
  fst (fst (applyRecords W handle table attempt records None w)) = None
  /\ snd (retryLoop W handle table records (S n) attempt None w)
     = snd (applyRecords W handle table attempt records None w).
Proof.
  simpl. unfold bind.
  destruct (applyRecords W handle table attempt records None w)
    as [[[e|] w1] t1].
  - pose proof (retryLoop_keeps_error handle table records n (attempt + 1)%Z
                                      e w1) as Hk.
    destruct (retryLoop W handle table records n (attempt + 1)%Z (Some e) w1)
      as [[r w2] t2]. cbn in *. intros H. contradiction.
  - cbn. rewrite app_nil_r. auto.
Qed.

(** How a transaction unfolds: refused at the start, or its body
    followed by a commit, by a rollback, or by a failed commit and a
    rollback. *)
Lemma Transaction_shape (fc : M W (option error)) w :
  (exists e w1,
      handle _ TxBegin w = (Some e, w1)
      /\ Transaction W handle fc w = (Some e, w1, [Ev TxBegin (Some e)]))
  \/ (exists w1 closing,
         handle _ TxBegin w = (None, w1)
         /\ snd (Transaction W handle fc w)
            = (Ev TxBegin None :: snd (fc w1) ++ closing)%list
         /\ ((closing = [Ev TxCommit None]
              /\ fst (fst (fc w1)) = None
              /\ fst (fst (Transaction W handle fc w)) = None)
             \/ (exists e x,
                    closing = [Ev TxRollback x]
                    /\ fst (fst (fc w1)) = Some e
                    /\ fst (fst (Transaction W handle fc w)) = Some e)
             \/ (exists e x,
                    closing = [Ev TxCommit (Some e); Ev TxRollback x]
                    /\ fst (fst (fc w1)) = None
                    /\ fst (fst (Transaction W handle fc w)) = Some e))).
Proof.
  unfold Transaction, bind, call, ret.
  destruct (handle _ TxBegin w) as [[e|] w1].
  - left. exists e, w1. auto.
  - right. exists w1. destruct (fc w1) as [[[e|] w2] t2].
    + destruct (handle _ TxRollback w2) as [x w3].
      exists [Ev TxRollback x]. split; [reflexivity|]. cbn.
      split; [reflexivity|]. right. left. exists e, x. auto.
    + destruct (handle _ TxCommit w2) as [[e|] w3].
      * destruct (handle _ TxRollback w3) as [x w4].
        exists [Ev TxCommit (Some e); Ev TxRollback x].
        split; [reflexivity|]. cbn. split; [reflexivity|].
        right. right. exists e, x. auto.
      * exists [Ev TxCommit None]. split; [reflexivity|]. cbn.
        split; [reflexivity|]. left. auto.
Qed.

End BatchEffort.

(** X13.  The effort of one batch is bounded.  Whatever the target
    answers, [syncBatchData] writes at most three times as many records
    as the page holds, sleeps at most 0.7 s in total, and every single
    delay is 100 ms, 200 ms or 400 ms: the cap of 2 s is never
    reached. *)
Theorem batch_effort_is_bounded
        (W : Type) (handle : forall R, Call R -> W -> R * W)
        (table : string) (records : list Row) (w : W) :
  let tr := snd (syncBatchData W handle table records w) in
  (upserts tr <= 3 * List.length records)%nat
  /\ (0 <= slept tr <= 700000000)%Z
  /\ (forall d, In d (sleeps tr) ->
                (d = 100000000 \/ d = 200000000 \/ d = 400000000)%Z
                /\ (d < maxRetryDelay)%Z).
Proof.
  cbv zeta. unfold syncBatchData.
  assert (Hbody : forall w1,
    let inner := snd (bind W (call W handle (TxExec DisableForeignKeyChecks))
                        (fun _ => if Nat.eqb (List.length records) 0
                                  then ret W None
                                  else retryLoop W handle table records
                                                 retryCount 0%Z None) w1) in
    (upserts inner <= 3 * List.length records)%nat
    /\ (0 <= slept inner <= 700000000)%Z
    /\ (forall d, In d (sleeps inner) ->
                  (d = 100000000 \/ d = 200000000 \/ d = 400000000)%Z
                  /\ (d < maxRetryDelay)%Z)).
  { intros w1. cbv zeta. unfold bind, call.
    destruct (handle _ (TxExec DisableForeignKeyChecks) w1) as [r0 w2].
    destruct (Nat.eqb (List.length records) 0).
    - cbn. split; [apply Nat.le_0_l|]. split; [lia | intros d []].
    - pose proof (retryLoop_effort handle table records retryCount 0%Z None w2)
        as [Hu Hs].
      pose proof (retryLoop_sleeps handle table records retryCount 0%Z None w2)
        as Hd.
      destruct (retryLoop W handle table records retryCount 0%Z None w2)
        as [[r w3] t3]. cbn [fst snd] in *.
      change (upserts (Ev (TxExec DisableForeignKeyChecks) r0 :: t3))
        with (upserts t3).
      change (slept (Ev (TxExec DisableForeignKeyChecks) r0 :: t3))
        with (slept t3).
      change (sleeps (Ev (TxExec DisableForeignKeyChecks) r0 :: t3))
        with (sleeps t3).
      split; [exact Hu|]. split; [exact Hs|].
      intros d Hin. destruct (Hd d Hin) as (k & Hk & ->).
      assert (Hc : (k = 0 \/ k = 1 \/ k = 2)%Z)
        by (unfold retryCount in Hk; lia).
      destruct Hc as [-> | [-> | ->]]; vm_compute; intuition congruence. }
  match goal with
  | |- context [Transaction W handle ?fc] =>
      destruct (Transaction_shape handle fc w)
        as [(e & w1 & _ & ->)|(w1 & closing & _ & -> & Hc)];
      [|specialize (Hbody w1); cbv zeta in Hbody;
        destruct (fc w1) as [[rf wf] tf]]
  end.
  - cbn. split; [apply Nat.le_0_l|]. split; [lia | intros d []].
  - cbn [fst snd] in *. destruct Hbody as (Hu & Hs & Hd).
    assert (Hq : upserts closing = 0%nat /\ slept closing = 0%Z
                 /\ sleeps closing = []).
    { destruct Hc as [(-> & _)|[(e & x & -> & _)|(e & x & -> & _)]];
        repeat split. }
    destruct Hq as (Q1 & Q2 & Q3).
    change (Ev TxBegin None :: tf ++ closing)%list
      with ([Ev TxBegin None] ++ tf ++ closing)%list.
    rewrite !upserts_app, !slept_app, !sleeps_app, Q1, Q2, Q3, app_nil_r.
    change (upserts [Ev TxBegin None]) with 0%nat.
    change (slept [Ev TxBegin None]) with 0%Z.
    change (sleeps [Ev TxBegin None]) with (@nil Z).
    split; [lia|]. split; [lia | exact Hd].
Qed.

(** X14.  A batch succeeds only by one clean pass.  When
    [syncBatchData] returns nil, its transaction ran the foreign-key
    statement and then exactly one upsert per record of the page, in
    page order, each accepted; nothing was slept; and the transaction
    was begun first and committed last. *)
Theorem batch_success_is_one_clean_pass
        (W : Type) (handle : forall R, Call R -> W -> R * W)
        (table : string) (records : list Row) (w : W) :
  fst (fst (syncBatchData W handle table records w)) = None ->
  let tr := snd (syncBatchData W handle table records w) in
  statements tr = DisableForeignKeyChecks :: List.map (Upsert table) records
  /\ (forall s, In (s, false) (executed tr) -> s = DisableForeignKeyChecks)
  /\ sleeps tr = []
  /\ exists body, tr = (Ev TxBegin None :: body ++ [Ev TxCommit None])%list.
Proof.
  unfold syncBatchData. intros Hnone. cbv zeta.
  match goal with
  | |- context [Transaction W handle ?fc] =>
      destruct (Transaction_shape handle fc w)
        as [(e & w1 & _ & E)|(w1 & closing & _ & E & Hc)];
      [rewrite E in Hnone; discriminate Hnone|];
      rewrite E; clear E;
      destruct Hc as [(-> & Hfc & _)|[(e & x & _ & _ & Hr)|(e & x & _ & _ & Hr)]];
      [|rewrite Hr in Hnone; discriminate Hnone
       |rewrite Hr in Hnone; discriminate Hnone];
      clear Hnone; revert Hfc
  end.
  unfold bind, call.
  destruct (handle _ (TxExec DisableForeignKeyChecks) w1) as [r0 w2].
  destruct records as [|record rest].
  - cbn. intros _. split; [reflexivity|]. split.
    + intros s [H|[]]. congruence.
    + split; [reflexivity|].
      exists [Ev (TxExec DisableForeignKeyChecks) r0]. reflexivity.
  - cbn [List.length Nat.eqb].
    pose proof (retryLoop_clean handle table (record :: rest) 2 0%Z w2) as Hl.
    change (retryLoop W handle table (record :: rest) 3 0 None w2)
      with (retryLoop W handle table (record :: rest) retryCount 0 None w2)
      in Hl.
    pose proof (applyRecords_clean handle table 0%Z (record :: rest) w2) as Ha.
    destruct (retryLoop W handle table (record :: rest) retryCount 0%Z None w2)
      as [[r w3] t3].
    cbn [fst snd]. intros ->. destruct (Hl eq_refl) as [Hp Ht].
    cbn [fst snd] in Ht. rewrite <- Ht in Ha.
    destruct (Ha Hp) as [He Hs].
    cbn [app].
    assert (Hst : statements t3 = List.map (Upsert table) (record :: rest)).
    { unfold statements. rewrite He, map_map. reflexivity. }
    split.
    { change (statements (Ev TxBegin None
                            :: Ev (TxExec DisableForeignKeyChecks) r0
                            :: t3 ++ [Ev TxCommit None]))
        with (DisableForeignKeyChecks
                :: statements (t3 ++ [Ev TxCommit None])).
      rewrite statements_app, Hst. cbn. rewrite app_nil_r. reflexivity. }
    split.
    { intros s Hin.
      change (executed (Ev TxBegin None
                          :: Ev (TxExec DisableForeignKeyChecks) r0
                          :: t3 ++ [Ev TxCommit None]))
        with ((DisableForeignKeyChecks,
               match r0 with Ok _ => true | Err _ => false end)
                :: executed (t3 ++ [Ev TxCommit None])) in Hin.
      rewrite executed_app, He in Hin.
      destruct Hin as [H|Hin]; [congruence|].
      apply in_app_or in Hin. destruct Hin as [Hin|[]].
      apply in_map_iff in Hin. destruct Hin as (x & Hx & _). congruence. }
    split.
    { change (sleeps (Ev TxBegin None
                        :: Ev (TxExec DisableForeignKeyChecks) r0
                        :: t3 ++ [Ev TxCommit None]))
        with (sleeps (t3 ++ [Ev TxCommit None])).
      rewrite sleeps_app, Hs. reflexivity. }
    exists (Ev (TxExec DisableForeignKeyChecks) r0 :: t3). reflexivity.
Qed.

Lemma batch_success_is_one_clean_pass_witness :
  statements (snd (syncBatchData Mem.DB Mem.handle "t" twoRecords emptyTarget))
  = [DisableForeignKeyChecks;
     Upsert "t" (Mem.row 1 10%Z); Upsert "t" (Mem.row 2 20%Z)]
  /\ sleeps (snd (syncBatchData Mem.DB Mem.handle "t" twoRecords emptyTarget))
     = [].
Proof.
  destruct (batch_success_is_one_clean_pass
              Mem.DB Mem.handle "t" twoRecords emptyTarget eq_refl)
    as (H1 & _ & H3 & _).
  split; [exact H1 | exact H3].
Defined.

(** * Configuration and start-up *)

Import Config.

Lemma validatePairs_valid pairs :
  validatePairs pairs = None <-> Forall validPair pairs.
Proof.
  induction pairs as [|tp rest IH]; simpl.
  - split; [constructor | reflexivity].
  - unfold validPair at 1.
    destruct (String.eqb_spec (Source tp) ""); simpl.
    { split; [discriminate|]. intros H. inversion H; subst. tauto. }
    destruct (String.eqb_spec (Target tp) ""); simpl.
    { split; [discriminate|]. intros H. inversion H; subst. tauto. }
    destruct (String.eqb_spec (CheckMethod tp) "update_time") as [Eu|Nu];
      simpl.
    + destruct (String.eqb_spec (UpdateField tp) "") as [Ef|Nf]; simpl.
      * split; [discriminate|]. intros H. inversion H as [|? ? Hv]; subst.
        destruct Hv as (_ & _ & [Hc|[Hc|[_ Hc]]]); [| |tauto];
          rewrite Eu in Hc; discriminate.
      * rewrite Eu. simpl. rewrite IH. split.
        -- intros H. constructor; [|exact H]. unfold validPair. rewrite Eu.
           tauto.
        -- intros H. inversion H; assumption.
    + destruct (String.eqb_spec (CheckMethod tp) "checksum") as [Ec|Nc];
        simpl.
      * rewrite IH. split.
        -- intros H. constructor; [|exact H]. unfold validPair. tauto.
        -- intros H. inversion H; assumption.
      * destruct (String.eqb_spec (CheckMethod tp) "count") as [En|Nn];
          simpl.
        -- rewrite IH. split.
           ++ intros H. constructor; [|exact H]. unfold validPair. tauto.
           ++ intros H. inversion H; assumption.
        -- split; [discriminate|]. intros H. inversion H as [|? ? Hv]; subst.
           unfold validPair in Hv. tauto.
Qed.

(** X15.  What a configuration must satisfy to pass validation, and
    everything it must: both database passwords are non-empty, the
    batch size and the interval are positive, and every table pair
    names a source and a target and selects the checksum, the count or
    the update_time strategy, the last only together with an update
    field. *)
Theorem validateConfig_accepts_exactly (cfg : Config) :
  validateConfig cfg = None
  <-> (conn_Password (db_Source (Database cfg)) <> ""
       /\ conn_Password (db_Target (Database cfg)) <> ""
       /\ (0 < cfg_BatchSize (Sync cfg))%Z
       /\ (0 < cfg_Interval (Sync cfg))%Z
       /\ Forall validPair (TablePairs (Sync cfg))).
Proof.
  unfold validateConfig.
  destruct (String.eqb_spec (conn_Password (db_Source (Database cfg))) "").
  { split; [discriminate | tauto]. }
  destruct (String.eqb_spec (conn_Password (db_Target (Database cfg))) "").
  { split; [discriminate | tauto]. }
  destruct (Z.leb_spec (cfg_BatchSize (Sync cfg)) 0).
  { split; [discriminate | lia]. }
  destruct (Z.leb_spec (cfg_Interval (Sync cfg)) 0).
  { split; [discriminate | lia]. }
  rewrite validatePairs_valid. tauto.
Qed.

Lemma findPair_In pairs src p :
  findPair pairs src = Some p -> In p pairs /\ Source p = src.
Proof.
  induction pairs as [|q rest IH]; simpl; [discriminate|].
  destruct (String.eqb_spec (Source q) src) as [E|N].
  - intros H. injection H as <-. auto.
  - intros H. destruct (IH H). auto.
Qed.

Lemma findPair_None pairs src :
  findPair pairs src = None -> forall p, In p pairs -> Source p <> src.
Proof.
  induction pairs as [|q rest IH]; simpl; [intros _ p []|].
  destruct (String.eqb_spec (Source q) src) as [E|N]; [discriminate|].
  intros H p [<-|Hin]; [exact N | apply IH; assumption].
Qed.

(** X16.  Under a validated configuration change detection never
    falls back for want of an update field.  For every task, the pair
    the service looks up selects update_time with a non-empty field,
    and [needSync] is the update-time check on that field; or it
    selects count, and [needSync] is the count check; or it selects
    checksum (also when the table has no pair), and [needSync] is the
    checksum check. *)
Theorem validated_config_selects_the_strategy
        (W : Type) (handle : forall R, Call R -> W -> R * W)
        (cfg : Config) (task : SyncTask) (columns : list string) :
  validateConfig cfg = None ->
  let tp := getTableConfig (Sync cfg) (SourceTable task) in
  (CheckMethod tp = "update_time" /\ UpdateField tp <> ""
   /\ needSync W handle (Sync cfg) task columns
      = checkByUpdateTime W handle (SourceTable task) (TargetTable task)
                          (UpdateField tp))
  \/ (CheckMethod tp = "count"
      /\ needSync W handle (Sync cfg) task columns
         = checkByCount W handle (SourceTable task) (TargetTable task))
  \/ (CheckMethod tp = "checksum"
      /\ needSync W handle (Sync cfg) task columns
         = checkByChecksum W handle (SourceTable task) (TargetTable task)).
Proof.
  intros Hv. apply validateConfig_accepts_exactly in Hv.
  destruct Hv as (_ & _ & _ & _ & Hpairs). cbv zeta.
  assert (Hp : validPair (getTableConfig (Sync cfg) (SourceTable task))
               \/ CheckMethod (getTableConfig (Sync cfg) (SourceTable task))
                  = "checksum").
  { unfold getTableConfig.
    destruct (findPair (TablePairs (Sync cfg)) (SourceTable task)) as [p|] eqn:E.
    - left. apply findPair_In in E. destruct E as [Hin _].
      rewrite Forall_forall in Hpairs. apply Hpairs, Hin.
    - right. reflexivity. }
  unfold needSync.
  destruct Hp as [(_ & _ & [Hc|[Hc|[Hc Hf]]])|Hc]; rewrite Hc; simpl.
  - right. right. auto.
  - right. left. auto.
  - left. apply String.eqb_neq in Hf. rewrite Hf. apply String.eqb_neq in Hf.
    auto.
  - right. right. auto.
Qed.

Lemma validated_config_selects_the_strategy_witness :
  validateConfig sample = None
  /\ needSync Mem.DB Mem.handle (Sync sample)
              (taskOf sample {| Source := "orders"; Target := "orders_copy";
                                CheckMethod := "update_time";
                                UpdateField := "updated_at" |})
              ["id"; "updated_at"]
     = checkByUpdateTime Mem.DB Mem.handle "orders" "orders_copy" "updated_at".
Proof.
  split; [reflexivity|].
  destruct (validated_config_selects_the_strategy
              Mem.DB Mem.handle sample
              (taskOf sample {| Source := "orders"; Target := "orders_copy";
                                CheckMethod := "update_time";
                                UpdateField := "updated_at" |})
              ["id"; "updated_at"] eq_refl)
    as [(_ & _ & H)|[(H & _)|(H & _)]];
    [exact H | discriminate H | discriminate H].
Defined.

(** ** The task registry *)

Lemma initialTasks_snoc cfg pairs p :
  fold_left (fun tasks tp => AddSyncTask cfg tasks (Source tp) (Target tp))
            (pairs ++ [p]) []
  = GoMap.set (fold_left (fun tasks tp =>
                            AddSyncTask cfg tasks (Source tp) (Target tp))
                         pairs [])
              (Source p) (taskOf cfg p).
Proof. rewrite fold_left_app. reflexivity. Qed.

Lemma same_source_same_pair pairs p q :
  NoDup (List.map Source pairs) -> In p pairs -> In q pairs ->
  Source p = Source q -> p = q.
Proof.
  induction pairs as [|x rest IH]; simpl; [intros _ []|].
  intros Hnd Hp Hq E. inversion Hnd as [|? ? Hx Hrest]; subst.
  destruct Hp as [<-|Hp], Hq as [<-|Hq].
  - reflexivity.
  - exfalso. apply Hx. rewrite E. apply in_map, Hq.
  - exfalso. apply Hx. rewrite <- E. apply in_map, Hp.
  - apply IH; assumption.
Qed.

Lemma findPair_rev pairs src :
  NoDup (List.map Source pairs) ->
  findPair (rev pairs) src = findPair pairs src.
Proof.
  intros Hnd.
  destruct (findPair pairs src) as [p|] eqn:E1;
    destruct (findPair (rev pairs) src) as [q|] eqn:E2; try reflexivity.
  - apply findPair_In in E1, E2. destruct E1 as [Hp Sp], E2 as [Hq Sq].
    apply in_rev in Hq. f_equal.
    apply (same_source_same_pair pairs q p Hnd Hq Hp). congruence.
  - apply findPair_In in E1. destruct E1 as [Hp Sp].
    exfalso. apply (findPair_None _ _ E2 p); [apply in_rev in Hp|]; assumption.
  - apply findPair_In in E2. destruct E2 as [Hq Sq]. apply in_rev in Hq.
    exfalso. apply (findPair_None _ _ E1 q); assumption.
Qed.

(** X17.  The task registry keeps, for each source table, the task of
    the last table pair that names it, whereas the strategy lookup
    [getTableConfig] takes the first such pair; the two agree when no
    source table is configured twice.  Every registered task is ready,
    without error, with the configured batch size. *)
Theorem registry_keeps_the_last_pair (cfg : Config) (sourceTable : string) :
  GoMap.get (initialTasks cfg) sourceTable
  = option_map (taskOf cfg)
               (findPair (rev (TablePairs (Sync cfg))) sourceTable)
  /\ (forall task,
         GoMap.get (initialTasks cfg) sourceTable = Some task ->
         SourceTable task = sourceTable
         /\ Status task = "ready" /\ Error task = None
         /\ BatchSize task = cfg_BatchSize (Sync cfg)
         /\ LastSyncTime task = 0%Z)
  /\ (NoDup (List.map Source (TablePairs (Sync cfg))) ->
      forall task,
        GoMap.get (initialTasks cfg) sourceTable = Some task ->
        task = taskOf cfg (getTableConfig (Sync cfg) sourceTable)).
Proof.
  assert (Hget : GoMap.get (initialTasks cfg) sourceTable
                 = option_map (taskOf cfg)
                     (findPair (rev (TablePairs (Sync cfg))) sourceTable)).
  { unfold initialTasks.
    induction (TablePairs (Sync cfg)) as [|p pairs IH] using rev_ind.
    - reflexivity.
    - rewrite initialTasks_snoc, get_set, rev_app_distr. simpl.
      destruct (String.eqb (Source p) sourceTable); [reflexivity | exact IH]. }
  split; [exact Hget|]. split.
  - intros task. rewrite Hget. clear Hget.
    destruct (findPair (rev (TablePairs (Sync cfg))) sourceTable)
      as [p|] eqn:E; simpl; [|discriminate].
    apply findPair_In in E. destruct E as [_ E].
    intros H. injection H as <-. simpl. auto.
  - intros Hnd task. rewrite Hget, (findPair_rev _ _ Hnd). clear Hget.
    unfold getTableConfig.
    destruct (findPair (TablePairs (Sync cfg)) sourceTable) as [p|]; simpl;
      [|discriminate].
    intros H. injection H as <-. reflexivity.
Qed.

(** ** Data source names *)

Lemma contains_app_r s1 s2 sub :
  contains s2 sub = true -> contains (s1 ++ s2) sub = true.
Proof.
  intros H. induction s1 as [|c s1 IH].
  - exact H.
  - change (contains (String c s1 ++ s2) sub)
      with (if String.prefix sub (String c (s1 ++ s2)) then true
            else contains (s1 ++ s2) sub).
    rewrite IH. destruct (String.prefix sub _); reflexivity.
Qed.

Lemma string_app_assoc (s1 s2 s3 : string) :
  (s1 ++ s2) ++ s3 = s1 ++ (s2 ++ s3).
Proof.
  induction s1 as [|c s1 IH]; simpl; [reflexivity|]. rewrite IH. reflexivity.
Qed.

(** X18.  The data source name built from a connection always carries
    a query part, so that [initDB] always appends its SQL mode with an
    ampersand: whatever the user, password, host, port and database
    are, the name opened is the connection's name followed by
    "&sql_mode='ALLOW_INVALID_DATES'". *)
Theorem initDB_appends_sql_mode_with_ampersand (d : DBConnection) :
  contains (GetDSN d) "?" = true
  /\ initDSN (GetDSN d) = GetDSN d ++ "&sql_mode='ALLOW_INVALID_DATES'".
Proof.
  assert (H : contains (GetDSN d) "?" = true).
  { unfold GetDSN. repeat apply contains_app_r. reflexivity. }
  split; [exact H|]. unfold initDSN. rewrite H. simpl.
  apply string_app_assoc.
Qed.

(** * The compare command *)

Import Cmd.

Lemma totalDifferences_app xs ys :
  totalDifferences (xs ++ ys)
  = (totalDifferences xs + totalDifferences ys)%Z.
Proof.
  unfold totalDifferences. induction xs as [|x xs IH]; simpl; [reflexivity|].
  rewrite IH. lia.
Qed.

Lemma collectPlans_kept compare tableNames : forall allPlans totalDiffs,
  collectPlans compare tableNames allPlans totalDiffs
  = ((allPlans ++ flat_map (keptPlan compare) tableNames)%list,
     (totalDiffs + totalDifferences (flat_map (keptPlan compare) tableNames))%Z).
Proof.
  induction tableNames as [|tbl rest IH]; intros allPlans totalDiffs.
  - simpl. rewrite app_nil_r, Z.add_0_r. reflexivity.
  - cbn [collectPlans flat_map]. rewrite totalDifferences_app.
    unfold keptPlan at 1 3. destruct (compare tbl) as [plan|e].
    + destruct (Nat.eqb (List.length (p_Differences plan)) 0).
      * rewrite IH. change (totalDifferences []) with 0%Z.
        rewrite Z.add_0_l. reflexivity.
      * rewrite IH, <- app_assoc.
        change (totalDifferences [plan])
          with (Z.of_nat (List.length (p_Differences plan)) + 0)%Z.
        f_equal. lia.
    + rewrite IH. change (totalDifferences []) with 0%Z.
      rewrite Z.add_0_l. reflexivity.
Qed.

Lemma in_keptPlans compare tableNames plan :
  In plan (flat_map (keptPlan compare) tableNames)
  <-> exists tbl, In tbl tableNames /\ compare tbl = Ok plan
                  /\ p_Differences plan <> [].
Proof.
  rewrite in_flat_map. split.
  - intros (tbl & Hin & H). exists tbl. split; [exact Hin|].
    unfold keptPlan in H. destruct (compare tbl) as [q|e]; [|destruct H].
    destruct (p_Differences q) as [|d ds] eqn:E; simpl in H; [destruct H|].
    destruct H as [<-|[]]. rewrite E. split; [reflexivity | discriminate].
  - intros (tbl & Hin & Hc & Hne). exists tbl. split; [exact Hin|].
    unfold keptPlan. rewrite Hc.
    destruct (p_Differences plan); [congruence | left; reflexivity].
Qed.

Lemma totalDifferences_lower plans :
  (forall plan, In plan plans -> p_Differences plan <> []) ->
  (Z.of_nat (List.length plans) <= totalDifferences plans)%Z.
Proof.
  induction plans as [|x xs IH]; intros H.
  - reflexivity.
  - change (totalDifferences (x :: xs))
      with (Z.of_nat (List.length (p_Differences x)) + totalDifferences xs)%Z.
    assert (Hx : p_Differences x <> []) by (apply H; left; reflexivity).
    assert (Hxs : (Z.of_nat (List.length xs) <= totalDifferences xs)%Z).
    { apply IH. intros plan Hin. apply H. right. exact Hin. }
    destruct (p_Differences x); [congruence|].
    cbn [List.length] in *. lia.
Qed.

(** X19.  The merged plan the command saves holds, in table order and
    each once per listing of its table, exactly the plans of the tables
    whose comparison succeeded and found differences: its list of plans
    is what the tables contribute one after the other, a table whose
    comparison failed or found nothing contributing nothing; its table
    count is the number of those plans and
    its difference count the sum of their differences, which is at
    least the table count and so never zero.  No merged plan is saved
    exactly when every table failed to compare or showed no
    difference. *)
Theorem merged_plan_counts_what_it_holds
        (compare : string -> result SyncPlan) (tableNames : list string) :
  match mergePlans compare tableNames with
  | Some m =>
      m_Tables m = flat_map (keptPlan compare) tableNames
      /\ (forall plan,
             In plan (m_Tables m)
             <-> exists tbl, In tbl tableNames /\ compare tbl = Ok plan
                             /\ p_Differences plan <> [])
      /\ m_TotalTables m = Z.of_nat (List.length (m_Tables m))
      /\ m_TotalDiffs m = totalDifferences (m_Tables m)
      /\ (0 < m_TotalTables m <= m_TotalDiffs m)%Z
      /\ m_Status m = "completed"
  | None =>
      forall tbl plan,
        In tbl tableNames -> compare tbl = Ok plan -> p_Differences plan = []
  end.
Proof.
  unfold mergePlans. rewrite collectPlans_kept. cbn [app].
  pose proof (in_keptPlans compare tableNames) as Hin.
  destruct (flat_map (keptPlan compare) tableNames) as [|x xs] eqn:E.
  - cbn. intros tbl plan Ht Hc.
    destruct (p_Differences plan) as [|d ds] eqn:Ed; [reflexivity|].
    exfalso. apply (proj2 (Hin plan)). exists tbl. rewrite Ed.
    split; [exact Ht|]. split; [exact Hc | discriminate].
  - cbn [List.length Nat.eqb m_Tables m_TotalTables m_TotalDiffs m_Status].
    split; [reflexivity|].
    split; [exact Hin|]. split; [reflexivity|]. split; [lia|].
    split; [|reflexivity].
    pose proof (totalDifferences_lower (x :: xs)) as Hl.
    cbn [List.length] in Hl. split; [lia|].
    rewrite Z.add_0_l. apply Hl. intros plan Hp.
    apply Hin in Hp. destruct Hp as (_ & _ & _ & Hne). exact Hne.
Qed.

(** ** Tables only the target has *)

Lemma get_listed names : forall (m : GoMap.t unit) k,
  GoMap.get (fold_left (fun m t => GoMap.set m t tt) names m) k
  = if existsb (String.eqb k) names then Some tt else GoMap.get m k.
Proof.
  induction names as [|n names IH]; intros m k; simpl; [reflexivity|].
  rewrite IH, get_set, (String.eqb_sym k n).
  destruct (existsb (String.eqb k) names), (String.eqb n k); reflexivity.
Qed.

(** X20.  The extra tables are the target's tables that the source
    does not have, in the target's order: a table is listed exactly
    when the target names it and the source does not, so no table of
    the comparison loop over the source is among them. *)
Theorem extra_tables_are_target_only
        (sourceTableNames targetTableNames : list string) :
  extraTables sourceTableNames targetTableNames
  = filter (fun t => negb (existsb (String.eqb t) sourceTableNames))
           targetTableNames
  /\ (forall t, In t (extraTables sourceTableNames targetTableNames)
                <-> In t targetTableNames /\ ~ In t sourceTableNames).
Proof.
  assert (H : extraTables sourceTableNames targetTableNames
              = filter (fun t => negb (existsb (String.eqb t) sourceTableNames))
                       targetTableNames).
  { unfold extraTables. apply filter_ext. intros t. rewrite get_listed. simpl.
    destruct (existsb (String.eqb t) sourceTableNames); reflexivity. }
  split; [exact H|]. intros t. rewrite H, filter_In, negb_true_iff.
  assert (He : existsb (String.eqb t) sourceTableNames = false
               <-> ~ In t sourceTableNames).
  { destruct (existsb (String.eqb t) sourceTableNames) eqn:E.
    - apply existsb_exists in E. destruct E as (x & Hx & Ex).
      apply String.eqb_eq in Ex. subst x. split; [discriminate | tauto].
    - split; [|reflexivity]. intros _ Hin.
      assert (Ht : existsb (String.eqb t) sourceTableNames = true).
      { apply existsb_exists. exists t. split; [exact Hin|].
        apply String.eqb_refl. }
      congruence. }
  rewrite He. tauto.
Qed.

(** ** Renaming the table of a CREATE statement *)

Lemma prefix_skip p : forall s,
  String.prefix p s = true -> s = p ++ skip (String.length p) s.
Proof.
  induction p as [|c p IH]; intros s H; simpl.
  - reflexivity.
  - destruct s as [|c' s]; simpl in H; [discriminate|].
    destruct (Ascii.ascii_dec c c') as [->|N]; [|discriminate].
    simpl. f_equal. apply IH, H.
Qed.

Lemma prefix_app p rest : String.prefix p (p ++ rest) = true.
Proof.
  induction p as [|c p IH]; simpl.
  - destruct rest; reflexivity.
  - destruct (Ascii.ascii_dec c c); [exact IH | congruence].
Qed.

Lemma skip_app p rest : skip (String.length p) (p ++ rest) = rest.
Proof. induction p as [|c p IH]; simpl; [reflexivity | exact IH]. Qed.

Lemma replaceFirst_eq s old new :
  replaceFirst s old new
  = if String.prefix old s then new ++ skip (String.length old) s
    else match s with
         | EmptyString => EmptyString
         | String c s' => String c (replaceFirst s' old new)
         end.
Proof. destruct s; reflexivity. Qed.

Lemma replaceFirst_head old new rest :
  replaceFirst (old ++ rest) old new = new ++ rest.
Proof. rewrite replaceFirst_eq, prefix_app, skip_app. reflexivity.
Qed.

Lemma contains_eq s sub :
  contains s sub
  = if String.prefix sub s then true
    else match s with
         | EmptyString => false
         | String _ s' => contains s' sub
         end.
Proof. destruct s; reflexivity. Qed.

Lemma replaceFirst_absent old new s :
  contains s old = false -> replaceFirst s old new = s.
Proof.
  induction s as [|c s IH]; rewrite contains_eq, replaceFirst_eq;
    destruct (String.prefix old _); try discriminate.
  - reflexivity.
  - intros H. rewrite (IH H). reflexivity.
Qed.

Lemma replaceFirst_present old new s :
  contains s old = true ->
  exists pre rest, s = pre ++ old ++ rest
                   /\ replaceFirst s old new = pre ++ new ++ rest.
Proof.
  induction s as [|c s IH]; rewrite contains_eq, replaceFirst_eq.
  - destruct (String.prefix old "") eqn:E; [|discriminate]. intros _.
    exists "", (skip (String.length old) ""). split; [|reflexivity].
    apply (prefix_skip old "" E).
  - destruct (String.prefix old (String c s)) eqn:E.
    + intros _. exists "", (skip (String.length old) (String c s)).
      split; [|reflexivity]. apply (prefix_skip old _ E).
    + intros H. destruct (IH H) as (pre & rest & Hs & Hr).
      exists (String c pre), rest. simpl. rewrite <- Hs, Hr. auto.
Qed.

(** X21.  Renaming the table of a CREATE statement replaces the first
    "CREATE TABLE `old`" by "CREATE TABLE `new`" and leaves the rest
    as it is: a statement that starts with it keeps everything that
    follows; a statement that holds it somewhere keeps what comes
    before and after; a statement that does not hold it (a view, or
    another spelling of the keywords) comes back unchanged, the old
    name still in it. *)
Theorem rename_replaces_the_first_create_table
        (createSQL oldName newName : string) :
  let old := "CREATE TABLE `" ++ oldName ++ "`" in
  let new := "CREATE TABLE `" ++ newName ++ "`" in
  (forall rest,
      replaceTableNameInCreateSQL (old ++ rest) oldName newName = new ++ rest)
  /\ (contains createSQL old = true ->
      exists pre rest,
        createSQL = pre ++ old ++ rest
        /\ replaceTableNameInCreateSQL createSQL oldName newName
           = pre ++ new ++ rest)
  /\ (contains createSQL old = false ->
      replaceTableNameInCreateSQL createSQL oldName newName = createSQL).
Proof.
  cbv zeta. unfold replaceTableNameInCreateSQL. split; [|split].
  - intros rest. apply replaceFirst_head.
  - apply replaceFirst_present.
  - apply replaceFirst_absent.
Qed.

(** ** Comparing a table the source does not have *)

Lemma of_list_holds {V} (key : V -> string) xs x :
  In x xs -> GoMap.get (GoMap.of_list key xs) (key x) <> None.
Proof.
  induction xs as [|y xs IH] using rev_ind; [intros []|].
  intros Hin. rewrite of_list_snoc, get_set.
  destruct (String.eqb_spec (key y) (key x)) as [E|N]; [discriminate|].
  apply in_app_or in Hin. destruct Hin as [Hin|[->|[]]];
    [apply IH, Hin | congruence].
Qed.

(** X22.  Comparing a table that the source does not have proposes to
    drop everything: when the source catalog answers with no row for
    the table and the target catalog with at least one column row,
    [Compare] succeeds with a plan that is not empty and holds drops
    only, among them a DropColumn for every column of the target.  This
    is the comparison the command runs for each extra table of the
    target, under the table's own name. *)
Theorem compare_of_a_table_missing_in_the_source_drops_everything
        (s : Schedule) (sourceDB targetDB : Catalog) (tableName : string)
        (sourceName targetName : string)
        (columns : list ColumnRow) (indexes : list IndexRow) :
  fair_schedule s ->
  selectDatabase sourceDB = Ok sourceName ->
  selectDatabase targetDB = Ok targetName ->
  queryColumns sourceDB sourceName tableName
    = Ok {| rows_items := []; rows_err := None |} ->
  queryIndexes sourceDB sourceName tableName
    = Ok {| rows_items := []; rows_err := None |} ->
  queryColumns targetDB targetName tableName
    = Ok {| rows_items := List.map Ok columns; rows_err := None |} ->
  queryIndexes targetDB targetName tableName
    = Ok {| rows_items := List.map Ok indexes; rows_err := None |} ->
  columns <> [] ->
  exists plan,
    Compare s sourceDB targetDB tableName = Ok plan
    /\ p_Differences plan <> []
    /\ forallb isDrop (p_Differences plan) = true
    /\ (forall c, In c columns -> emitted plan DropColumn (cr_Name c)).
Proof.
  intros F HdS HdT HcS HiS HcT HiT Hne. unfold Compare.
  rewrite (getTableStructure_rows _ sourceDB sourceName tableName [] []
                                  HdS HcS HiS).
  rewrite (getTableStructure_rows _ targetDB targetName tableName _ _
                                  HdT HcT HiT).
  eexists. split; [reflexivity|].
  assert (Hbare : isBare
            {| t_Name := tableName;
               t_Columns := List.map columnOfRow [];
               t_Indexes := GoMap.range (o_sourceIndexMap s) (indexMapOf [])
                                        (fun _ idx => [idx]);
               t_PrimaryKey := catalogPrimaryKey [] |}).
  { split; [reflexivity|]. split; [|reflexivity].
    cbn [t_Indexes]. apply range_nil. intros k v H. discriminate H. }
  assert (Hdrop : forall c, In c columns ->
            emitted (comparePlan s tableName
                       {| t_Name := tableName;
                          t_Columns := List.map columnOfRow [];
                          t_Indexes := GoMap.range (o_sourceIndexMap s)
                                         (indexMapOf []) (fun _ idx => [idx]);
                          t_PrimaryKey := catalogPrimaryKey [] |}
                       {| t_Name := tableName;
                          t_Columns := List.map columnOfRow columns;
                          t_Indexes := GoMap.range (o_targetIndexMap s)
                                         (indexMapOf indexes)
                                         (fun _ idx => [idx]);
                          t_PrimaryKey := catalogPrimaryKey columns |})
                    DropColumn (cr_Name c)).
  { intros c Hc. destruct F as (_ & _ & FS & FT & _).
    pose proof (of_list_holds c_Name (List.map columnOfRow columns)
                              (columnOfRow c) (in_map _ _ _ Hc)) as Hg.
    change (c_Name (columnOfRow c)) with (cr_Name c) in Hg.
    destruct (GoMap.get (GoMap.of_list c_Name (List.map columnOfRow columns))
                        (cr_Name c)) as [v|] eqn:Ev; [|congruence].
    exists {| d_Type := DropColumn; d_Name := cr_Name c;
              d_Description := "Drop column '" ++ cr_Name c ++ "'";
              d_SQL := "ALTER TABLE `" ++ tableName ++ "` DROP COLUMN `"
                         ++ cr_Name c ++ "`" |}.
    split; [|split; reflexivity].
    apply column_diff_in_plan; [reflexivity|].
    apply (in_columnDiffs s _ _ _ FS FT). right.
    exists (cr_Name c), v. cbn [t_Columns]. split; [exact Ev|].
    left. reflexivity. }
  split; [|split; [apply bare_source_drops, Hbare | exact Hdrop]].
  destruct columns as [|c columns]; [congruence|].
  destruct (Hdrop c (or_introl eq_refl)) as (d & Hd & _).
  intros E. rewrite E in Hd. destruct Hd.
Qed.

Lemma compare_of_a_table_missing_in_the_source_witness :
  exists plan,
    Compare (schedule backwards) ghostCatalog twoIndexCatalog "t" = Ok plan
    /\ p_Differences plan <> []
    /\ forallb isDrop (p_Differences plan) = true
    /\ emitted plan DropColumn "id".
Proof.
  destruct (compare_of_a_table_missing_in_the_source_drops_everything
              (schedule backwards) ghostCatalog twoIndexCatalog "t"
              "shop" "shop" twoIndexColumns twoIndexRows
              (fair_schedule_of backwards fair_backwards)
              eq_refl eq_refl eq_refl eq_refl eq_refl eq_refl)
    as (plan & H1 & H2 & H3 & H4).
  - discriminate.
  - exists plan. split; [exact H1|]. split; [exact H2|]. split; [exact H3|].
    apply (H4 (columnRow "id" "PRI")). left. reflexivity.
Defined.

(** * The statements the differ writes *)

(** X23.  The statement of every AddIndex difference is built from the
    source's index of that name, on the source snapshot's table name,
    and opens with "CREATE UNIQUE INDEX" for a unique index and with
    "CREATE INDEX INDEX" for any other. *)
Theorem add_index_statement_opening
        (s : Schedule) (tableName : string) (source target : TableModel)
        (d : Difference) :
  In d (p_Differences (comparePlan s tableName source target)) ->
  d_Type d = AddIndex ->
  exists idx,
    GoMap.get (GoMap.of_list i_Name (t_Indexes source)) (d_Name d) = Some idx
    /\ d_SQL d = generateAddIndexSQL (t_Name source) idx
    /\ String.prefix (if Z.eqb (i_NonUnique idx) 0
                      then "CREATE UNIQUE INDEX `"
                      else "CREATE INDEX INDEX `")
                     (d_SQL d) = true.
Proof.
  intros Hin Ht.
  apply index_diff_in_plan in Hin; [|unfold isIndexDiff; rewrite Ht; reflexivity].
  unfold indexDiffs, compareIndexes in Hin. simpl in Hin.
  apply in_app_or in Hin. destruct Hin as [H|H];
    apply in_range in H; destruct H as (k & v & _ & Hg & H).
  - assert (Hd : d_Name d = k /\ d_SQL d = generateAddIndexSQL (t_Name source) v).
    { unfold indexToAdd in H.
      destruct (GoMap.get (GoMap.of_list i_Name (t_Indexes target)) k)
        as [ti|].
      - destruct (indexesAreDifferent v ti); [|destruct H].
        destruct H as [<-|[<-|[]]]; [discriminate Ht | auto].
      - destruct H as [<-|[]]. auto. }
    destruct Hd as [Hn Hs]. exists v. rewrite Hn, Hs.
    split; [exact Hg|]. split; [reflexivity|].
    unfold generateAddIndexSQL. destruct (Z.eqb (i_NonUnique v) 0).
    + apply (prefix_app "CREATE UNIQUE INDEX `").
    + apply (prefix_app "CREATE INDEX INDEX `").
  - unfold indexToDrop in H.
    destruct (GoMap.get (GoMap.of_list i_Name (t_Indexes source)) k);
      [destruct H|].
    destruct H as [<-|[]]. discriminate Ht.
Qed.

Lemma add_index_statement_opening_witness :
  exists idx,
    GoMap.get (GoMap.of_list i_Name (t_Indexes Mixed.source)) "idx_b" = Some idx
    /\ String.prefix "CREATE INDEX INDEX `"
                     (generateAddIndexSQL "t" idx) = true.
Proof.
  destruct (add_index_statement_opening
              (schedule backwards) "t" Mixed.source Mixed.target
              {| d_Type := AddIndex; d_Name := "idx_b";
                 d_Description := "Add index 'idx_b'";
                 d_SQL := generateAddIndexSQL "t" (index "idx_b" ["b"]) |})
    as (idx & Hg & Hs & Hp).
  - vm_compute. tauto.
  - reflexivity.
  - exists idx. split; [exact Hg|].
    cbn [d_Name d_SQL] in *. injection Hg as <-. exact Hp.
Defined.

(** ** What the extractor makes of the EXTRA column *)

Lemma sameNull_refl x : sameNull x x.
Proof. unfold sameNull. auto. Qed.

(** X24.  In a column read from the catalog the on-update attribute is
    derived from the EXTRA text alone, so that between two such
    columns the differ's on-update test adds nothing: they count as
    equal exactly when type, nullability, EXTRA and default agree.
    And the statement for such a column carries the ON UPDATE
    CURRENT_TIMESTAMP clause exactly when its EXTRA text contains
    "on update CURRENT_TIMESTAMP". *)
Theorem extracted_on_update_follows_extra (r1 r2 : ColumnRow) :
  (columnsAreDifferent (columnOfRow r1) (columnOfRow r2) = false
   <-> cr_DataType r1 = cr_DataType r2
       /\ cr_IsNullable r1 = cr_IsNullable r2
       /\ cr_Extra r1 = cr_Extra r2
       /\ sameNull (cr_DefaultValue r1) (cr_DefaultValue r2))
  /\ (In "ON UPDATE CURRENT_TIMESTAMP" (columnClauses (columnOfRow r1))
      <-> contains (cr_Extra r1) "on update CURRENT_TIMESTAMP" = true).
Proof.
  split.
  - rewrite columnsAreDifferent_false. unfold sameColumn, columnOfRow.
    cbn [c_DataType c_IsNullable c_Extra c_DefaultValue c_OnUpdate].
    split.
    + intros (H1 & H2 & H3 & H4 & _). auto.
    + intros (H1 & H2 & H3 & H4). repeat (split; [assumption|]).
      rewrite H3. apply sameNull_refl.
  - unfold columnClauses, columnOfRow.
    cbn [c_DataType c_IsNullable c_Extra c_DefaultValue c_OnUpdate].
    rewrite !in_app_iff.
    destruct (contains (cr_Extra r1) "on update CURRENT_TIMESTAMP");
      cbn [Valid Str andb].
    + split; [reflexivity|]. intros _. right. right. left. left. reflexivity.
    + split; [|discriminate].
      intros [H|[H|[H|H]]].
      * destruct (String.eqb (cr_IsNullable r1) "NO");
          [destruct H as [H|[]]; discriminate H | destruct H].
      * destruct (Valid (cr_DefaultValue r1)); [|destruct H].
        destruct (String.eqb (Str (cr_DefaultValue r1)) "CURRENT_TIMESTAMP");
          destruct H as [H|[]]; discriminate H.
      * destruct H.
      * destruct (contains (cr_Extra r1) "auto_increment");
          [destruct H as [H|[]]; discriminate H | destruct H].
Qed.

(** * A table found in sync *)

Import Idle.

Section InSync.

Context {W : Type} (handle : forall R, Call R -> W -> R * W).
Context (cfg : SyncConfig) (task : SyncTask).

Lemma addMissingColumns_idle targetTable targetColMap sourceCols :
  emits idle (addMissingColumns W handle targetTable targetColMap sourceCols).
Proof.
  induction sourceCols as [|col rest IH]; simpl; [apply emits_ret|].
  destruct (GoMap.get targetColMap (ColumnName col)) as [[|]|];
    [exact IH | |]; (apply emits_bind; [emits_auto|]);
    intros [e|]; [apply emits_ret | exact IH | apply emits_ret | exact IH].
Qed.

Lemma getAllColumns_idle db tableName :
  emits idle (getAllColumns W handle db tableName).
Proof. unfold getAllColumns. emits_auto. Qed.

Lemma syncTableSchema_idle : emits idle (syncTableSchema W handle task).
Proof.
  unfold syncTableSchema, getColumnDetails.
  apply emits_bind; [emits_auto|]. intros [sourceCols|e]; [|apply emits_ret].
  apply emits_bind; [apply getAllColumns_idle|].
  intros [targetColNames|e]; [|apply emits_ret].
  apply addMissingColumns_idle.
Qed.

Lemma needSync_idle columns :
  emits idle (needSync W handle cfg task columns).
Proof.
  unfold needSync, checkByUpdateTime, checkByChecksum, checkByCount.
  destruct (String.eqb (CheckMethod _) "update_time").
  - destruct (String.eqb (UpdateField _) ""); [emits_auto|].
    apply emits_bind; [apply getAllColumns_idle|].
    intros [cols|e]; [|apply emits_ret].
    destruct (negb _); emits_auto.
  - destruct (String.eqb (CheckMethod _) "count"); emits_auto.
Qed.

End InSync.

(** X25.  A table found in sync is neither replicated nor cleaned.
    When schema repair and the column listing go through and change
    detection answers "no sync needed" without error, the run ends
    there: the task is completed with its error field untouched, the
    observers hear of the start and of the completion, and between the
    two nothing is read page-wise from the source, no transaction is
    begun and drift cleanup is not started. *)
Theorem in_sync_run_only_looks
        (W : Type) (handle : forall R, Call R -> W -> R * W)
        (cfg : SyncConfig) (task : SyncTask)
        (w w1 w2 w3 w4 : W) (t2 t3 t4 : list Event) (columns : list string) :
  handle _ (Notify task OnSyncStart) w = (tt, w1) ->
  syncTableSchema W handle task w1 = (None, w2, t2) ->
  getAllColumns W handle SourceDB (SourceTable task) w2
    = (Ok columns, w3, t3) ->
  needSync W handle cfg task columns w3 = ((false, None), w4, t4) ->
  let done := setStatus task "completed" (Error task) in
  fst (fst (syncTable W handle cfg task w)) = done
  /\ snd (syncTable W handle cfg task w)
     = (Ev (Notify task OnSyncStart) tt
           :: t2 ++ t3 ++ t4 ++ [Ev (Notify done OnSyncComplete) tt])%list
  /\ forallb idle (snd (syncTable W handle cfg task w)) = true.
Proof.
  intros H1 H2 H3 H4 done.
  assert (Hrun : syncTable W handle cfg task w
                 = after (Ev (Notify task OnSyncStart) tt :: t2 ++ t3 ++ t4)
                         (complete W handle task w4)).
  { unfold syncTable, notifyStart.
    rewrite (bind_run _ _ w tt w1 [Ev (Notify task OnSyncStart) tt])
      by (unfold call; rewrite H1; reflexivity).
    rewrite (bind_run _ _ w1 _ _ _ H2).
    rewrite (bind_run _ _ w2 _ _ _ H3).
    rewrite (bind_run _ _ w3 _ _ _ H4).
    rewrite !after_after. f_equal. simpl. rewrite <- !app_assoc. reflexivity. }
  rewrite Hrun. unfold complete, notifyComplete, bind, call, ret.
  destruct (handle unit (Notify (setStatus task "completed" (Error task))
                                OnSyncComplete) w4) as [[] w5].
  cbn [after fst snd app]. split; [reflexivity|].
  split; [rewrite <- !app_assoc; reflexivity|].
  pose proof (syncTableSchema_idle handle task w1) as E2. rewrite H2 in E2.
  pose proof (getAllColumns_idle handle SourceDB (SourceTable task) w2) as E3.
  rewrite H3 in E3.
  pose proof (needSync_idle handle cfg task columns w3) as E5.
  rewrite H4 in E5. cbn [snd] in E2, E3, E5.
  cbn [forallb]. rewrite !forallb_app, E2, E3, E5. reflexivity.
Qed.

Lemma in_sync_run_only_looks_witness :
  Status (fst (fst (syncTable Mem.DB Mem.handle Scenes.checksumConfig
                              (Mem.task 1) inSync))) = "completed"
  /\ forallb idle (snd (syncTable Mem.DB Mem.handle Scenes.checksumConfig
                                  (Mem.task 1) inSync)) = true.
Proof.
  destruct (in_sync_run_only_looks
              Mem.DB Mem.handle Scenes.checksumConfig (Mem.task 1)
              inSync inSync inSync inSync inSync
              (snd (syncTableSchema Mem.DB Mem.handle (Mem.task 1) inSync))
              (snd (getAllColumns Mem.DB Mem.handle SourceDB "t" inSync))
              (snd (needSync Mem.DB Mem.handle Scenes.checksumConfig
                             (Mem.task 1) ["id"; "updated_at"] inSync))
              ["id"; "updated_at"] eq_refl eq_refl eq_refl eq_refl)
    as (H1 & _ & H3).
  split; [rewrite H1; reflexivity | exact H3].
Defined.

(** * Carrying out a plan *)

Import RoundTrip.

Lemma applyDifferences_app exec ds1 ds2 t :
  applyDifferences exec (ds1 ++ ds2) t
  = applyDifferences exec ds2 (applyDifferences exec ds1 t).
Proof. unfold applyDifferences. apply fold_left_app. Qed.

(** ** One loop of the differ, entry by entry *)

Section Phase.

Context {X : Type}.
Variable look : TableModel -> string -> option X.
Variable rest : TableModel -> TableModel -> Prop.
Hypothesis rest_refl : forall t, rest t t.
Hypothesis rest_trans : forall t1 t2 t3, rest t1 t2 -> rest t2 t3 -> rest t1 t3.
Variable exec : Difference -> TableModel -> TableModel.

(** When the statements of each entry settle that entry's name and
    touch no other, running the entries of distinct names one after
    the other settles every name visited and leaves the others alone. *)
Lemma phase (R : string -> option X -> Prop)
      (blk : string -> list Difference) (ks : list string) : forall t0,
  NoDup ks ->
  (forall k t, In k ks -> look t k = look t0 k ->
      R k (look (applyDifferences exec (blk k) t) k)
      /\ (forall j, j <> k ->
                    look (applyDifferences exec (blk k) t) j = look t j)
      /\ rest t (applyDifferences exec (blk k) t)) ->
  (forall k, In k ks ->
             R k (look (applyDifferences exec (flat_map blk ks) t0) k))
  /\ (forall j, ~ In j ks ->
                look (applyDifferences exec (flat_map blk ks) t0) j
                = look t0 j)
  /\ rest t0 (applyDifferences exec (flat_map blk ks) t0).
Proof.
  induction ks as [|k ks IH]; intros t0 Hnd Hblk.
  - simpl. split; [intros k []|]. split; [reflexivity | apply rest_refl].
  - inversion Hnd as [|? ? Hk Hnd']; subst.
    cbn [flat_map]. rewrite applyDifferences_app.
    destruct (Hblk k t0 (or_introl eq_refl) eq_refl) as (HR & Hother & Hrest).
    set (t1 := applyDifferences exec (blk k) t0) in *.
    destruct (IH t1 Hnd') as (IR & Iother & Irest).
    { intros k' t Hin Hlook. apply Hblk; [right; exact Hin|].
      rewrite Hlook. apply Hother. intros ->. contradiction. }
    split; [|split].
    + intros k' [<-|Hin]; [|apply IR, Hin].
      rewrite (Iother k Hk). exact HR.
    + intros j Hj. rewrite Iother by (intros H; apply Hj; right; exact H).
      apply Hother. intros ->. apply Hj. left. reflexivity.
    + eapply rest_trans; eassumption.
Qed.

End Phase.

Lemma fair_range_keys {V} (o : GoMap.RangeOrder) (key : V -> string) xs :
  GoMap.fair o ->
  NoDup (o (GoMap.keys (GoMap.of_list key xs)))
  /\ (forall k, In k (o (GoMap.keys (GoMap.of_list key xs)))
                <-> GoMap.get (GoMap.of_list key xs) k <> None).
Proof.
  intros Hfair. split.
  - eapply Permutation_NoDup; [apply Permutation_sym, Hfair|].
    apply nodup_keys_of_list.
  - intros k. rewrite <- get_in_keys. split.
    + apply Permutation_in, Hfair.
    + apply Permutation_in, Permutation_sym, Hfair.
Qed.

Section Converges.

Variables (s : Schedule) (A B : TableModel).
Variable exec : Difference -> TableModel -> TableModel.
Hypothesis Hfair : fair_schedule s.
Hypothesis Hexec : Executes A exec.

Lemma restOfColumns_refl t : restOfColumns t t.
Proof. split; [intros k; reflexivity | reflexivity]. Qed.

Lemma restOfColumns_trans t1 t2 t3 :
  restOfColumns t1 t2 -> restOfColumns t2 t3 -> restOfColumns t1 t3.
Proof.
  intros [H1 H2] [G1 G2]. split.
  - intros k. rewrite G1. apply H1.
  - unfold keepsKey in *. congruence.
Qed.

Lemma restOfIndexes_refl t : restOfIndexes t t.
Proof. split; [intros k; reflexivity | reflexivity]. Qed.

Lemma restOfIndexes_trans t1 t2 t3 :
  restOfIndexes t1 t2 -> restOfIndexes t2 t3 -> restOfIndexes t1 t3.
Proof.
  intros [H1 H2] [G1 G2]. split.
  - intros k. rewrite G1. apply H1.
  - unfold keepsKey in *. congruence.
Qed.

(** The column pass: after its two loops every column name is settled. *)
Lemma column_pass_converges t0 :
  (forall k, GoMap.get (columnsOf t0) k = GoMap.get (columnsOf B) k) ->
  (forall k, agree sameColumn
               (GoMap.get (columnsOf A) k)
               (GoMap.get (columnsOf
                             (applyDifferences exec (columnDiffs s A B) t0)) k))
  /\ keepsIndexes t0 (applyDifferences exec (columnDiffs s A B) t0)
  /\ keepsKey t0 (applyDifferences exec (columnDiffs s A B) t0).
Proof.
  intros Hstart.
  destruct Hfair as (_ & _ & FS & FT & _).
  destruct Hexec as (Hadd & Hmod & Hdrop & _).
  destruct (fair_range_keys (o_sourceColumns s) c_Name (t_Columns A) FS)
    as [NdA InA].
  destruct (fair_range_keys (o_targetColumns s) c_Name (t_Columns B) FT)
    as [NdB InB].
  unfold columnDiffs, compareColumns. cbn [p_Differences appendDiffs emptyPlan app].
  unfold GoMap.range. rewrite applyDifferences_app.
  fold (columnsOf A) in *. fold (columnsOf B) in *.
  set (blkA := fun k => match GoMap.get (columnsOf A) k with
                        | Some v => columnToAdd A (columnsOf B) k v
                        | None => []
                        end).
  set (blkB := fun k => match GoMap.get (columnsOf B) k with
                        | Some v => columnToChange A (columnsOf A) k v
                        | None => []
                        end).
  set (ksA := o_sourceColumns s (GoMap.keys (columnsOf A))) in *.
  set (ksB := o_targetColumns s (GoMap.keys (columnsOf B))) in *.
  (* the loop over the source's columns *)
  destruct (phase (fun t k => GoMap.get (columnsOf t) k) restOfColumns
                  restOfColumns_refl restOfColumns_trans exec
                  (fun k x => match GoMap.get (columnsOf B) k with
                              | None => agree sameColumn
                                          (GoMap.get (columnsOf A) k) x
                              | Some _ => x = GoMap.get (columnsOf B) k
                              end)
                  blkA ksA t0 NdA) as (RA & OA & [KA1 KA2]).
  { intros k t Hin Hlook. apply InA in Hin.
    destruct (GoMap.get (columnsOf A) k) as [a|] eqn:Ea; [|congruence].
    unfold blkA. rewrite Ea. unfold columnToAdd.
    rewrite Hstart in Hlook.
    destruct (GoMap.get (columnsOf B) k) as [b|] eqn:Eb.
    - cbn. split; [exact Hlook|]. split; [reflexivity|].
      apply restOfColumns_refl.
    - cbn.
      match goal with
      | |- context [exec ?d t] =>
          destruct (Hadd d t a eq_refl Ea eq_refl Hlook) as (H1 & H2 & H3 & H4)
      end.
      cbn [d_Name] in *. split; [exact H1|]. split; [exact H2|].
      split; assumption. }
  set (t1 := applyDifferences exec (flat_map blkA ksA) t0) in *.
  (* the loop over the target's columns *)
  destruct (phase (fun t k => GoMap.get (columnsOf t) k) restOfColumns
                  restOfColumns_refl restOfColumns_trans exec
                  (fun k x => agree sameColumn (GoMap.get (columnsOf A) k) x)
                  blkB ksB t1 NdB) as (RB & OB & [KB1 KB2]).
  { intros k t Hin Hlook. apply InB in Hin.
    destruct (GoMap.get (columnsOf B) k) as [b|] eqn:Eb; [|congruence].
    assert (Ht : GoMap.get (columnsOf t) k = Some b).
    { rewrite Hlook. destruct (in_dec string_dec k ksA) as [HA|HA].
      - specialize (RA k HA). cbv beta in RA. rewrite Eb in RA. exact RA.
      - rewrite (OA k HA), Hstart. exact Eb. }
    unfold blkB. rewrite Eb. unfold columnToChange.
    destruct (GoMap.get (columnsOf A) k) as [a|] eqn:Ea.
    - destruct (columnsAreDifferent a b) eqn:Ed.
      + cbn.
        match goal with
        | |- context [exec ?d t] =>
            destruct (Hmod d t a eq_refl Ea eq_refl) as (H1 & H2 & H3 & H4)
        end.
        { cbn [d_Name]. congruence. }
        cbn [d_Name] in *. split; [exact H1|]. split; [exact H2|].
        split; assumption.
      + cbn. rewrite Ht. split; [apply columnsAreDifferent_false, Ed|].
        split; [reflexivity | apply restOfColumns_refl].
    - cbn.
      match goal with
      | |- context [exec ?d t] =>
          destruct (Hdrop d t eq_refl eq_refl) as (H1 & H2 & H3 & H4)
      end.
      { cbn [d_Name]. congruence. }
      cbn [d_Name] in *. rewrite H1. split; [exact I|]. split; [exact H2|].
      split; assumption. }
  split; [|split].
  - intros k. destruct (in_dec string_dec k ksB) as [HB|HB];
      [apply RB, HB|].
    rewrite (OB k HB).
    assert (Eb : GoMap.get (columnsOf B) k = None).
    { destruct (GoMap.get (columnsOf B) k) eqn:E; [|reflexivity].
      exfalso. apply HB, InB. congruence. }
    destruct (in_dec string_dec k ksA) as [HA|HA].
    + specialize (RA k HA). cbv beta in RA. rewrite Eb in RA. exact RA.
    + fold t1. rewrite (OA k HA), Hstart, Eb.
      destruct (GoMap.get (columnsOf A) k) eqn:E; [|exact I].
      exfalso. apply HA, InA. congruence.
  - intros k. rewrite KB1. apply KA1.
  - unfold keepsKey in *. congruence.
Qed.

(** The index pass: after its two loops every index name is settled. *)
Lemma index_pass_converges t0 :
  (forall k, GoMap.get (indexesOf t0) k = GoMap.get (indexesOf B) k) ->
  (forall k, agree sameIndex
               (GoMap.get (indexesOf A) k)
               (GoMap.get (indexesOf
                             (applyDifferences exec (indexDiffs s A B) t0)) k))
  /\ keepsColumns t0 (applyDifferences exec (indexDiffs s A B) t0)
  /\ keepsKey t0 (applyDifferences exec (indexDiffs s A B) t0).
Proof.
  intros Hstart.
  destruct Hfair as (_ & _ & _ & _ & FS & FT).
  destruct Hexec as (_ & _ & _ & Hadd & Hdrop & _).
  destruct (fair_range_keys (o_sourceIndexes s) i_Name (t_Indexes A) FS)
    as [NdA InA].
  destruct (fair_range_keys (o_targetIndexes s) i_Name (t_Indexes B) FT)
    as [NdB InB].
  unfold indexDiffs, compareIndexes. cbn [p_Differences appendDiffs emptyPlan app].
  unfold GoMap.range. rewrite applyDifferences_app.
  fold (indexesOf A) in *. fold (indexesOf B) in *.
  set (blkA := fun k => match GoMap.get (indexesOf A) k with
                        | Some v => indexToAdd A (indexesOf B) k v
                        | None => []
                        end).
  set (blkB := fun k => match GoMap.get (indexesOf B) k with
                        | Some v => indexToDrop A (indexesOf A) k v
                        | None => []
                        end).
  set (ksA := o_sourceIndexes s (GoMap.keys (indexesOf A))) in *.
  set (ksB := o_targetIndexes s (GoMap.keys (indexesOf B))) in *.
  (* the loop over the source's indexes *)
  destruct (phase (fun t k => GoMap.get (indexesOf t) k) restOfIndexes
                  restOfIndexes_refl restOfIndexes_trans exec
                  (fun k x => agree sameIndex (GoMap.get (indexesOf A) k) x)
                  blkA ksA t0 NdA) as (RA & OA & [KA1 KA2]).
  { intros k t Hin Hlook. apply InA in Hin.
    destruct (GoMap.get (indexesOf A) k) as [a|] eqn:Ea; [|congruence].
    unfold blkA. rewrite Ea. unfold indexToAdd.
    rewrite Hstart in Hlook.
    destruct (GoMap.get (indexesOf B) k) as [b|] eqn:Eb.
    - destruct (indexesAreDifferent a b) eqn:Ed.
      + (* dropped, then created again *)
        cbn [applyDifferences fold_left].
        destruct (Hdrop (dropIndexDiff (t_Name A) k) t eq_refl eq_refl)
          as (D1 & D2 & D3 & D4).
        { cbn [d_Name dropIndexDiff]. congruence. }
        cbn [d_Name dropIndexDiff] in D1, D2.
        destruct (Hadd (recreateIndexDiff (t_Name A) k a)
                       (exec (dropIndexDiff (t_Name A) k) t) a
                       eq_refl Ea eq_refl D1) as (C1 & C2 & C3 & C4).
        cbn [d_Name recreateIndexDiff] in C1, C2.
        split; [exact C1|]. split.
        * intros j Hj. rewrite (C2 j Hj). apply D2, Hj.
        * eapply restOfIndexes_trans; split; eassumption.
      + cbn. rewrite Hlook. split; [apply indexesAreDifferent_false, Ed|].
        split; [reflexivity | apply restOfIndexes_refl].
    - cbn.
      match goal with
      | |- context [exec ?d t] =>
          destruct (Hadd d t a eq_refl Ea eq_refl Hlook) as (H1 & H2 & H3 & H4)
      end.
      cbn [d_Name] in *. split; [exact H1|]. split; [exact H2|].
      split; assumption. }
  set (t1 := applyDifferences exec (flat_map blkA ksA) t0) in *.
  (* the loop over the target's indexes *)
  destruct (phase (fun t k => GoMap.get (indexesOf t) k) restOfIndexes
                  restOfIndexes_refl restOfIndexes_trans exec
                  (fun k x => agree sameIndex (GoMap.get (indexesOf A) k) x)
                  blkB ksB t1 NdB) as (RB & OB & [KB1 KB2]).
  { intros k t Hin Hlook. apply InB in Hin.
    destruct (GoMap.get (indexesOf B) k) as [b|] eqn:Eb; [|congruence].
    unfold blkB. rewrite Eb. unfold indexToDrop.
    destruct (GoMap.get (indexesOf A) k) as [a|] eqn:Ea.
    - cbn. rewrite Hlook. split; [|split; [reflexivity
                                         | apply restOfIndexes_refl]].
      assert (HA : In k ksA) by (apply InA; congruence).
      specialize (RA k HA). cbv beta in RA. rewrite Ea in RA. exact RA.
    - assert (HA : ~ In k ksA) by (intros H; apply InA in H; congruence).
      cbn [applyDifferences fold_left].
      destruct (Hdrop (dropIndexDiff (t_Name A) k) t eq_refl eq_refl)
        as (D1 & D2 & D3 & D4).
      { cbn [d_Name dropIndexDiff]. rewrite Hlook, (OA k HA), Hstart.
        congruence. }
      cbn [d_Name dropIndexDiff] in D1, D2. rewrite D1.
      split; [exact I|]. split; [exact D2|]. split; assumption. }
  split; [|split].
  - intros k. destruct (in_dec string_dec k ksB) as [HB|HB];
      [apply RB, HB|].
    rewrite (OB k HB).
    destruct (in_dec string_dec k ksA) as [HA|HA]; [apply RA, HA|].
    fold t1. rewrite (OA k HA), Hstart.
    destruct (GoMap.get (indexesOf B) k) eqn:Eb;
      [exfalso; apply HB, InB; congruence|].
    destruct (GoMap.get (indexesOf A) k) eqn:Ea; [|exact I].
    exfalso. apply HA, InA. congruence.
  - intros k. rewrite KB1. apply KA1.
  - unfold keepsKey in *. congruence.
Qed.

(** The primary-key pass. *)
Lemma key_pass_converges t0 :
  t_PrimaryKey t0 = t_PrimaryKey B ->
  agree samePrimaryKey (t_PrimaryKey A)
        (t_PrimaryKey (applyDifferences exec (primaryKeyDiffs A B) t0))
  /\ keepsColumns t0 (applyDifferences exec (primaryKeyDiffs A B) t0)
  /\ keepsIndexes t0 (applyDifferences exec (primaryKeyDiffs A B) t0).
Proof.
  intros Hstart.
  destruct Hexec as (_ & _ & _ & _ & _ & Hdrop & Hadd).
  unfold primaryKeyDiffs, comparePrimaryKeys.
  destruct (t_PrimaryKey A) as [spk|] eqn:Ea;
    destruct (t_PrimaryKey B) as [tpk|] eqn:Eb.
  - destruct (primaryKeysAreDifferent spk tpk) eqn:Ed.
    + cbn [p_Differences appendDiffs emptyPlan app applyDifferences fold_left].
      destruct (Hdrop (dropPrimaryKeyDiff (t_Name A) "Drop existing primary key")
                      t0 eq_refl eq_refl) as (D1 & D2 & D3).
      { congruence. }
      destruct (Hadd (addPrimaryKeyDiff (t_Name A) "Add new primary key" spk)
                     (exec (dropPrimaryKeyDiff (t_Name A)
                                               "Drop existing primary key") t0)
                     spk eq_refl Ea eq_refl D1) as (C1 & C2 & C3).
      split; [exact C1|]. split.
      * intros k. rewrite C2. apply D2.
      * intros k. rewrite C3. apply D3.
    + cbn. rewrite Hstart. split; [apply primaryKeysAreDifferent_false, Ed|].
      split; intros k; reflexivity.
  - cbn [p_Differences appendDiffs emptyPlan app applyDifferences fold_left].
    destruct (Hadd (addPrimaryKeyDiff (t_Name A) "Add primary key" spk) t0 spk
                   eq_refl Ea eq_refl Hstart) as (C1 & C2 & C3).
    auto.
  - cbn [p_Differences appendDiffs emptyPlan app applyDifferences fold_left].
    destruct (Hdrop (dropPrimaryKeyDiff (t_Name A) "Drop primary key") t0
                    eq_refl eq_refl) as (D1 & D2 & D3).
    { congruence. }
    rewrite D1. split; [exact I|]. auto.
  - cbn. rewrite Hstart. split; [exact I|]. split; intros k; reflexivity.
Qed.

(** The three passes in a row. *)
Lemma plan_converges tableName :
  comparedEqual A (applyDifferences exec
                     (p_Differences (comparePlan s tableName A B)) B).
Proof.
  rewrite comparePlan_diffs, !applyDifferences_app.
  destruct (column_pass_converges B (fun k => eq_refl)) as (C1 & C2 & C3).
  set (t1 := applyDifferences exec (columnDiffs s A B) B) in *.
  destruct (index_pass_converges t1 C2) as (I1 & I2 & I3).
  set (t2 := applyDifferences exec (indexDiffs s A B) t1) in *.
  destruct (key_pass_converges t2) as (K1 & K2 & K3).
  { unfold keepsKey in *. congruence. }
  set (t3 := applyDifferences exec (primaryKeyDiffs A B) t2) in *.
  split; [|split].
  - intros name. fold (columnsOf A). fold (columnsOf t3).
    rewrite K2, I2. apply C1.
  - intros name. fold (indexesOf A). fold (indexesOf t3).
    rewrite K3. apply I1.
  - exact K1.
Qed.

End Converges.

(** ** An executor that keeps the contract *)

Section ByName.

Context {V : Type} (key : V -> string).

Lemma get_of_list_snoc l x k :
  GoMap.get (GoMap.of_list key (l ++ [x])) k
  = if String.eqb (key x) k then Some x else GoMap.get (GoMap.of_list key l) k.
Proof. rewrite of_list_snoc, get_set. reflexivity. Qed.

Lemma get_of_list_key l : forall k v,
  GoMap.get (GoMap.of_list key l) k = Some v -> key v = k.
Proof.
  induction l as [|x l IH] using rev_ind; intros k v; [discriminate|].
  rewrite get_of_list_snoc.
  destruct (String.eqb_spec (key x) k) as [E|N]; [|apply IH].
  intros H. injection H as <-. exact E.
Qed.

Lemma get_of_list_filter n l : forall k,
  GoMap.get (GoMap.of_list key
               (filter (fun x => negb (String.eqb (key x) n)) l)) k
  = if String.eqb n k then None else GoMap.get (GoMap.of_list key l) k.
Proof.
  induction l as [|x l IH] using rev_ind; intros k.
  - simpl. destruct (String.eqb n k); reflexivity.
  - rewrite filter_app, get_of_list_snoc. cbn [filter].
    destruct (String.eqb_spec (key x) n) as [E|N]; cbn [negb].
    + rewrite app_nil_r, IH, E.
      destruct (String.eqb n k); reflexivity.
    + rewrite get_of_list_snoc, IH.
      destruct (String.eqb_spec (key x) k) as [E'|N']; [|reflexivity].
      destruct (String.eqb_spec n k); [congruence | reflexivity].
Qed.

Lemma get_of_list_replace n a l : key a = n -> forall k,
  GoMap.get (GoMap.of_list key
               (List.map (fun x => if String.eqb (key x) n then a else x) l)) k
  = if String.eqb n k
    then match GoMap.get (GoMap.of_list key l) n with
         | Some _ => Some a
         | None => None
         end
    else GoMap.get (GoMap.of_list key l) k.
Proof.
  intros Ha. induction l as [|x l IH] using rev_ind; intros k.
  - simpl. destruct (String.eqb n k); reflexivity.
  - rewrite map_app. cbn [List.map]. rewrite !get_of_list_snoc, IH.
    destruct (String.eqb_spec (key x) n) as [E|N].
    + rewrite Ha, E. destruct (String.eqb n k); reflexivity.
    + destruct (String.eqb_spec (key x) k) as [E'|N'].
      * destruct (String.eqb_spec n k); [congruence | reflexivity].
      * reflexivity.
Qed.

End ByName.

Lemma sameIndex_refl i : sameIndex i i.
Proof. unfold sameIndex. auto. Qed.

Lemma carryOut_executes A : Executes A (carryOut A).
Proof.
  unfold Executes, addsColumn, modifiesColumn, dropsColumn, addsIndex,
    dropsIndex, dropsKey, addsKey, keepsOtherColumns, keepsOtherIndexes,
    keepsColumns, keepsIndexes, keepsKey.
  repeat split; intros; unfold carryOut;
    repeat match goal with
           | H : d_Type _ = _ |- _ => rewrite H; clear H
           | H : GoMap.get (columnsOf A) _ = Some _ |- _ =>
               rewrite H; apply get_of_list_key in H
           | H : GoMap.get (indexesOf A) _ = Some _ |- _ =>
               rewrite H; apply get_of_list_key in H
           end;
    unfold columnsOf, indexesOf; cbn [t_Columns t_Indexes t_PrimaryKey
                                      withColumns withIndexes withKey];
    try reflexivity.
  - (* a column added *)
    rewrite get_of_list_snoc.
    match goal with H : c_Name _ = _ |- _ => rewrite H end.
    rewrite String.eqb_refl. apply sameColumn_refl.
  - rewrite get_of_list_snoc.
    match goal with H : c_Name _ = _ |- _ => rewrite H end.
    destruct (String.eqb_spec (d_Name d) k); [congruence | reflexivity].
  - (* a column modified *)
    match goal with
    | H : c_Name ?a = _ |- _ =>
        rewrite (get_of_list_replace c_Name (d_Name d) a _ H)
    end.
    rewrite String.eqb_refl.
    match goal with
    | H : GoMap.get (columnsOf t) (d_Name d) <> None |- _ =>
        unfold columnsOf in H;
        destruct (GoMap.get (GoMap.of_list c_Name (t_Columns t)) (d_Name d));
        [apply sameColumn_refl | congruence]
    end.
  - match goal with
    | H : c_Name ?a = _ |- _ =>
        rewrite (get_of_list_replace c_Name (d_Name d) a _ H)
    end.
    destruct (String.eqb_spec (d_Name d) k); [congruence | reflexivity].
  - (* a column dropped *)
    rewrite get_of_list_filter, String.eqb_refl. reflexivity.
  - rewrite get_of_list_filter.
    destruct (String.eqb_spec (d_Name d) k); [congruence | reflexivity].
  - (* an index added *)
    rewrite get_of_list_snoc.
    match goal with H : i_Name _ = _ |- _ => rewrite H end.
    rewrite String.eqb_refl. apply sameIndex_refl.
  - rewrite get_of_list_snoc.
    match goal with H : i_Name _ = _ |- _ => rewrite H end.
    destruct (String.eqb_spec (d_Name d) k); [congruence | reflexivity].
  - (* an index dropped *)
    rewrite get_of_list_filter, String.eqb_refl. reflexivity.
  - rewrite get_of_list_filter.
    destruct (String.eqb_spec (d_Name d) k); [congruence | reflexivity].
  - (* the key added *)
    match goal with H : t_PrimaryKey A = Some _ |- _ => rewrite H end.
    reflexivity.
Qed.

(** ** Round trip *)


